(** * Tendrl nano agent: ingress, queue, adaptive batching, egress

    A shallow embedding of the agent's [main] package (the Go source with
    [HandleConnection], [ProcessMessage], [calculateDynamicBatchSize],
    [ProcessQueue], [FlushBatch], [checkMessage] and [sendSingleMessage],
    the shutdown of [main], and beside them [InitializeConfig] and
    [Convert]) and the properties of its pipeline.

    Conventions of the embedding:
    - Go [int] and [time.Duration] are 64-bit integers, carried as [Z];
      the code only compares and converts them, it never adds or multiplies
      them, so no wrap-around arises outside the float conversions, which are
      written out in [Go.float_to_int].
    - Go [float64] is the kernel's binary64 type [float]; every operation is
      rounded on its own, as the gc compiler does on amd64.  (On arm64 it may
      fuse a product with a sum; the only place where it could is the sum of
      [calculateDynamicBatchSize], and at the inputs of the exact results
      below its products are exact, so fusing them changes nothing there.)
    - Go strings are [string]; a slice is a [list] (a nil slice and an empty
      one are both [[]]: the code only takes [len] of them and ranges over
      them, and [omitempty] drops both).
    - JSON texts are handled at the level of the values they hold
      ([Json.value]); the lexer of [encoding/json] is outside this
      repository.  A [Json.Str] holds the bytes of a string with its escapes
      resolved; the decoder coerces them to well-formed UTF-8
      ([Json.coerce]), and [Json.render] gives the bytes [json.Marshal]
      writes. *)

From Stdlib Require Import ZArith Zpower List String Ascii Bool Lia Floats DecimalString.
Import ListNotations.

Local Open Scope string_scope.
Local Open Scope Z_scope.
Local Open Scope list_scope.

(* ================================================================= *)
(** ** UTF-8, as [unicode/utf8] reads it *)

Module Utf8.

Local Open Scope N_scope.

(** [acceptRanges]: the bytes that may follow a first byte. *)
Definition second_lo (b0 : N) : N :=
  if b0 =? 224 then 160 else if b0 =? 240 then 144 else 128.

Definition second_hi (b0 : N) : N :=
  if b0 =? 237 then 159 else if b0 =? 244 then 143 else 191.

Definition continuation (c : ascii) : bool :=
  (128 <=? N_of_ascii c) && (N_of_ascii c <=? 191).

(** The size [DecodeRuneInString] finds for the rune at the head of a
    string.  0 stands for its two answers that are no rune of the string:
    the empty string, and a byte that starts no well-formed encoding (for
    which the library returns [RuneError] with the sizes 0 and 1). *)
Definition size (s : string) : nat :=
  match s with
  | EmptyString => O
  | String c0 r0 =>
      let b0 := N_of_ascii c0 in
      if b0 <? 128 then 1%nat
      else if (b0 <? 194) || (244 <? b0) then O
      else
        match r0 with
        | EmptyString => O
        | String c1 r1 =>
            let b1 := N_of_ascii c1 in
            if (b1 <? second_lo b0) || (second_hi b0 <? b1) then O
            else if b0 <? 224 then 2%nat
            else
              match r1 with
              | EmptyString => O
              | String c2 r2 =>
                  if negb (continuation c2) then O
                  else if b0 <? 240 then 3%nat
                  else
                    match r2 with
                    | EmptyString => O
                    | String c3 _ => if continuation c3 then 4%nat else O
                    end
              end
        end
  end.

(** The rest of a string, [keep] bytes before the end of a rune that was
    found well formed. *)
Fixpoint valid_from (keep : nat) (s : string) : bool :=
  match s with
  | EmptyString => true
  | String _ rest =>
      match keep with
      | S k => valid_from k rest
      | O =>
          match size s with
          | O => false
          | S k => valid_from k rest
          end
      end
  end.

(** [utf8.ValidString]. *)
Definition ValidString (s : string) : bool := valid_from 0 s.

(** The encoding of U+FFFD, the replacement character. *)
Definition replacement : string :=
  String (ascii_of_N 239) (String (ascii_of_N 191) (String (ascii_of_N 189) EmptyString)).

End Utf8.

(* ================================================================= *)
(** ** JSON values *)

Module Json.

#[local] Set Warnings "-register-all".

Inductive value : Type :=
| Null
| Bool (b : bool)
| Number (literal : string)
| Str (s : string)
| Array (items : list value)
| Object (members : list (string * value)).

(** The name of a JSON kind, as [encoding/json] reports it in a type error. *)
Definition kind (v : value) : string :=
  match v with
  | Null => "null"
  | Bool _ => "bool"
  | Number _ => "number"
  | Str _ => "string"
  | Array _ => "array"
  | Object _ => "object"
  end.

(** *** Rendering, as [json.Marshal] writes it (compact, HTML-safe). *)

Definition hex_digit (n : N) : ascii :=
  match n with
  | 0 => "0" | 1 => "1" | 2 => "2" | 3 => "3" | 4 => "4" | 5 => "5"
  | 6 => "6" | 7 => "7" | 8 => "8" | 9 => "9" | 10 => "a" | 11 => "b"
  | 12 => "c" | 13 => "d" | 14 => "e" | _ => "f"
  end%N%char.

Definition backslash : ascii := ascii_of_N 92.
Definition dquote : ascii := ascii_of_N 34.

Definition escape_u00 (c : ascii) : string :=
  let n := N_of_ascii c in
  String backslash
    (String "u" (String "0" (String "0"
       (String (hex_digit (n / 16)) (String (hex_digit (n mod 16)) EmptyString))))).

(** One ASCII byte of a string: the quote and the backslash get a
    backslash, the five short escapes are used, the other control bytes and
    [<], [>], [&] become [\u00XX], everything else is copied. *)
Definition escape_byte (c : ascii) : string :=
  let n := N_of_ascii c in
  if (n =? 34)%N then String backslash (String dquote EmptyString)
  else if (n =? 92)%N then String backslash (String backslash EmptyString)
  else if (n =? 8)%N then String backslash (String "b" EmptyString)
  else if (n =? 12)%N then String backslash (String "f" EmptyString)
  else if (n =? 10)%N then String backslash (String "n" EmptyString)
  else if (n =? 13)%N then String backslash (String "r" EmptyString)
  else if (n =? 9)%N then String backslash (String "t" EmptyString)
  else if (n <? 32)%N then escape_u00 c
  else if ((n =? 60) || (n =? 62) || (n =? 38))%N then escape_u00 c
  else String c EmptyString.

(** The escape of the rune at the head of the string, when it is U+2028 or
    U+2029. *)
Definition escape_separator (s : string) : option string :=
  match s with
  | String a (String b (String c _)) =>
      if ((N_of_ascii a =? 226) && (N_of_ascii b =? 128))%N then
        if (N_of_ascii c =? 168)%N then Some "\u2028"
        else if (N_of_ascii c =? 169)%N then Some "\u2029"
        else None
      else None
  | _ => None
  end.

(** The string from a byte on: an ASCII byte is escaped as above; a byte
    that starts no well-formed rune is written as [\ufffd]; the runes
    U+2028 and U+2029 are written as escapes and every other rune is
    copied.  [pending] counts the bytes that are left of the rune at hand,
    which are copied or, after an escape, left out. *)
Fixpoint escape_from (pending : nat) (copy : bool) (s : string) : string :=
  match s with
  | EmptyString => EmptyString
  | String c rest =>
      match pending with
      | S k =>
          ((if copy then String c EmptyString else EmptyString)
             ++ escape_from k copy rest)%string
      | O =>
          if (N_of_ascii c <? 128)%N then (escape_byte c ++ escape_from 0 true rest)%string
          else
            match Utf8.size s with
            | O => ("\ufffd" ++ escape_from 0 true rest)%string
            | S k =>
                match escape_separator s with
                | Some text => (text ++ escape_from k false rest)%string
                | None => String c (escape_from k true rest)
                end
            end
      end
  end.

Definition escape (s : string) : string := escape_from 0 true s.

Definition quote (s : string) : string :=
  String dquote (escape s ++ String dquote EmptyString)%string.

Fixpoint render (v : value) : string :=
  match v with
  | Null => "null"
  | Bool true => "true"
  | Bool false => "false"
  | Number lit => lit
  | Str s => quote s
  | Array items =>
      let fix go (first : bool) (l : list value) : string :=
        match l with
        | [] => EmptyString
        | x :: rest =>
            ((if first then EmptyString else ",") ++ render x ++ go false rest)%string
        end in
      ("[" ++ go true items ++ "]")%string
  | Object members =>
      let fix go (first : bool) (l : list (string * value)) : string :=
        match l with
        | [] => EmptyString
        | (k, x) :: rest =>
            ((if first then EmptyString else ",") ++ quote k ++ ":" ++ render x
               ++ go false rest)%string
        end in
      ("{" ++ go true members ++ "}")%string
  end.

(** *** Field names: [encoding/json] matches an object key with a struct
    field by its exact name first and then under Unicode's simple case
    folding, which beside the two cases of a letter takes U+017F (the long
    s) for an [s] and U+212A (the Kelvin sign) for a [k]. *)

Definition lower (c : ascii) : ascii :=
  let n := N_of_ascii c in
  if ((65 <=? n) && (n <=? 90))%N then ascii_of_N (n + 32) else c.

(** What is left of a key after the encoding of U+017F, or of U+212A, when
    it starts with one and the letter of the field is [s], or [k]. *)
Definition after_folded_letter (f : ascii) (key : string) : option string :=
  match key with
  | String a (String b rest) =>
      if (Ascii.eqb (lower f) "s"%char && (N_of_ascii a =? 197) && (N_of_ascii b =? 191))%N
      then Some rest
      else
        match rest with
        | String c rest' =>
            if (Ascii.eqb (lower f) "k"%char && (N_of_ascii a =? 226)
                && (N_of_ascii b =? 132) && (N_of_ascii c =? 170))%N
            then Some rest'
            else None
        | EmptyString => None
        end
  | _ => None
  end.

(** Whether a key names the field [field], a name in ASCII. *)
Fixpoint equalFold (key field : string) : bool :=
  match field with
  | EmptyString =>
      match key with
      | EmptyString => true
      | String _ _ => false
      end
  | String f field' =>
      match key with
      | EmptyString => false
      | String k key' =>
          if Ascii.eqb (lower k) (lower f) then equalFold key' field'
          else
            match after_folded_letter f key with
            | Some key'' => equalFold key'' field'
            | None => false
            end
      end
  end.

(** *** Strings as the decoder delivers them: a byte that starts no
    well-formed rune becomes U+FFFD.  [keep] counts the bytes that are left
    of a rune that was found well formed. *)

Fixpoint coerce_from (keep : nat) (s : string) : string :=
  match s with
  | EmptyString => EmptyString
  | String c rest =>
      match keep with
      | S k => String c (coerce_from k rest)
      | O =>
          match Utf8.size s with
          | O => (Utf8.replacement ++ coerce_from 0 rest)%string
          | S k => String c (coerce_from k rest)
          end
      end
  end.

Definition coerce (s : string) : string := coerce_from 0 s.

End Json.

(* ================================================================= *)
(** ** The data model: [Config], [MessageContext], [Message],
       [ResponseMessage], [SystemMetrics] *)

(** A value held in an [interface{}]: its dynamic type and its value. *)
Inductive GoAny : Type :=
| AnyInt (n : Z)
| AnyInt64 (n : Z)
| AnyFloat64 (f : float)
| AnyString (s : string)
| AnyBool (b : bool).

Record Config : Type := mkConfig {
  AppURL : string;
  LinuxPath : string;
  SocketPath : string;
  FlushInterval : Z;
  BatchSize : Z;
  ApiKey : string;
  MinBatchSize : Z;
  MaxBatchSize : Z;
  ScaleFactor : float;
  MaxQueueSize : Z;
  TargetCPUPercent : float;
  TargetMemPercent : float;
  MinBatchInterval : Z;
  MaxBatchInterval : Z
}.

(** [Limit] carries the tag [json:"-"]: it is neither written nor read by
    [encoding/json]; [None] is the nil interface. *)
Record MessageContext : Type := mkContext {
  Tags : list string;
  Limit : option GoAny;
  WaitResponse : bool;
  Entity : string
}.

Record Message : Type := mkMessage {
  Data : string;
  Context : MessageContext;
  MsgType : string;
  Destination : string;
  Timestamp : string
}.

(** The field [Message string] of the source is [ResponseText] here: the name
    [Message] is taken by the struct above. *)
Record ResponseMessage : Type := mkResponse {
  Status : string;
  ResponseText : string
}.

Record SystemMetrics : Type := mkMetrics {
  CPUUsage : float;
  MemoryUsage : float;
  QueueLoad : float
}.

(** The zero values [var msg Message] starts from. *)
Definition zeroContext : MessageContext := mkContext [] None false EmptyString.
Definition zeroMessage : Message :=
  mkMessage EmptyString zeroContext EmptyString EmptyString EmptyString.

(* ================================================================= *)
(** ** [encoding/json] on the structs of the data model *)

Module Codec.
Import Json.

(** Encoding.  The encoders give the value with the strings as the struct
    holds them; [Json.render] writes it, with [\ufffd] for a byte that is no
    valid UTF-8, and a decoder that reads it delivers such a byte as U+FFFD
    (see [unmarshalString]).

    [omitempty]: a member is written unless the field is empty. *)
Definition member_unless (empty : bool) (k : string) (v : value)
  : list (string * value) :=
  if empty then [] else [(k, v)].

Definition is_empty_string (s : string) : bool :=
  match s with EmptyString => true | _ => false end.

Definition is_empty_list {A} (l : list A) : bool :=
  match l with [] => true | _ => false end.

Definition marshalContext (c : MessageContext) : value :=
  Object (member_unless (is_empty_list (Tags c)) "tags" (Array (map Str (Tags c)))
          ++ member_unless (negb (WaitResponse c)) "wait" (Bool true)
          ++ member_unless (is_empty_string (Entity c)) "entity" (Str (Entity c))).

(** [omitempty] never drops a struct: ["context"] is always written. *)
Definition marshalMessage (m : Message) : value :=
  Object (member_unless (is_empty_string (Data m)) "data" (Str (Data m))
          ++ [("context", marshalContext (Context m))]
          ++ member_unless (is_empty_string (MsgType m)) "msg_type" (Str (MsgType m))
          ++ member_unless (is_empty_string (Destination m)) "dest" (Str (Destination m))
          ++ member_unless (is_empty_string (Timestamp m)) "timestamp" (Str (Timestamp m))).

Definition marshalMessages (ms : list Message) : value :=
  Array (map marshalMessage ms).

Definition marshalResponse (r : ResponseMessage) : value :=
  Object ([("status", Str (Status r))]
          ++ member_unless (is_empty_string (ResponseText r)) "message"
               (Str (ResponseText r))).

(** Decoding.  A value of the wrong kind makes [Decode] report an
    [UnmarshalTypeError]; the callers in this program drop the whole value
    then, so the decoders return [None] for it.  [null] leaves a string, a
    bool or a struct as it is and resets a slice. *)

Definition unmarshalString (v : value) (old : string) : option string :=
  match v with
  | Str s => Some (coerce s)
  | Null => Some old
  | _ => None
  end.

Definition unmarshalBool (v : value) (old : bool) : option bool :=
  match v with
  | Bool b => Some b
  | Null => Some old
  | _ => None
  end.

(** The elements of an array, decoded into a slice.  [Decode] keeps the
    array of the slice: the element at an index starts from what the array
    holds there, which a [null] leaves as it is, and from the zero value
    behind the array (a grown array is zero where it is new).  [array] is
    that array from the element at hand on. *)
Fixpoint unmarshalElements {A} (elem : value -> A -> option A) (zero : A)
         (items : list value) (array : list A) : option (list A) :=
  match items with
  | [] => Some []
  | x :: rest =>
      match elem x (hd zero array), unmarshalElements elem zero rest (tl array) with
      | Some a, Some l => Some (a :: l)
      | _, _ => None
      end
  end.

(** A slice as the decoder holds it: its elements, and what its array holds
    behind them.  An empty array and [null] give a slice without array. *)
Definition unmarshalSlice {A} (elem : value -> A -> option A) (zero : A)
           (v : value) (old : list A * list A) : option (list A * list A) :=
  match v with
  | Array [] => Some ([], [])
  | Array items =>
      option_map (fun l => (l, skipn (List.length l) (fst old ++ snd old)))
                 (unmarshalElements elem zero items (fst old ++ snd old))
  | Null => Some ([], [])
  | _ => None
  end.

(** A context while it is decoded: the struct, and what the array of its
    [Tags] holds behind them. *)
Definition setContextField (c : MessageContext * list string) (k : string) (v : value)
  : option (MessageContext * list string) :=
  if equalFold k "tags" then
    option_map (fun t => (mkContext (fst t) (Limit (fst c)) (WaitResponse (fst c))
                                    (Entity (fst c)), snd t))
               (unmarshalSlice unmarshalString EmptyString v (Tags (fst c), snd c))
  else if equalFold k "wait" then
    option_map (fun w => (mkContext (Tags (fst c)) (Limit (fst c)) w (Entity (fst c)), snd c))
               (unmarshalBool v (WaitResponse (fst c)))
  else if equalFold k "entity" then
    option_map (fun e => (mkContext (Tags (fst c)) (Limit (fst c)) (WaitResponse (fst c)) e,
                          snd c))
               (unmarshalString v (Entity (fst c)))
  else Some c.

(** The members of an object, in the order of the text: a later member
    for the same field is decoded into what the earlier one left. *)
Fixpoint unmarshalMembers {A} (set : A -> string -> value -> option A)
         (ms : list (string * value)) (acc : A) : option A :=
  match ms with
  | [] => Some acc
  | (k, v) :: rest =>
      match set acc k v with
      | Some acc' => unmarshalMembers set rest acc'
      | None => None
      end
  end.

Definition unmarshalContext (v : value) (old : MessageContext * list string)
  : option (MessageContext * list string) :=
  match v with
  | Object ms => unmarshalMembers setContextField ms old
  | Null => Some old
  | _ => None
  end.

(** A message while it is decoded: the struct, and what the array of its
    tags holds behind them. *)
Definition setMessageField (m : Message * list string) (k : string) (v : value)
  : option (Message * list string) :=
  let msg := fst m in
  if equalFold k "data" then
    option_map (fun d => (mkMessage d (Context msg) (MsgType msg) (Destination msg)
                                    (Timestamp msg), snd m))
               (unmarshalString v (Data msg))
  else if equalFold k "context" then
    option_map (fun c => (mkMessage (Data msg) (fst c) (MsgType msg) (Destination msg)
                                    (Timestamp msg), snd c))
               (unmarshalContext v (Context msg, snd m))
  else if equalFold k "msg_type" then
    option_map (fun t => (mkMessage (Data msg) (Context msg) t (Destination msg)
                                    (Timestamp msg), snd m))
               (unmarshalString v (MsgType msg))
  else if equalFold k "dest" then
    option_map (fun d => (mkMessage (Data msg) (Context msg) (MsgType msg) d
                                    (Timestamp msg), snd m))
               (unmarshalString v (Destination msg))
  else if equalFold k "timestamp" then
    option_map (fun t => (mkMessage (Data msg) (Context msg) (MsgType msg)
                                    (Destination msg) t, snd m))
               (unmarshalString v (Timestamp msg))
  else Some m.

(** [json.Unmarshal] of a value into a [Message] that holds [old]. *)
Definition unmarshalInto (v : value) (old : Message * list string)
  : option (Message * list string) :=
  match v with
  | Object ms => unmarshalMembers setMessageField ms old
  | Null => Some old
  | _ => None
  end.

(** [var msg Message; Decode(&msg)]. *)
Definition unmarshalMessage (v : value) : option Message :=
  option_map fst (unmarshalInto v (zeroMessage, [])).

(** An array of messages, decoded into a slice that is nil. *)
Definition unmarshalMessageList (items : list value) : option (list Message) :=
  option_map (map fst) (unmarshalElements unmarshalInto (zeroMessage, []) items []).

(** The anonymous [struct { Messages []Message `json:"messages"` }] of
    [checkMessage], while it is decoded. *)
Definition setMessagesField
           (old : list (Message * list string) * list (Message * list string))
           (k : string) (v : value)
  : option (list (Message * list string) * list (Message * list string)) :=
  if equalFold k "messages" then unmarshalSlice unmarshalInto (zeroMessage, []) v old
  else Some old.

Definition unmarshalCheckResponse (v : value) : option (list Message) :=
  match v with
  | Object ms =>
      option_map (fun r => map fst (fst r)) (unmarshalMembers setMessagesField ms ([], []))
  | Null => Some []
  | _ => None
  end.

End Codec.

(* ================================================================= *)
(** ** The parts of the Go language and library the code relies on *)

Module Go.

(** The architectures whose float-to-integer conversion is written out. *)
Inductive Arch : Type := amd64 | arm64.

Definition int_min : Z := - 2 ^ 63.
Definition int_max : Z := 2 ^ 63 - 1.

(** [float64(n)] for an [int]: the nearest binary64, ties to even. *)
Definition of_int (n : Z) : float :=
  SF2Prim (binary_normalize prec emax n 0 false).

(** The integer part of a finite float, toward zero. *)
Definition truncate (x : spec_float) : option Z :=
  match x with
  | S754_zero _ => Some 0
  | S754_finite s m e =>
      let a := if 0 <=? e then Z.pos m * 2 ^ e else Z.pos m / 2 ^ (- e) in
      Some (if s then - a else a)
  | S754_infinity _ | S754_nan => None
  end.

(** What the conversion instruction leaves when the value does not fit:
    CVTTSD2SQ gives the "integer indefinite" value, FCVTZS saturates and
    maps NaN to 0.  (The language leaves the result to the implementation.) *)
Definition unrepresentable (arch : Arch) (x : spec_float) : Z :=
  match arch with
  | amd64 => int_min
  | arm64 =>
      match x with
      | S754_nan => 0
      | S754_infinity true | S754_finite true _ _ => int_min
      | _ => int_max
      end
  end.

(** [int(f)] and [time.Duration(f)] for a [float64]. *)
Definition float_to_int (arch : Arch) (f : float) : Z :=
  let x := Prim2SF f in
  match truncate x with
  | Some z =>
      if (int_min <=? z) && (z <=? int_max) then z else unrepresentable arch x
  | None => unrepresentable arch x
  end.

(** [math.Max] and [math.Min], with their special cases. *)
Definition Max (x y : float) : float :=
  if (x =? infinity)%float || (y =? infinity)%float then infinity
  else if is_nan x || is_nan y then nan
  else if (x =? 0)%float && (x =? y)%float then
         (if get_sign x then y else x)
  else if (y <? x)%float then x else y.

Definition Min (x y : float) : float :=
  if (x =? neg_infinity)%float || (y =? neg_infinity)%float then neg_infinity
  else if is_nan x || is_nan y then nan
  else if (x =? 0)%float && (x =? y)%float then
         (if get_sign x then x else y)
  else if (x <? y)%float then x else y.

(** The verb [%d] of [fmt]. *)
Definition decimal (n : Z) : string := NilZero.string_of_int (Z.to_int n).

(** [len] of a slice or of a channel's buffer. *)
Definition len {A} (l : list A) : Z := Z.of_nat (List.length l).

(** The largest allocation of the runtime on the 64-bit hosts, and the
    size of the header of a channel (with the toolchain of [go.mod],
    go1.23). *)
Definition maxAlloc : Z := 2 ^ 48.
Definition hchanSize : Z := 104.

(** [make([]T, 0, n)] and [make(chan T, n)] for a [T] of [size] bytes:
    whether they panic ([makeslice: cap out of range],
    [makechan: size out of range]). *)
Definition makeslice_panics (size n : Z) : bool :=
  (n <? 0) || (maxAlloc <? size * n).

Definition makechan_panics (size n : Z) : bool :=
  (n <? 0) || (maxAlloc - hchanSize <? size * n).

End Go.

(* ================================================================= *)
(** ** The batch controller *)

(** The float constants of the source, written exactly. *)
Definition c0_4 : float := 0x1.999999999999ap-2%float.
Definition c0_2 : float := 0x1.999999999999ap-3%float.

(** What the two probes of [getSystemMetrics] return: [cpu.Percent] over
    100ms and [mem.VirtualMemory]; [None] is an error (or an empty sample).
    [cpu.Percent] blocks for its 100ms and [len(messageQueue)] is read after
    it: [during] are the messages whose send on the queue completes in
    between. *)
Record Probe : Type := mkProbe {
  cpuPercent : option float;
  usedPercent : option float;
  during : list Message
}.

Definition getSystemMetrics (config : Config) (probe : Probe) (queueLen : Z)
  : SystemMetrics :=
  mkMetrics
    (match cpuPercent probe with Some c => c | None => 0%float end)
    (match usedPercent probe with Some u => u | None => 0%float end)
    (Go.of_int queueLen / Go.of_int (MaxQueueSize config) * 100)%float.

Definition calculateDynamicBatchSize (arch : Go.Arch) (config : Config)
           (metrics : SystemMetrics) : Z :=
  let cpuFactor := Go.Max 0 (1 - CPUUsage metrics / TargetCPUPercent config)%float in
  let memFactor := Go.Max 0 (1 - MemoryUsage metrics / TargetMemPercent config)%float in
  let queueFactor := Go.Min 1 (QueueLoad metrics / 50)%float in
  let resourceFactor := (cpuFactor * c0_4 + memFactor * c0_4 + queueFactor * c0_2)%float in
  let newBatchSize :=
    Go.float_to_int arch (Go.of_int (MaxBatchSize config) * resourceFactor)%float in
  if newBatchSize <? MinBatchSize config then MinBatchSize config
  else if MaxBatchSize config <? newBatchSize then MaxBatchSize config
  else newBatchSize.

(** The ticker period [ProcessQueue] computes after each received message
    (the lines from [interval := time.Duration(...)] to the [Reset]). *)
Definition flushInterval (arch : Go.Arch) (config : Config)
           (metrics : SystemMetrics) : Z :=
  let interval :=
    Go.float_to_int arch
      (Go.of_int (MaxBatchInterval config) * (1 - QueueLoad metrics / 100))%float in
  if interval <? MinBatchInterval config then MinBatchInterval config
  else interval.

(** The configuration [InitializeConfig] builds when only [-apiKey] is given
    (on a Unix host). *)
Definition defaultConfig (key : string) : Config :=
  {| AppURL := "https://app.tendrl.com/api";
     LinuxPath := "/var/lib/tendrl";
     SocketPath := "/var/lib/tendrl/tendrl_agent.sock";
     FlushInterval := 250000000;
     BatchSize := 10;
     ApiKey := key;
     MinBatchSize := 10;
     MaxBatchSize := 200;
     ScaleFactor := 0.5%float;
     MaxQueueSize := 1000;
     TargetCPUPercent := 70%float;
     TargetMemPercent := 80%float;
     MinBatchInterval := 100000000;
     MaxBatchInterval := 1000000000 |}.

(* ================================================================= *)
(** ** The upstream HTTP API, as the agent sees it *)

Record HttpRequest : Type := mkRequest {
  Method : string;
  URL : string;
  Authorization : string;
  ContentType : string;
  Payload : option Json.value
}.

(** The first JSON value of a response body, or the text of the decoder's
    error when the body does not start with one. *)
Inductive HttpBody : Type :=
| BodyJson (v : Json.value)
| BodyMalformed (err : string).

(** What [client.Do] returns: an error, or a response. *)
Inductive HttpOutcome : Type :=
| TransportError (err : string)
| Response (StatusCode : Z) (body : HttpBody).

(** The upstream answers a request knowing the requests made so far. *)
Definition Upstream : Type := list HttpRequest -> HttpRequest -> HttpOutcome.

Definition client_Do (up : Upstream) (log : list HttpRequest) (req : HttpRequest)
  : HttpOutcome * list HttpRequest :=
  (up log req, log ++ [req]).

(** The request [FlushBatch] builds.  [http.NewRequest] fails on a malformed
    URL only, and [json.Marshal] of messages cannot fail; both error branches
    of the source are dead for the [AppURL] that [InitializeConfig] sets. *)
Definition batchRequest (config : Config) (batch : list Message) : HttpRequest :=
  mkRequest "POST" (AppURL config ++ "/messages")%string
            ("Bearer " ++ ApiKey config)%string "application/json"
            (Some (Codec.marshalMessages batch)).

(** [FlushBatch]: one POST of the batch; the answer is only printed. *)
Definition FlushBatch (config : Config) (up : Upstream)
           (log : list HttpRequest) (batch : list Message) : list HttpRequest :=
  snd (client_Do up log (batchRequest config batch)).

Definition singleRequest (config : Config) (msg : Message) : HttpRequest :=
  mkRequest "POST" (AppURL config ++ "/entities/message")%string
            ("Bearer " ++ ApiKey config)%string "application/json"
            (Some (Codec.marshalMessage msg)).

Definition checkRequest (config : Config) (limit : Z) : HttpRequest :=
  mkRequest "GET"
            (AppURL config ++ "/entities/check_messages?limit=" ++ Go.decimal limit)%string
            ("Bearer " ++ ApiKey config)%string "application/json" None.

Section Agent.

(** Texts that [encoding/json] produces and this development does not
    spell out: the message of the type error it reports for a value, and
    the bytes [json.Marshal] writes for the [interface{}] that [Decode]
    builds from a value. *)
Variable typeErrorText : Json.value -> string.
Variable marshalAny : Json.value -> string.

Variable arch : Go.Arch.
Variable config : Config.
Variable up : Upstream.

(** [checkMessage]: the messages, or the text of the error. *)
Definition checkMessage (log : list HttpRequest) (limit : Z)
  : (list Message + string) * list HttpRequest :=
  let (outcome, log') := client_Do up log (checkRequest config limit) in
  match outcome with
  | TransportError err => (inr err, log')
  | Response code body =>
      if code =? 204 then (inl [], log')
      else if negb (code =? 200) then
        (inr ("unexpected status code: " ++ Go.decimal code)%string, log')
      else
        match body with
        | BodyMalformed err => (inr err, log')
        | BodyJson v =>
            match Codec.unmarshalCheckResponse v with
            | Some messages => (inl messages, log')
            | None => (inr (typeErrorText v), log')
            end
        end
  end.

(** [sendSingleMessage] followed by the [json.Marshal] of its result: the
    bytes [ProcessMessage] writes for a synchronous publish. *)
Definition sendSingleMessage (log : list HttpRequest) (msg : Message)
  : string * list HttpRequest :=
  let (outcome, log') := client_Do up log (singleRequest config msg) in
  match outcome with
  | TransportError err =>
      (Json.render (Json.Object [("error", Json.Str err)]), log')
  | Response _ (BodyJson v) => (marshalAny v, log')
  | Response _ (BodyMalformed _) => ("null", log')
  end.

(* --------------------------------------------------------------- *)
(** *** The connection handler *)

(** What one connection handler has done so far: the byte strings of its
    [conn.Write] calls, the messages it has sent on [messageQueue] (a send
    that finds the buffer full waits for the worker; the buffer itself is
    in [WorkerState]), the requests made upstream, and whether it has
    returned (and so closed the connection). *)
Record HandlerState : Type := mkHandler {
  written : list string;
  enqueued : list Message;
  requests : list HttpRequest;
  connClosed : bool
}.

Definition newHandler (log : list HttpRequest) : HandlerState :=
  mkHandler [] [] log false.

Definition connWrite (st : HandlerState) (bytes : string) : HandlerState :=
  mkHandler (written st ++ [bytes]) (enqueued st) (requests st) (connClosed st).

Definition sendErrorResponse (st : HandlerState) (errorMsg : string)
  : HandlerState :=
  connWrite st (Json.render (Codec.marshalResponse (mkResponse "error" errorMsg))).

Definition ValidateClientContext (ctx : MessageContext) : option string :=
  if 10 <? Go.len (Tags ctx)
  then Some "too many tags provided; maximum is 10"
  else None.

Definition ProcessMessage (st : HandlerState) (msg : Message) : HandlerState :=
  if String.eqb (MsgType msg) "msg_check" then
    match
      match Limit (Context msg) with
      | None => Some 1
      | Some (AnyInt n) => Some n
      | Some _ => None
      end
    with
    | None => sendErrorResponse st "Invalid limit type"
    | Some limit =>
        let (result, log') := checkMessage (requests st) limit in
        let st' := mkHandler (written st) (enqueued st) log' (connClosed st) in
        match result with
        | inr err => sendErrorResponse st' err
        | inl messages =>
            if Go.len messages =? 0 then connWrite st' "204"
            else connWrite st' (Json.render (Codec.marshalMessages messages))
        end
    end
  else if String.eqb (MsgType msg) "publish" then
    if WaitResponse (Context msg) then
      let (response, log') := sendSingleMessage (requests st) msg in
      connWrite (mkHandler (written st) (enqueued st) log' (connClosed st)) response
    else
      mkHandler (written st) (enqueued st ++ [msg]) (requests st) (connClosed st)
  else sendErrorResponse st "Unknown message type".

(** What [decoder.Decode(&msg)] finds next on the connection: the end of
    the stream, a text that is no JSON value (or a read that fails), or a
    value. *)
Inductive Decoded : Type :=
| DecodeEOF
| DecodeSyntaxError (err : string)
| DecodeValue (v : Json.value).

(** The loop of [HandleConnection] over what the decoder finds; the list
    ends where the client has sent nothing more yet.  A [json.Decoder] keeps
    a syntax error (and a failed read): every later [Decode] returns it
    again without reading on, so the loop prints it over and over; it
    handles nothing that follows and never returns.  A type error is not
    kept. *)
Fixpoint HandleConnection (input : list Decoded) (st : HandlerState)
  : HandlerState :=
  match input with
  | [] => st
  | DecodeEOF :: _ =>
      mkHandler (written st) (enqueued st) (requests st) true
  | DecodeSyntaxError _ :: _ => st
  | DecodeValue v :: rest =>
      match Codec.unmarshalMessage v with
      | None => HandleConnection rest st
      | Some msg =>
          match ValidateClientContext (Context msg) with
          | Some err => HandleConnection rest (sendErrorResponse st err)
          | None => HandleConnection rest (ProcessMessage st msg)
          end
      end
  end.

(* --------------------------------------------------------------- *)
(** *** The egress worker *)

(** [ProcessQueue]'s locals and the channel it reads: the batch, the
    buffer of [messageQueue] and whether it is closed, the period of the
    ticker ([None] once stopped), the requests made upstream, and whether
    the function has returned. *)
Record WorkerState : Type := mkWorker {
  batch : list Message;
  queue : list Message;
  queueClosed : bool;
  ticker : option Z;
  posted : list HttpRequest;
  returned : bool
}.

(** The cases of the [select], and the send of a handler that completes. *)
Inductive Event : Type :=
| Offer (msg : Message)
| Handoff (msg : Message) (probe : Probe)
| Receive (probe : Probe)
| Tick
| Done.

(** The size of a [Message] on the 64-bit hosts: four strings of 16 bytes,
    and in the context a slice of 24, an interface of 16, a bool padded to 8
    and a string of 16. *)
Definition sizeofMessage : Z := 128.

(** [make] of the queue (in [main]) and of the batch, and [time.NewTicker]:
    they panic on a size that is negative or beyond what the runtime can
    allocate, and on a period that is not positive.  (A size within these
    limits for which the host has no memory ends the process as well; the
    memory is taken to be there.) *)
Definition startWorker (log : list HttpRequest) : option WorkerState :=
  if Go.makechan_panics sizeofMessage (MaxQueueSize config)
     || Go.makeslice_panics sizeofMessage (MaxBatchSize config)
     || (MinBatchInterval config <=? 0)
  then None
  else Some (mkWorker [] [] false (Some (MinBatchInterval config)) log false).

(** The body of [case msg := <-messageQueue], once [msg] is taken; [rest]
    is what the buffer holds when [getSystemMetrics] reads its length. *)
Definition onMessage (st : WorkerState) (msg : Message) (rest : list Message)
           (probe : Probe) : WorkerState :=
  let batch' := batch st ++ [msg] in
  let metrics := getSystemMetrics config probe (Go.len rest) in
  let dynamicBatchSize := calculateDynamicBatchSize arch config metrics in
  let interval := flushInterval arch config metrics in
  if dynamicBatchSize <=? Go.len batch' then
    mkWorker [] rest (queueClosed st) (Some interval)
             (FlushBatch config up (posted st) batch') (returned st)
  else
    mkWorker batch' rest (queueClosed st) (Some interval) (posted st) (returned st).

Definition onTick (st : WorkerState) : WorkerState :=
  if 0 <? Go.len (batch st) then
    mkWorker [] (queue st) (queueClosed st) (ticker st)
             (FlushBatch config up (posted st) (batch st)) (returned st)
  else st.

Definition onDone (st : WorkerState) : WorkerState :=
  let batch' := batch st ++ queue st in
  mkWorker batch' [] true None
           (if 0 <? Go.len batch' then FlushBatch config up (posted st) batch'
            else posted st)
           true.

(** One event; [None] when it cannot happen in this state: a send needs
    room in the buffer and an open channel (a handoff, a channel without
    buffer), a receive needs a message, the sends that complete while the
    metrics are taken need room as well (and a buffer), and nothing happens
    in the worker once it has returned. *)
Definition step (st : WorkerState) (ev : Event) : option WorkerState :=
  if returned st then None
  else
    match ev with
    | Offer msg =>
        if queueClosed st then None
        else if Go.len (queue st) <? MaxQueueSize config then
          Some (mkWorker (batch st) (queue st ++ [msg]) (queueClosed st)
                         (ticker st) (posted st) (returned st))
        else None
    | Handoff msg probe =>
        if queueClosed st then None
        else if (MaxQueueSize config =? 0) && (Go.len (queue st) =? 0)
                && Codec.is_empty_list (during probe) then
          Some (onMessage st msg [] probe)
        else None
    | Receive probe =>
        match queue st with
        | [] => None
        | msg :: rest =>
            if queueClosed st && negb (Codec.is_empty_list (during probe)) then None
            else if Go.len (rest ++ during probe) <=? MaxQueueSize config then
              Some (onMessage st msg (rest ++ during probe) probe)
            else None
        end
    | Tick => Some (onTick st)
    | Done => Some (onDone st)
    end.

Fixpoint run (st : WorkerState) (evs : list Event) : option WorkerState :=
  match evs with
  | [] => Some st
  | ev :: rest =>
      match step st ev with
      | Some st' => run st' rest
      | None => None
      end
  end.

(** The messages whose send on [messageQueue] completed. *)
Fixpoint offered (evs : list Event) : list Message :=
  match evs with
  | [] => []
  | Offer msg :: rest => msg :: offered rest
  | Handoff msg _ :: rest => msg :: offered rest
  | Receive probe :: rest => during probe ++ offered rest
  | _ :: rest => offered rest
  end.

(* --------------------------------------------------------------- *)
(** *** The process: [main], the signal and the worker *)

(** How the process has ended: [main] has returned, or a goroutine has
    panicked. *)
Inductive Ending : Type :=
| Exited
| Panicked.

(** The worker, whether [done] is closed, and the end of the process once
    it has come. *)
Record ProcessState : Type := mkProcess {
  worker : WorkerState;
  doneClosed : bool;
  ending : option Ending
}.

(** What happens in the process.  [Work]: a send of a handler, or a receive
    or a tick of the worker.  [Signal]: the goroutine that waits for SIGINT
    or SIGTERM gets the signal, closes [done] and closes the listener.
    [Shutdown]: the worker takes [case <-done], closes the queue and drains
    it into its batch.  [LastFlush]: the worker goes on in that case; it
    posts the batch if it is not empty, stops the ticker and returns.
    [MainReturns]: [Accept] fails on the closed listener, [main] finds
    [done] closed and returns, which ends the process with all its
    goroutines; no statement of [main] waits for [ProcessQueue]. *)
Inductive ProcessEvent : Type :=
| Work (ev : Event)
| Signal
| Shutdown
| LastFlush
| MainReturns.

(** [go ProcessQueue()] in [main]. *)
Definition startProcess (log : list HttpRequest) : option ProcessState :=
  option_map (fun w => mkProcess w false None) (startWorker log).

(** The first half of [case <-done]: [close(messageQueue)] and the loop
    over what the queue holds. *)
Definition shutdownDrain (st : WorkerState) : WorkerState :=
  mkWorker (batch st ++ queue st) [] true (ticker st) (posted st) (returned st).

(** One event of the process; [None] when it cannot happen.  Nothing
    happens once the process has ended.  The signal is waited for once;
    [main] returns, and the worker takes its shutdown case, only when
    [done] is closed.  Once the worker has closed the queue it is in its
    shutdown case or has returned: it receives nothing and takes no tick any
    more, and a send of a handler panics, which ends the process. *)
Definition processStep (p : ProcessState) (e : ProcessEvent) : option ProcessState :=
  match ending p with
  | Some _ => None
  | None =>
      match e with
      | Signal =>
          if doneClosed p then None else Some (mkProcess (worker p) true None)
      | MainReturns =>
          if doneClosed p then Some (mkProcess (worker p) true (Some Exited)) else None
      | Shutdown =>
          if doneClosed p && negb (queueClosed (worker p)) && negb (returned (worker p))
          then Some (mkProcess (shutdownDrain (worker p)) true None)
          else None
      | LastFlush =>
          if queueClosed (worker p)
          then option_map (fun w => mkProcess w (doneClosed p) None) (step (worker p) Done)
          else None
      | Work Done => None
      | Work ev =>
          if queueClosed (worker p) then
            match ev with
            | Offer _ | Handoff _ _ =>
                Some (mkProcess (worker p) (doneClosed p) (Some Panicked))
            | _ => None
            end
          else option_map (fun w => mkProcess w (doneClosed p) None) (step (worker p) ev)
      end
  end.

Fixpoint runProcess (p : ProcessState) (evs : list ProcessEvent) : option ProcessState :=
  match evs with
  | [] => Some p
  | e :: rest =>
      match processStep p e with
      | Some p' => runProcess p' rest
      | None => None
      end
  end.

(** The events of [Work] among those of the process. *)
Fixpoint workerEvents (evs : list ProcessEvent) : list Event :=
  match evs with
  | [] => []
  | Work ev :: rest => ev :: workerEvents rest
  | _ :: rest => workerEvents rest
  end.

End Agent.

(* ================================================================= *)
(** ** Sizes for display: [Convert] *)

(** The table of [Convert]: the factor of each unit and its suffix. *)
Definition units : list (Z * string) :=
  [(2 ^ 30, "GB"); (2 ^ 20, "MB"); (2 ^ 10, "KB"); (1, "bytes")].

(** The loop of [Convert] over the units that are left, and its last
    [return].  [float64] of a [uint64] is the nearest binary64, as for an
    [int]. *)
Fixpoint convertWith (us : list (Z * string)) (num : Z) : float * string :=
  match us with
  | [] => (Go.of_int num, "bytes")
  | (Factor, Suffix) :: rest =>
      if Factor <=? num then ((Go.of_int num / Go.of_int Factor)%float, Suffix)
      else convertWith rest num
  end.

Definition Convert (num : Z) : float * string := convertWith units num.

(* ================================================================= *)
(** ** The command line: [InitializeConfig] *)

(** The flags as [flag.Parse] leaves them: the value given for each flag,
    [None] for a flag that is not on the command line.  (A command line that
    [flag.Parse] does not accept ends the process inside the [flag] package.)
    Durations are in nanoseconds. *)
Module Flags.

Record CommandLine : Type := mkCommandLine {
  apiKey : option string;
  flushInterval : option Z;
  batchSize : option Z;
  minBatchSize : option Z;
  maxBatchSize : option Z;
  scaleFactor : option float;
  maxQueue : option Z;
  targetCPU : option float;
  targetMem : option float;
  minInterval : option Z;
  maxInterval : option Z
}.

(** The value of a flag: the one given, or its default. *)
Definition value {A} (given : option A) (default : A) : A :=
  match given with
  | Some v => v
  | None => default
  end.

End Flags.

(** [InitializeConfig], from [runtime.GOOS], [os.Getenv] and the command
    line; [None] is [os.Exit(1)].  What it prints is left out. *)
Definition InitializeConfig (GOOS : string) (Getenv : string -> string)
           (args : Flags.CommandLine) : option Config :=
  let key := Flags.value (Flags.apiKey args) EmptyString in
  let key := if Codec.is_empty_string key then Getenv "TENDRL_KEY" else key in
  if Codec.is_empty_string key then None
  else
    let path :=
      if String.eqb GOOS "windows" then "C:\ProgramData\tendrl" else "/var/lib/tendrl" in
    let socket :=
      if String.eqb GOOS "windows" then (path ++ "\tendrl_agent.sock")%string
      else (path ++ "/tendrl_agent.sock")%string in
    Some {| AppURL := "https://app.tendrl.com/api";
            LinuxPath := path;
            SocketPath := socket;
            FlushInterval := Flags.value (Flags.flushInterval args) 250000000;
            BatchSize := Flags.value (Flags.batchSize args) 10;
            ApiKey := key;
            MinBatchSize := Flags.value (Flags.minBatchSize args) 10;
            MaxBatchSize := Flags.value (Flags.maxBatchSize args) 200;
            ScaleFactor := Flags.value (Flags.scaleFactor args) 0.5%float;
            MaxQueueSize := Flags.value (Flags.maxQueue args) 1000;
            TargetCPUPercent := Flags.value (Flags.targetCPU args) 70%float;
            TargetMemPercent := Flags.value (Flags.targetMem args) 80%float;
            MinBatchInterval := Flags.value (Flags.minInterval args) 100000000;
            MaxBatchInterval := Flags.value (Flags.maxInterval args) 1000000000 |}.


(* ================================================================= *)
(** ** Notions the statements below are written with *)

(** The limit [ProcessMessage] polls with, as a function of the field:
    1 when it is nil, its value when it holds an [int], none otherwise. *)
Definition pollLimit (msg : Message) : option Z :=
  match Limit (Context msg) with
  | None => Some 1
  | Some (AnyInt n) => Some n
  | Some _ => None
  end.

(** A [msg_check] object as a client writes it, with [limit] in its context. *)
Definition msgCheckWithLimit (limit : Json.value) : Json.value :=
  Json.Object [("msg_type", Json.Str "msg_check");
               ("context", Json.Object [("limit", limit)])].

(** A [dest_publish] object as a client writes it. *)
Definition destPublishObject : Json.value :=
  Json.Object [("msg_type", Json.Str "dest_publish");
               ("data", Json.Str "hello");
               ("dest", Json.Str "line-7");
               ("context", Json.Object [("tags", Json.Array [Json.Str "t"])])].

(** A text between double quotes, with nothing escaped. *)
Definition quoted (s : string) : string :=
  (String Json.dquote s ++ String Json.dquote EmptyString)%string.

(** The bytes of an error envelope whose message needs no escaping. *)
Definition errorEnvelope (text : string) : string :=
  ("{" ++ quoted "status" ++ ":" ++ quoted "error" ++ ","
       ++ quoted "message" ++ ":" ++ quoted text ++ "}")%string.

(** The message [m] without its limit. *)
Definition withoutLimit (m : Message) : Message :=
  mkMessage (Data m)
            (mkContext (Tags (Context m)) None (WaitResponse (Context m))
                       (Entity (Context m)))
            (MsgType m) (Destination m) (Timestamp m).

(** The message [m] with its strings as the decoder delivers them. *)
Definition coerced (m : Message) : Message :=
  mkMessage (Json.coerce (Data m))
            (mkContext (map Json.coerce (Tags (Context m))) (Limit (Context m))
                       (WaitResponse (Context m)) (Json.coerce (Entity (Context m))))
            (Json.coerce (MsgType m)) (Json.coerce (Destination m))
            (Json.coerce (Timestamp m)).

(** Whether the strings of a message are valid UTF-8. *)
Definition validMessage (m : Message) : bool :=
  Utf8.ValidString (Data m)
  && forallb Utf8.ValidString (Tags (Context m))
  && Utf8.ValidString (Entity (Context m))
  && Utf8.ValidString (MsgType m)
  && Utf8.ValidString (Destination m)
  && Utf8.ValidString (Timestamp m).

(** The messages the worker still holds: its batch and the buffer of the
    queue, until it returns. *)
Definition pending (st : WorkerState) : list Message :=
  if returned st then [] else batch st ++ queue st.

(** Every message sent so far is in exactly one posted batch or still
    pending, in the order of the sends; no empty batch is posted.  [log0]
    holds the requests made before the worker started. *)
Definition accounted (config : Config) (log0 : list HttpRequest)
           (st : WorkerState) (sent : list Message) : Prop :=
  exists batches,
    posted st = log0 ++ map (batchRequest config) batches
    /\ Forall (fun b => b <> []) batches
    /\ List.concat batches ++ pending st = sent.

(** Two configurations that differ at most in [FlushInterval], [BatchSize]
    and [ScaleFactor]. *)
Definition sameButUnused (c1 c2 : Config) : Prop :=
  AppURL c1 = AppURL c2
  /\ LinuxPath c1 = LinuxPath c2
  /\ SocketPath c1 = SocketPath c2
  /\ ApiKey c1 = ApiKey c2
  /\ MinBatchSize c1 = MinBatchSize c2
  /\ MaxBatchSize c1 = MaxBatchSize c2
  /\ MaxQueueSize c1 = MaxQueueSize c2
  /\ TargetCPUPercent c1 = TargetCPUPercent c2
  /\ TargetMemPercent c1 = TargetMemPercent c2
  /\ MinBatchInterval c1 = MinBatchInterval c2
  /\ MaxBatchInterval c1 = MaxBatchInterval c2.

(** The configuration with its three unused options set to zero. *)
Definition usedOptions (c : Config) : Config :=
  mkConfig (AppURL c) (LinuxPath c) (SocketPath c) 0 0 (ApiKey c)
           (MinBatchSize c) (MaxBatchSize c) 0%float (MaxQueueSize c)
           (TargetCPUPercent c) (TargetMemPercent c)
           (MinBatchInterval c) (MaxBatchInterval c).

(** The value of [1*0.4 + 1*0.4 + 0*0.2] in binary64. *)
Definition c0_8 : float := 0x1.999999999999ap-1%float.

(** *** Binary64, as [SpecFloat] defines it *)

Module Binary64.

(** The exponent function of the format: 53 bits, exponents from -1074. *)
Definition fexp64 (e : Z) : Z := Z.max (e - 53) (-1074).

(** A record that stands for [m0 / 2 ^ k]: its integer part, and whether
    anything was shifted out. *)
Definition shifted (m0 k : Z) (r : shr_record) : Prop :=
  shr_m r = m0 / 2 ^ k
  /\ (orb (shr_r r) (shr_s r) = false <-> m0 mod 2 ^ k = 0).

(** The float that a rounded mantissa [m] at the exponent [e] becomes. *)
Definition packed (s : bool) (m e : Z) : spec_float :=
  if m =? 0 then S754_zero s
  else if m <? 2 ^ 53 then
         (if e <=? 971 then S754_finite s (Z.to_pos m) e else S754_infinity s)
       else
         (if e + 1 <=? 971 then S754_finite s (Z.to_pos (2 ^ 52)) (e + 1)
          else S754_infinity s).

(** The value [m * 2 ^ e] of a mantissa and an exponent, as an integer:
    the exponents of binary64 products and sums are all above [-2200]. *)
Definition scaled (m e : Z) : Z := m * 2 ^ (e + 2200).

(** A float that is not above zero, or NaN. *)
Definition negative (x : spec_float) : Prop :=
  match x with
  | S754_zero _ => True
  | S754_infinity s => s = true
  | S754_finite s _ _ => s = true
  | S754_nan => True
  end.

(** A float that is not below zero, or NaN. *)
Definition nonneg_or_nan (x : spec_float) : Prop :=
  match x with
  | S754_zero _ | S754_nan => True
  | S754_infinity s | S754_finite s _ _ => s = false
  end.

(** A float that is at most 1, or NaN. *)
Definition at_most_one (x : spec_float) : Prop :=
  match x with
  | S754_finite false m e => scaled (Z.pos m) e <= scaled 1 0
  | S754_infinity false => False
  | _ => True
  end.

End Binary64.

(** *** The handler and the codec, seen from the client *)

(** The messages the loop of [HandleConnection] gets from the decoder: the
    values that decode into a [Message], up to the end of the stream or to
    the first syntax error. *)
Fixpoint decodedMessages (input : list Decoded) : list Message :=
  match input with
  | [] => []
  | DecodeEOF :: _ => []
  | DecodeSyntaxError _ :: _ => []
  | DecodeValue v :: rest =>
      match Codec.unmarshalMessage v with
      | Some msg => msg :: decodedMessages rest
      | None => decodedMessages rest
      end
  end.

(** A publish that passes [ValidateClientContext] and does not ask for the
    response: the only kind of message [ProcessMessage] sends on the queue. *)
Definition fireAndForget (msg : Message) : bool :=
  negb (10 <? Go.len (Tags (Context msg)))
  && String.eqb (MsgType msg) "publish"
  && negb (WaitResponse (Context msg)).

(** The upstream request that a decoded message leads to, if any: a poll
    for one message, or the post of a synchronous publish. *)
Definition requestOf (config : Config) (msg : Message) : list HttpRequest :=
  if 10 <? Go.len (Tags (Context msg)) then []
  else if String.eqb (MsgType msg) "msg_check" then [checkRequest config 1]
  else if String.eqb (MsgType msg) "publish" && WaitResponse (Context msg)
       then [singleRequest config msg]
  else [].

(** What the upstream reads from the body of a request: the messages of a
    JSON array. *)
Definition payloadMessages (r : HttpRequest) : option (list Message) :=
  match Payload r with
  | Some (Json.Array items) => Codec.unmarshalMessageList items
  | _ => None
  end.

(** What a client writes on the connection for a message. *)
Definition clientSends (msg : Message) : Decoded :=
  DecodeValue (Codec.marshalMessage msg).

(** *** Inputs of the examples *)

(** Stand-ins for the two texts of [encoding/json] that [Section Agent]
    leaves open. *)
Definition someTypeErrorText (v : Json.value) : string :=
  ("json: cannot unmarshal " ++ Json.kind v)%string.
Definition someMarshalAny (v : Json.value) : string := Json.render v.

(** An upstream that always gives the same answer. *)
Definition answers (outcome : HttpOutcome) : Upstream := fun _ _ => outcome.

Definition exampleConfig : Config := defaultConfig "key".

(** The default configuration with other values for the three unused
    options. *)
Definition exampleConfigOtherUnused : Config :=
  {| AppURL := "https://app.tendrl.com/api";
     LinuxPath := "/var/lib/tendrl";
     SocketPath := "/var/lib/tendrl/tendrl_agent.sock";
     FlushInterval := 1;
     BatchSize := 99;
     ApiKey := "key";
     MinBatchSize := 10;
     MaxBatchSize := 200;
     ScaleFactor := 2%float;
     MaxQueueSize := 1000;
     TargetCPUPercent := 70%float;
     TargetMemPercent := 80%float;
     MinBatchInterval := 100000000;
     MaxBatchInterval := 1000000000 |}.

(** [-targetCPU=0]. *)
Definition configTargetZero : Config :=
  {| AppURL := "https://app.tendrl.com/api";
     LinuxPath := "/var/lib/tendrl";
     SocketPath := "/var/lib/tendrl/tendrl_agent.sock";
     FlushInterval := 250000000;
     BatchSize := 10;
     ApiKey := "key";
     MinBatchSize := 10;
     MaxBatchSize := 200;
     ScaleFactor := 0.5%float;
     MaxQueueSize := 1000;
     TargetCPUPercent := 0%float;
     TargetMemPercent := 80%float;
     MinBatchInterval := 100000000;
     MaxBatchInterval := 1000000000 |}.

(** [-maxBatchSize=2814749767106561], which is [5 * 2^49 + 1]. *)
Definition configHugeBatch : Config :=
  {| AppURL := "https://app.tendrl.com/api";
     LinuxPath := "/var/lib/tendrl";
     SocketPath := "/var/lib/tendrl/tendrl_agent.sock";
     FlushInterval := 250000000;
     BatchSize := 10;
     ApiKey := "key";
     MinBatchSize := 10;
     MaxBatchSize := 2814749767106561;
     ScaleFactor := 0.5%float;
     MaxQueueSize := 1000;
     TargetCPUPercent := 70%float;
     TargetMemPercent := 80%float;
     MinBatchInterval := 100000000;
     MaxBatchInterval := 1000000000 |}.

(** [-maxInterval=9007199254740995ns], which is [2^53 + 3] nanoseconds. *)
Definition configLongInterval : Config :=
  {| AppURL := "https://app.tendrl.com/api";
     LinuxPath := "/var/lib/tendrl";
     SocketPath := "/var/lib/tendrl/tendrl_agent.sock";
     FlushInterval := 250000000;
     BatchSize := 10;
     ApiKey := "key";
     MinBatchSize := 10;
     MaxBatchSize := 200;
     ScaleFactor := 0.5%float;
     MaxQueueSize := 1000;
     TargetCPUPercent := 70%float;
     TargetMemPercent := 80%float;
     MinBatchInterval := 100000000;
     MaxBatchInterval := 9007199254740995 |}.

Definition publishOf (data : string) : Message :=
  mkMessage data zeroContext "publish" EmptyString EmptyString.

(** The byte [0xff], which is no valid UTF-8. *)
Definition invalidByte : string := String (ascii_of_N 255) EmptyString.

(** A poll request as [ProcessMessage] takes it, with the limit left out,
    and one whose limit is the [int] 5. *)
Definition msgCheck : Message :=
  mkMessage EmptyString zeroContext "msg_check" EmptyString EmptyString.

Definition msgCheckLimit5 : Message :=
  mkMessage EmptyString (mkContext [] (Some (AnyInt 5)) false EmptyString)
            "msg_check" EmptyString EmptyString.

(** A publish with eleven tags, as a client writes it. *)
Definition elevenTags : list string :=
  ["t1"; "t2"; "t3"; "t4"; "t5"; "t6"; "t7"; "t8"; "t9"; "t10"; "t11"].

Definition publishElevenTags : Json.value :=
  Json.Object [("msg_type", Json.Str "publish");
               ("data", Json.Str "x");
               ("context", Json.Object [("tags", Json.Array (map Json.Str elevenTags))])].

(** A probe that finds the host idle, and one that finds it loaded. *)
Definition idleProbe : Probe := mkProbe (Some 0%float) (Some 0%float) [].
Definition busyProbe : Probe := mkProbe (Some 35%float) (Some 90%float) [].

(** Three sends, one receive, a tick and one more send. *)
Definition exampleEvents : list Event :=
  [Offer (publishOf "a"); Offer (publishOf "b"); Receive busyProbe; Tick;
   Offer (publishOf "c")].

(** *** More inputs of the examples *)

(** An upstream that accepts everything. *)
Definition accepting : Upstream := answers (Response 201 (BodyJson Json.Null)).

(** The events of [exampleEvents] in the process, and then the signal. *)
Definition shutdownEvents : list ProcessEvent :=
  map Work exampleEvents ++ [Signal].

(** A publish whose data is an object, not a string. *)
Definition reading : Json.value := Json.Object [("temp", Json.Number "21")].

(** Two objects with eleven tags that do not decode into a [Message]: one
    whose data is an object, and one whose last tag is a number. *)
Definition elevenTagsAndReading : Json.value :=
  Json.Object [("msg_type", Json.Str "publish");
               ("data", reading);
               ("context", Json.Object [("tags", Json.Array (map Json.Str elevenTags))])].

Definition elevenTagsOneNumber : Json.value :=
  Json.Object [("msg_type", Json.Str "publish");
               ("data", Json.Str "x");
               ("context",
                Json.Object
                  [("tags",
                    Json.Array (map Json.Str (removelast elevenTags) ++ [Json.Number "11"]))])].

(** Three publishes that do not ask for the response, and one that does. *)
Definition threePublishes : list Message :=
  [publishOf "a"; publishOf "b"; publishOf "c"].

Definition publishAndWait : Message :=
  mkMessage "x" (mkContext [] None true EmptyString) "publish" EmptyString EmptyString.

(** An upstream that holds one message for the client. *)
Definition holdingOne : Upstream :=
  answers (Response 200
             (BodyJson (Json.Object
                          [("messages", Codec.marshalMessages [publishOf "x"])]))).

(** An upstream that cannot be reached. *)
Definition unreachable : Upstream := answers (TransportError "connection refused").

(** [-maxQueue=0]. *)
Definition configNoBuffer : Config :=
  {| AppURL := "https://app.tendrl.com/api";
     LinuxPath := "/var/lib/tendrl";
     SocketPath := "/var/lib/tendrl/tendrl_agent.sock";
     FlushInterval := 250000000;
     BatchSize := 10;
     ApiKey := "key";
     MinBatchSize := 10;
     MaxBatchSize := 200;
     ScaleFactor := 0.5%float;
     MaxQueueSize := 0;
     TargetCPUPercent := 70%float;
     TargetMemPercent := 80%float;
     MinBatchInterval := 100000000;
     MaxBatchInterval := 1000000000 |}.



(** The worker right after its start with the default configuration, and
    with one message in the queue. *)
Definition startedWorker : WorkerState :=
  mkWorker [] [] false (Some 100000000) [] false.

Definition workerWithOne : WorkerState :=
  mkWorker [] [publishOf "a"] false (Some 100000000) [] false.

(* ================================================================= *)
(** * Properties *)

(* ================================================================= *)
(** ** Message dispatch *)

Section Dispatch.

Variable typeErrorText : Json.value -> string.
Variable marshalAny : Json.value -> string.
Variable config : Config.
Variable up : Upstream.

(** The [switch] of [ProcessMessage] has the cases ["msg_check"] and
    ["publish"]; every other type takes the [default] branch. *)
Lemma ProcessMessage_default (st : HandlerState) (msg : Message) :
  String.eqb (MsgType msg) "msg_check" = false ->
  String.eqb (MsgType msg) "publish" = false ->
  ProcessMessage typeErrorText marshalAny config up st msg
  = sendErrorResponse st "Unknown message type".
Proof.
  intros Hcheck Hpublish. unfold ProcessMessage.
  now rewrite Hcheck, Hpublish.
Qed.

(** A fire-and-forget [publish] is sent on the queue and nothing else
    happens. *)
Lemma ProcessMessage_publish (st : HandlerState) (msg : Message) :
  MsgType msg = "publish" ->
  WaitResponse (Context msg) = false ->
  ProcessMessage typeErrorText marshalAny config up st msg
  = mkHandler (written st) (enqueued st ++ [msg]) (requests st) (connClosed st).
Proof.
  intros Htype Hwait. unfold ProcessMessage.
  now rewrite Htype, Hwait.
Qed.

(** C1, on the code: a [dest_publish] message, whatever its other fields,
    is answered with the error envelope [Unknown message type]; it is not
    sent on the queue and no request goes upstream.  So is the object
    [{"msg_type":"dest_publish","data":"hello","dest":"line-7",
    "context":{"tags":["t"]}}] that a client writes. *)
Theorem dest_publish_is_rejected
        (st : HandlerState) (data dest timestamp : string) (ctx : MessageContext)
        (log : list HttpRequest) :
  ProcessMessage typeErrorText marshalAny config up st
                 (mkMessage data ctx "dest_publish" dest timestamp)
  = mkHandler (written st ++ [errorEnvelope "Unknown message type"])
              (enqueued st) (requests st) (connClosed st)
  /\ HandleConnection typeErrorText marshalAny config up
                      [DecodeValue destPublishObject] (newHandler log)
     = mkHandler [errorEnvelope "Unknown message type"] [] log false.
Proof.
  split.
  - rewrite ProcessMessage_default; reflexivity.
  - reflexivity.
Qed.

Lemma checkMessage_logs_request (log : list HttpRequest) (limit : Z) :
  snd (checkMessage typeErrorText config up log limit)
  = log ++ [checkRequest config limit].
Proof.
  unfold checkMessage, client_Do.
  destruct (up log (checkRequest config limit)) as [err | code body]; [ reflexivity | ].
  destruct (code =? 204); [ reflexivity | ].
  destruct (code =? 200); simpl; [ | reflexivity ].
  destruct body as [v | err]; [ | reflexivity ].
  destruct (Codec.unmarshalCheckResponse v); reflexivity.
Qed.

(** A body with one [messages] member decodes as the list of its items. *)
Lemma unmarshalCheckResponse_messages (items : list Json.value) :
  Codec.unmarshalCheckResponse (Json.Object [("messages", Json.Array items)])
  = Codec.unmarshalMessageList items.
Proof.
  unfold Codec.unmarshalCheckResponse, Codec.unmarshalMessageList.
  cbn [Codec.unmarshalMembers].
  change (Codec.setMessagesField ([], []) "messages" (Json.Array items))
    with (Codec.unmarshalSlice Codec.unmarshalInto (zeroMessage, []) (Json.Array items)
            ([], [])).
  destruct items as [ | x items]; [ reflexivity | ].
  unfold Codec.unmarshalSlice. cbn [fst snd app].
  destruct (Codec.unmarshalElements _ _ _ _); reflexivity.
Qed.

(** What the handler does with a poll request, by the poll's result. *)
Lemma ProcessMessage_after_poll (st : HandlerState) (msg : Message) (limit : Z) :
  MsgType msg = "msg_check" ->
  pollLimit msg = Some limit ->
  ProcessMessage typeErrorText marshalAny config up st msg
  = let st' := mkHandler (written st) (enqueued st)
                         (requests st ++ [checkRequest config limit]) (connClosed st) in
    match fst (checkMessage typeErrorText config up (requests st) limit) with
    | inr err => sendErrorResponse st' err
    | inl messages =>
        if Go.len messages =? 0 then connWrite st' "204"
        else connWrite st' (Json.render (Codec.marshalMessages messages))
    end.
Proof.
  intros Htype Hlimit. unfold ProcessMessage. rewrite Htype. simpl.
  unfold pollLimit in Hlimit.
  assert (Hpoll : forall n,
             (let (result, log') := checkMessage typeErrorText config up (requests st) n in
              let st' := mkHandler (written st) (enqueued st) log' (connClosed st) in
              match result with
              | inr err => sendErrorResponse st' err
              | inl messages =>
                  if Go.len messages =? 0 then connWrite st' "204"
                  else connWrite st' (Json.render (Codec.marshalMessages messages))
              end)
             = let st' := mkHandler (written st) (enqueued st)
                                    (requests st ++ [checkRequest config n]) (connClosed st) in
               match fst (checkMessage typeErrorText config up (requests st) n) with
               | inr err => sendErrorResponse st' err
               | inl messages =>
                   if Go.len messages =? 0 then connWrite st' "204"
                   else connWrite st' (Json.render (Codec.marshalMessages messages))
               end).
  { intro n. pose proof (checkMessage_logs_request (requests st) n) as Hlog.
    destruct (checkMessage typeErrorText config up (requests st) n) as [r l].
    simpl in *. now subst l. }
  destruct (Limit (Context msg)) as [[n | n | f | s | b] | ]; try discriminate;
    injection Hlimit as <-; apply Hpoll.
Qed.

(** On [Message] values the limit is handled as intended: an [int] is used,
    an absent one is 1, any other value is an error without a poll. *)
Lemma ProcessMessage_msg_check_limit (st : HandlerState) (msg : Message) :
  MsgType msg = "msg_check" ->
  match pollLimit msg with
  | Some limit =>
      requests (ProcessMessage typeErrorText marshalAny config up st msg)
      = requests st ++ [checkRequest config limit]
  | None =>
      ProcessMessage typeErrorText marshalAny config up st msg
      = sendErrorResponse st "Invalid limit type"
  end.
Proof.
  intros Htype. destruct (pollLimit msg) as [limit | ] eqn:Hlimit.
  - rewrite (ProcessMessage_after_poll st msg limit Htype Hlimit). cbv zeta.
    destruct (fst _) as [ms | err]; [ destruct (Go.len ms =? 0) | ]; reflexivity.
  - unfold ProcessMessage, pollLimit in *. rewrite Htype. simpl.
    destruct (Limit (Context msg)) as [[n | n | f | s | b] | ]; try discriminate;
      reflexivity.
Qed.

(** C2, on the code: [Limit] is tagged [json:"-"], so [Decode] never fills
    it.  Whatever a client writes as [context.limit], an integer such as 5
    or anything else, the decoded message has no limit and the handler polls
    with [limit=1]; it never answers [Invalid limit type]. *)
Theorem wire_limit_is_ignored (limit : Json.value) (log : list HttpRequest) :
  option_map pollLimit (Codec.unmarshalMessage (msgCheckWithLimit limit))
  = Some (Some 1)
  /\ requests (HandleConnection typeErrorText marshalAny config up
                 [DecodeValue (msgCheckWithLimit limit)] (newHandler log))
     = log ++ [checkRequest config 1].
Proof.
  split; [ reflexivity | ].
  cbn [HandleConnection msgCheckWithLimit].
  change (Codec.unmarshalMessage _) with (Some msgCheck).
  cbn [ValidateClientContext Context msgCheck zeroContext Tags Go.len List.length
       Z.of_nat Z.ltb Z.compare].
  exact (ProcessMessage_msg_check_limit (newHandler log) msgCheck eq_refl).
Qed.

(** C7, as amended: by the status the upstream answers a poll with.
    No Content gives the empty list and the bytes [204] on the connection;
    OK with a body [{"messages": [...]}] gives the inner sequence, written
    back JSON-encoded when it is not empty and as [204] when it is; any
    other status is the error [unexpected status code: n], written back as
    an error envelope.  The poll is the only request made and nothing is
    sent on the queue. *)
Theorem poll_reply_by_status (st : HandlerState) (msg : Message) (limit : Z) :
  MsgType msg = "msg_check" ->
  pollLimit msg = Some limit ->
  let outcome := up (requests st) (checkRequest config limit) in
  let result := fst (checkMessage typeErrorText config up (requests st) limit) in
  let st' := ProcessMessage typeErrorText marshalAny config up st msg in
  requests st' = requests st ++ [checkRequest config limit]
  /\ enqueued st' = enqueued st
  /\ (forall body,
         outcome = Response 204 body ->
         result = inl [] /\ written st' = written st ++ ["204"])
  /\ (forall items messages,
         outcome = Response 200 (BodyJson (Json.Object [("messages", Json.Array items)])) ->
         Codec.unmarshalMessageList items = Some messages ->
         result = inl messages
         /\ written st'
            = written st
                ++ [if Codec.is_empty_list messages then "204"
                    else Json.render (Codec.marshalMessages messages)])
  /\ (forall code body,
         outcome = Response code body -> code <> 204 -> code <> 200 ->
         result = inr ("unexpected status code: " ++ Go.decimal code)%string
         /\ written st'
            = written st
                ++ [Json.render
                      (Codec.marshalResponse
                         (mkResponse "error"
                            ("unexpected status code: " ++ Go.decimal code)%string))]).
Proof.
  intros Htype Hlimit outcome result st'.
  assert (Hst : st' = _) by (exact (ProcessMessage_after_poll st msg limit Htype Hlimit)).
  cbv zeta in Hst. fold result in Hst.
  assert (Hresult : result
                    = match outcome with
                      | TransportError err => inr err
                      | Response code body =>
                          if code =? 204 then inl []
                          else if negb (code =? 200) then
                                 inr ("unexpected status code: " ++ Go.decimal code)%string
                          else match body with
                               | BodyMalformed err => inr err
                               | BodyJson v =>
                                   match Codec.unmarshalCheckResponse v with
                                   | Some messages => inl messages
                                   | None => inr (typeErrorText v)
                                   end
                               end
                      end).
  { unfold result, checkMessage, client_Do. fold outcome.
    destruct outcome as [err | code body]; [ reflexivity | ].
    destruct (code =? 204); [ reflexivity | ].
    destruct (code =? 200); simpl; [ | reflexivity ].
    destruct body as [v | err]; [ | reflexivity ].
    destruct (Codec.unmarshalCheckResponse v); reflexivity. }
  split; [ | split; [ | split; [ | split ] ] ].
  - rewrite Hst. destruct result as [ms | err]; [ destruct (Go.len ms =? 0) | ]; reflexivity.
  - rewrite Hst. destruct result as [ms | err]; [ destruct (Go.len ms =? 0) | ]; reflexivity.
  - intros body Hout. rewrite Hst, Hresult, Hout. split; reflexivity.
  - intros items messages Hout Hitems. rewrite Hst, Hresult, Hout.
    cbn [Z.eqb negb]. rewrite unmarshalCheckResponse_messages, Hitems. split; [ reflexivity | ]. destruct messages; reflexivity.
  - intros code body Hout H204 H200. rewrite Hst, Hresult, Hout.
    destruct (Z.eqb_spec code 204); [ contradiction | ].
    destruct (Z.eqb_spec code 200); [ contradiction | ]. split; reflexivity.
Qed.

(** C8, as amended: an object that decodes into a message with eleven tags
    or more gets the error envelope
    [{"status":"error","message":"too many tags provided; maximum is 10"}],
    byte for byte; nothing is sent on the queue or upstream, the connection
    stays open and the handler goes on with what the client sends next. *)
Theorem too_many_tags_rejected
        (v : Json.value) (msg : Message) (rest : list Decoded) (st : HandlerState) :
  Codec.unmarshalMessage v = Some msg ->
  11 <= Go.len (Tags (Context msg)) ->
  HandleConnection typeErrorText marshalAny config up (DecodeValue v :: rest) st
  = HandleConnection typeErrorText marshalAny config up rest
      (mkHandler
         (written st ++ [errorEnvelope "too many tags provided; maximum is 10"])
         (enqueued st) (requests st) (connClosed st)).
Proof.
  intros Hdecode Htags. cbn [HandleConnection].
  rewrite Hdecode. unfold ValidateClientContext.
  destruct (Z.ltb_spec 10 (Go.len (Tags (Context msg)))); [ reflexivity | lia ].
Qed.

End Dispatch.

(** The three answers of C7 on concrete upstreams: 204, 200 with one
    message, and 500. *)
Lemma poll_reply_by_status_examples :
  MsgType msgCheck = "msg_check"
  /\ pollLimit msgCheck = Some 1
  /\ written (ProcessMessage someTypeErrorText someMarshalAny exampleConfig
                (answers (Response 204 (BodyMalformed "EOF"))) (newHandler []) msgCheck)
     = ["204"]
  /\ written (ProcessMessage someTypeErrorText someMarshalAny exampleConfig
                (answers (Response 200
                            (BodyJson (Json.Object
                                         [("messages",
                                           Json.Array [Codec.marshalMessage (publishOf "x")])]))))
                (newHandler []) msgCheck)
     = [Json.render (Codec.marshalMessages [publishOf "x"])]
  /\ written (ProcessMessage someTypeErrorText someMarshalAny exampleConfig
                (answers (Response 500 (BodyMalformed "EOF"))) (newHandler []) msgCheck)
     = [errorEnvelope "unexpected status code: 500"].
Proof.
  split; [ reflexivity | ]. split; [ reflexivity | ].
  split; [ | split ].
  - destruct (poll_reply_by_status someTypeErrorText someMarshalAny exampleConfig
                (answers (Response 204 (BodyMalformed "EOF"))) (newHandler []) msgCheck 1
                eq_refl eq_refl) as (_ & _ & H204 & _ & _).
    exact (proj2 (H204 _ eq_refl)).
  - destruct (poll_reply_by_status someTypeErrorText someMarshalAny exampleConfig
                (answers (Response 200
                            (BodyJson (Json.Object
                                         [("messages",
                                           Json.Array [Codec.marshalMessage (publishOf "x")])]))))
                (newHandler []) msgCheck 1
                eq_refl eq_refl) as (_ & _ & _ & H200 & _).
    exact (proj2 (H200 _ [publishOf "x"] eq_refl eq_refl)).
  - destruct (poll_reply_by_status someTypeErrorText someMarshalAny exampleConfig
                (answers (Response 500 (BodyMalformed "EOF"))) (newHandler []) msgCheck 1
                eq_refl eq_refl) as (_ & _ & _ & _ & Hother).
    exact (proj2 (Hother 500 _ eq_refl ltac:(discriminate) ltac:(discriminate))).
Defined.

(** C7 as stated fails on an OK answer without messages: the poll returns
    the empty sequence, and the handler writes [204], not the JSON encoding
    [[]] of that sequence. *)
Lemma ok_without_messages_writes_204 :
  fst (checkMessage someTypeErrorText exampleConfig
         (answers (Response 200 (BodyJson (Json.Object [("messages", Json.Array [])]))))
         [] 1)
  = inl []
  /\ written (ProcessMessage someTypeErrorText someMarshalAny exampleConfig
                (answers (Response 200 (BodyJson (Json.Object [("messages", Json.Array [])]))))
                (newHandler []) msgCheck)
     = ["204"]
  /\ Json.render (Codec.marshalMessages []) = "[]"
  /\ "204" <> Json.render (Codec.marshalMessages []).
Proof.
  repeat split. discriminate.
Qed.

(** The answer of C8 on a publish with eleven tags, followed by a publish
    that is accepted. *)
Lemma too_many_tags_rejected_example :
  Codec.unmarshalMessage publishElevenTags
  = Some (mkMessage "x" (mkContext elevenTags None false EmptyString) "publish"
                    EmptyString EmptyString)
  /\ 11 <= Go.len elevenTags
  /\ HandleConnection someTypeErrorText someMarshalAny exampleConfig
                      (answers (Response 201 (BodyJson Json.Null)))
                      [DecodeValue publishElevenTags;
                       DecodeValue (Codec.marshalMessage (publishOf "y"))]
                      (newHandler [])
     = mkHandler [errorEnvelope "too many tags provided; maximum is 10"]
                 [publishOf "y"] [] false.
Proof.
  split; [ reflexivity | ]. split; [ vm_compute; discriminate | ].
  rewrite (too_many_tags_rejected someTypeErrorText someMarshalAny exampleConfig
             (answers (Response 201 (BodyJson Json.Null)))
             publishElevenTags
             (mkMessage "x" (mkContext elevenTags None false EmptyString) "publish"
                        EmptyString EmptyString)
             [DecodeValue (Codec.marshalMessage (publishOf "y"))] (newHandler [])
             eq_refl ltac:(vm_compute; discriminate)).
  reflexivity.
Defined.

(** C8 as stated fails on an object that does not decode.  With eleven
    tags and a [data] that is an object, or with a tag that is a number,
    [Decode] reports a type error before the tags are counted: the loop
    prints it and goes on, and the client gets no envelope.  (The publish
    that follows is queued.) *)
Lemma object_that_does_not_decode_gets_no_envelope :
  Codec.unmarshalMessage elevenTagsAndReading = None
  /\ HandleConnection someTypeErrorText someMarshalAny exampleConfig accepting
                      [DecodeValue elevenTagsAndReading;
                       DecodeValue (Codec.marshalMessage (publishOf "y"))]
                      (newHandler [])
     = mkHandler [] [publishOf "y"] [] false
  /\ Codec.unmarshalMessage elevenTagsOneNumber = None
  /\ HandleConnection someTypeErrorText someMarshalAny exampleConfig accepting
                      [DecodeValue elevenTagsOneNumber;
                       DecodeValue (Codec.marshalMessage (publishOf "y"))]
                      (newHandler [])
     = mkHandler [] [publishOf "y"] [] false.
Proof.
  repeat split.
Qed.

(* ================================================================= *)
(** ** Strings that are, and that are not, valid UTF-8 *)

Section Utf8Facts.

Import Utf8 Json.

Lemma valid_from_append (p : string) :
  forall t, valid_from (String.length p) (p ++ t) = valid_from 0 t.
Proof.
  induction p as [ | c p IH]; intro t; [ destruct t; reflexivity | ].
  simpl. apply IH.
Qed.

Lemma coerce_from_append (p : string) :
  forall t, coerce_from (String.length p) (p ++ t) = (p ++ coerce_from 0 t)%string.
Proof.
  induction p as [ | c p IH]; intro t; [ destruct t; reflexivity | ].
  simpl. now rewrite IH.
Qed.

(** A well-formed rune at the head of a string: the string starts with its
    bytes, and they are a rune before whatever follows. *)
Lemma size_prefix (s : string) (k : nat) :
  size s = S k ->
  exists c p t,
    s = String c (p ++ t) /\ String.length p = k
    /\ forall t', size (String c (p ++ t')) = S k.
Proof.
  unfold size.
  destruct s as [ | c0 r0]; [ discriminate | ].
  destruct (N_of_ascii c0 <? 128)%N eqn:E0.
  { intros [= <-]. exists c0, EmptyString, r0. repeat split.
    intro t'. cbn. now rewrite E0. }
  destruct ((N_of_ascii c0 <? 194) || (244 <? N_of_ascii c0))%N eqn:E1; [ discriminate | ].
  destruct r0 as [ | c1 r1]; [ discriminate | ].
  destruct ((N_of_ascii c1 <? second_lo (N_of_ascii c0))
            || (second_hi (N_of_ascii c0) <? N_of_ascii c1))%N eqn:E2; [ discriminate | ].
  destruct (N_of_ascii c0 <? 224)%N eqn:E3.
  { intros [= <-]. exists c0, (String c1 EmptyString), r1. repeat split.
    intro t'. cbn. now rewrite E0, E1, E2, E3. }
  destruct r1 as [ | c2 r2]; [ discriminate | ].
  destruct (negb (continuation c2)) eqn:E4; [ discriminate | ].
  destruct (N_of_ascii c0 <? 240)%N eqn:E5.
  { intros [= <-]. exists c0, (String c1 (String c2 EmptyString)), r2. repeat split.
    intro t'. cbn. now rewrite E0, E1, E2, E3, E4, E5. }
  destruct r2 as [ | c3 r3]; [ discriminate | ].
  destruct (continuation c3) eqn:E6; [ | discriminate ].
  intros [= <-]. exists c0, (String c1 (String c2 (String c3 EmptyString))), r3.
  repeat split.
  intro t'. cbn. now rewrite E0, E1, E2, E3, E4, E5, E6.
Qed.

Lemma coerce_rune (c : ascii) (p t : string) :
  size (String c (p ++ t)) = S (String.length p) ->
  coerce (String c (p ++ t)) = String c (p ++ coerce t).
Proof.
  intro H. unfold coerce. cbn [coerce_from]. rewrite H.
  now rewrite coerce_from_append.
Qed.

Lemma ValidString_rune (c : ascii) (p t : string) :
  size (String c (p ++ t)) = S (String.length p) ->
  ValidString (String c (p ++ t)) = ValidString t.
Proof.
  intro H. unfold ValidString. cbn [valid_from]. rewrite H.
  apply valid_from_append.
Qed.

Lemma coerce_invalid (c : ascii) (rest : string) :
  size (String c rest) = O ->
  coerce (String c rest) = (replacement ++ coerce rest)%string.
Proof.
  intro H. unfold coerce. cbn [coerce_from]. now rewrite H.
Qed.

Lemma ValidString_replacement (t : string) :
  ValidString (replacement ++ t) = ValidString t.
Proof. reflexivity. Qed.

Lemma coerce_replacement (t : string) :
  coerce (replacement ++ t) = (replacement ++ coerce t)%string.
Proof. reflexivity. Qed.

Lemma length_append (a b : string) :
  String.length (a ++ b) = (String.length a + String.length b)%nat.
Proof. induction a; simpl; congruence. Qed.

(** What the decoder delivers is valid UTF-8. *)
Lemma ValidString_coerce (s : string) : ValidString (coerce s) = true.
Proof.
  remember (String.length s) as n eqn:Hn.
  revert s Hn. induction n as [n IH] using (well_founded_induction Wf_nat.lt_wf).
  intros s Hn. destruct s as [ | c rest]; [ reflexivity | ].
  destruct (size (String c rest)) as [ | k] eqn:Hsize.
  - rewrite (coerce_invalid _ _ Hsize), ValidString_replacement.
    apply (IH (String.length rest)); [ subst n; simpl; lia | reflexivity ].
  - destruct (size_prefix _ _ Hsize) as (c' & p & t & Hs & Hp & Hany).
    rewrite Hs. subst k.
    rewrite (coerce_rune _ _ _ (Hany t)), (ValidString_rune _ _ _ (Hany (coerce t))).
    apply (IH (String.length t)); [ | reflexivity ].
    subst n. rewrite Hs. simpl. rewrite length_append. lia.
Qed.

(** A string that is valid UTF-8 is delivered as it is. *)
Lemma coerce_from_valid (s : string) :
  forall keep, valid_from keep s = true -> coerce_from keep s = s.
Proof.
  induction s as [ | c rest IH]; intros keep H; [ reflexivity | ].
  cbn [valid_from coerce_from] in *.
  destruct keep as [ | k].
  - destruct (size (String c rest)) as [ | k]; [ discriminate | ].
    now rewrite (IH _ H).
  - now rewrite (IH _ H).
Qed.

Lemma coerce_valid (s : string) : ValidString s = true -> coerce s = s.
Proof. apply coerce_from_valid. Qed.

Lemma coerce_coerce (s : string) : coerce (coerce s) = coerce s.
Proof. apply coerce_valid, ValidString_coerce. Qed.

End Utf8Facts.

(* ================================================================= *)
(** ** Encoding a message and decoding it again *)

Section RoundTrip.

Import Json Codec.

Lemma unmarshalElements_strings (l : list string) :
  forall array,
    unmarshalElements unmarshalString EmptyString (map Str l) array
    = Some (map coerce l).
Proof.
  induction l as [ | s l IH]; intro array; [ reflexivity | ].
  cbn [map unmarshalElements unmarshalString]. now rewrite IH.
Qed.

Lemma unmarshalContext_marshalContext (c : MessageContext) :
  unmarshalContext (marshalContext c) (zeroContext, [])
  = Some (mkContext (map coerce (Tags c)) None (WaitResponse c) (coerce (Entity c)), []).
Proof.
  destruct c as [tags limit wait entity].
  unfold marshalContext. cbn [Tags WaitResponse Entity Limit].
  destruct tags as [ | t tags], wait, entity as [ | a entity];
    cbn -[unmarshalElements map coerce skipn];
    rewrite ?unmarshalElements_strings;
    cbn -[map coerce skipn]; rewrite ?skipn_nil; reflexivity.
Qed.

Lemma unmarshalInto_marshalMessage (m : Message) :
  unmarshalInto (marshalMessage m) (zeroMessage, [])
  = Some (withoutLimit (coerced m), []).
Proof.
  destruct m as [data ctx type dest time].
  pose proof (unmarshalContext_marshalContext ctx) as Hctx.
  unfold marshalMessage, withoutLimit, coerced.
  cbn [Data Context MsgType Destination Timestamp].
  destruct data as [ | a1 data], type as [ | a2 type], dest as [ | a3 dest],
           time as [ | a4 time];
    cbn -[unmarshalContext marshalContext coerce map];
    rewrite Hctx; reflexivity.
Qed.

(** What comes back is the message without its limit, with its strings as
    the decoder delivers them. *)
Lemma unmarshalMessage_marshalMessage (m : Message) :
  unmarshalMessage (marshalMessage m) = Some (withoutLimit (coerced m)).
Proof.
  unfold unmarshalMessage. now rewrite unmarshalInto_marshalMessage.
Qed.

Lemma unmarshalMessageList_marshalMessage (ms : list Message) :
  unmarshalMessageList (map marshalMessage ms)
  = Some (map (fun m => withoutLimit (coerced m)) ms).
Proof.
  unfold unmarshalMessageList.
  assert (H : unmarshalElements unmarshalInto (zeroMessage, []) (map marshalMessage ms) []
              = Some (map (fun m => (withoutLimit (coerced m), [])) ms)).
  { induction ms as [ | m ms IH]; [ reflexivity | ].
    cbn [map unmarshalElements hd tl].
    now rewrite unmarshalInto_marshalMessage, IH. }
  rewrite H. cbn [option_map]. now rewrite map_map.
Qed.

Lemma map_coerce_valid (l : list string) :
  forallb Utf8.ValidString l = true -> map coerce l = l.
Proof.
  induction l as [ | s l IH]; [ reflexivity | ].
  simpl. intros H. apply andb_prop in H as [Hs Hl].
  now rewrite (coerce_valid s Hs), (IH Hl).
Qed.

Lemma coerced_valid (m : Message) : validMessage m = true -> coerced m = m.
Proof.
  unfold validMessage. intros H.
  repeat (let H' := fresh in apply andb_prop in H as [H H']).
  destruct m as [data [tags limit wait entity] type dest time].
  unfold coerced. cbn [Data Context MsgType Destination Timestamp Tags Limit
                        WaitResponse Entity] in *.
  now rewrite map_coerce_valid, !coerce_valid.
Qed.

Lemma map_coerced_valid (ms : list Message) :
  forallb validMessage ms = true -> map coerced ms = ms.
Proof.
  induction ms as [ | m ms IH]; [ reflexivity | ].
  simpl. intros H. apply andb_prop in H as [Hm Hms].
  now rewrite (coerced_valid m Hm), (IH Hms).
Qed.

(** C4, as amended: a message whose strings are valid UTF-8, encoded and
    decoded again, comes back with the same data, tags, wait flag, entity,
    type, destination and timestamp.  Its limit is not part of the encoding
    (the field is tagged [json:"-"]), so what comes back has none. *)
Theorem decode_encode (m : Message) :
  validMessage m = true ->
  exists m',
    unmarshalMessage (marshalMessage m) = Some m'
    /\ Data m' = Data m
    /\ Tags (Context m') = Tags (Context m)
    /\ WaitResponse (Context m') = WaitResponse (Context m)
    /\ Entity (Context m') = Entity (Context m)
    /\ MsgType m' = MsgType m
    /\ Destination m' = Destination m
    /\ Timestamp m' = Timestamp m
    /\ Limit (Context m') = None.
Proof.
  intro Hvalid. exists (withoutLimit (coerced m)).
  split; [ apply unmarshalMessage_marshalMessage | ].
  rewrite (coerced_valid m Hvalid). repeat split.
Qed.

(** C4 on a poll request whose limit is 5. *)
Lemma decode_encode_example :
  validMessage msgCheckLimit5 = true
  /\ exists m',
      unmarshalMessage (marshalMessage msgCheckLimit5) = Some m'
      /\ Data m' = Data msgCheckLimit5
      /\ Tags (Context m') = Tags (Context msgCheckLimit5)
      /\ WaitResponse (Context m') = WaitResponse (Context msgCheckLimit5)
      /\ Entity (Context m') = Entity (Context msgCheckLimit5)
      /\ MsgType m' = MsgType msgCheckLimit5
      /\ Destination m' = Destination msgCheckLimit5
      /\ Timestamp m' = Timestamp msgCheckLimit5
      /\ Limit (Context m') = None.
Proof.
  split; [ reflexivity | ].
  apply (decode_encode msgCheckLimit5). reflexivity.
Defined.

(** C4 as stated fails twice.  The limit of a message does not survive; and
    neither does a byte that is no valid UTF-8: the encoder writes it as
    [\ufffd], so the data [\xff] comes back as U+FFFD. *)
Lemma limit_and_invalid_bytes_are_lost :
  unmarshalMessage (marshalMessage msgCheckLimit5) <> Some msgCheckLimit5
  /\ option_map (fun m => Limit (Context m))
                (unmarshalMessage (marshalMessage msgCheckLimit5))
     = Some None
  /\ Limit (Context msgCheckLimit5) = Some (AnyInt 5)
  /\ validMessage msgCheckLimit5 = true
  /\ option_map Data (unmarshalMessage (marshalMessage (publishOf invalidByte)))
     = Some Utf8.replacement
  /\ Json.render (Json.Str invalidByte) = quoted "\ufffd"
  /\ invalidByte <> Utf8.replacement.
Proof.
  split; [ cbv; discriminate | ].
  repeat split. cbv. discriminate.
Qed.

End RoundTrip.

(* ================================================================= *)
(** ** Binary64 arithmetic: rounding does not cross a float

    The facts about [SpecFloat]'s operations that the bounds of the batch
    controller rest on.  The primitive operations of [float] are tied to
    them by the specifications of [FloatAxioms]. *)

Module Binary64Facts.

Import Binary64.


Lemma digits2_pos_bounds (m : positive) :
  2 ^ (Z.pos (digits2_pos m) - 1) <= Z.pos m < 2 ^ Z.pos (digits2_pos m).
Proof.
  induction m as [m IH | m IH | ]; simpl digits2_pos.
  - rewrite Pos2Z.inj_succ.
    replace (Z.succ (Z.pos (digits2_pos m)) - 1) with (Z.succ (Z.pos (digits2_pos m) - 1)) by lia.
    rewrite !Z.pow_succ_r by lia. lia.
  - rewrite Pos2Z.inj_succ.
    replace (Z.succ (Z.pos (digits2_pos m)) - 1) with (Z.succ (Z.pos (digits2_pos m) - 1)) by lia.
    rewrite !Z.pow_succ_r by lia. lia.
  - simpl. lia.
Qed.

(** The number of digits is determined by the two bounds. *)
Lemma digits2_pos_unique (m : positive) (d : Z) :
  2 ^ (d - 1) <= Z.pos m < 2 ^ d -> Z.pos (digits2_pos m) = d.
Proof.
  intros [Hlo Hhi]. pose proof (digits2_pos_bounds m) as [Hlo' Hhi'].
  assert (0 < d).
  { destruct (Z.ltb_spec 0 d); [ assumption | ].
    assert (2 ^ d <= 2 ^ 0) by (apply Z.pow_le_mono_r; lia). simpl in *. lia. }
  destruct (Z.lt_trichotomy (Z.pos (digits2_pos m)) d) as [Hlt | [Heq | Hgt]];
    [ | assumption | ].
  - assert (2 ^ Z.pos (digits2_pos m) <= 2 ^ (d - 1)) by (apply Z.pow_le_mono_r; lia). lia.
  - assert (2 ^ d <= 2 ^ (Z.pos (digits2_pos m) - 1)) by (apply Z.pow_le_mono_r; lia). lia.
Qed.

Lemma iter_pos_nat {A} (f : A -> A) (p : positive) :
  forall x, iter_pos f p x = Nat.iter (Pos.to_nat p) f x.
Proof.
  induction p as [p IH | p IH | ]; intro x; simpl iter_pos.
  - rewrite !IH, <- Nat.iter_succ_r, <- Nat.iter_add. f_equal.
    rewrite Pos2Nat.inj_xI. lia.
  - rewrite !IH, <- Nat.iter_add. f_equal. rewrite Pos2Nat.inj_xO. lia.
  - reflexivity.
Qed.

Lemma shr_1_shifted (m0 k : Z) (r : shr_record) :
  0 <= m0 -> 0 <= k -> shifted m0 k r -> shifted m0 (k + 1) (shr_1 r).
Proof.
  intros Hm0 Hk [Hm Hexact].
  assert (Hpow : 2 ^ (k + 1) = 2 ^ k * 2) by (rewrite Z.pow_add_r; lia).
  assert (Hpos : 0 < 2 ^ k) by (apply Z.pow_pos_nonneg; lia).
  assert (Hdiv : m0 / 2 ^ (k + 1) = m0 / 2 ^ k / 2)
    by (rewrite Hpow, Z.div_div; lia).
  assert (Hmod : m0 mod 2 ^ (k + 1) = (m0 / 2 ^ k mod 2) * 2 ^ k + m0 mod 2 ^ k).
  { rewrite Hpow. rewrite Z.rem_mul_r; lia. }
  assert (Hrange : 0 <= m0 mod 2 ^ k < 2 ^ k) by (apply Z.mod_pos_bound; lia).
  assert (Hq : 0 <= m0 / 2 ^ k) by (apply Z.div_pos; lia).
  destruct r as [m r s]. simpl in Hm, Hexact. subst m.
  unfold shifted. rewrite Hdiv, Hmod. clear Hdiv Hmod Hpow.
  set (low := m0 mod 2 ^ k) in *. set (p2 := 2 ^ k) in *.
  destruct (m0 / p2) as [ | [q | q | ] | q ]; simpl shr_1; simpl shr_m;
    simpl shr_r; simpl shr_s; try lia.
  - split; [ reflexivity | ]. rewrite Hexact. simpl. lia.
  - rewrite Pos2Z.inj_xI. generalize (Pos2Z.is_pos q). generalize (Z.pos q). intros z Hz.
    replace ((2 * z + 1) / 2) with z by (clear; Z.div_mod_to_equations; lia).
    replace ((2 * z + 1) mod 2) with 1 by (clear; Z.div_mod_to_equations; lia).
    split; [ reflexivity | ]. split; [ discriminate | nia ].
  - rewrite Pos2Z.inj_xO. generalize (Pos2Z.is_pos q). generalize (Z.pos q). intros z Hz.
    replace ((2 * z) / 2) with z by (clear; Z.div_mod_to_equations; lia).
    replace ((2 * z) mod 2) with 0 by (clear; Z.div_mod_to_equations; lia).
    split; [ reflexivity | ]. rewrite Hexact. simpl. lia.
  - split; [ reflexivity | ]. split; [ discriminate | ].
    change (1 mod 2) with 1. nia.
Qed.

Lemma iter_shr_1_shifted (m0 : Z) (n : nat) (r : shr_record) :
  0 <= m0 -> shifted m0 0 r -> shifted m0 (Z.of_nat n) (Nat.iter n shr_1 r).
Proof.
  intros Hm0 Hr. induction n as [ | n IH]; [ exact Hr | ].
  rewrite Nat2Z.inj_succ, <- Z.add_1_r. simpl Nat.iter.
  apply shr_1_shifted; [ assumption | lia | assumption ].
Qed.

Lemma digits_le (m : positive) (k : Z) :
  0 <= k -> Z.pos m < 2 ^ k -> Z.pos (digits2_pos m) <= k.
Proof.
  intros Hk Hm. pose proof (digits2_pos_bounds m) as [Hlo _].
  destruct (Z.leb_spec (Z.pos (digits2_pos m)) k); [ assumption | ].
  assert (2 ^ k <= 2 ^ (Z.pos (digits2_pos m) - 1)) by (apply Z.pow_le_mono_r; lia).
  lia.
Qed.

Lemma digits_gt (m : positive) (k : Z) :
  0 <= k -> 2 ^ k <= Z.pos m -> k < Z.pos (digits2_pos m).
Proof.
  intros Hk Hm. pose proof (digits2_pos_bounds m) as [_ Hhi].
  destruct (Z.ltb_spec k (Z.pos (digits2_pos m))); [ assumption | ].
  assert (2 ^ Z.pos (digits2_pos m) <= 2 ^ k) by (apply Z.pow_le_mono_r; lia).
  lia.
Qed.

Lemma fexp_fexp64 (e : Z) : fexp prec emax e = fexp64 e.
Proof. reflexivity. Qed.

Lemma shr_exact (m e n : Z) :
  0 <= m -> 0 <= n ->
  snd (shr (shr_record_of_loc m loc_Exact) e n) = e + n
  /\ shifted m n (fst (shr (shr_record_of_loc m loc_Exact) e n)).
Proof.
  intros Hm Hn.
  assert (H0 : shifted m 0 (shr_record_of_loc m loc_Exact)).
  { split; simpl; [ now rewrite Z.div_1_r | ]. rewrite Z.mod_1_r. tauto. }
  destruct n as [ | p | p ]; [ | | lia ].
  - simpl. split; [ lia | exact H0 ].
  - simpl. split; [ reflexivity | ].
    rewrite iter_pos_nat, <- positive_nat_Z.
    apply iter_shr_1_shifted; assumption.
Qed.

Lemma round_nearest_even_shifted (m n : Z) (r : shr_record) :
  shifted m n r ->
  let m2 := round_nearest_even (shr_m r) (loc_of_shr_record r) in
  m2 = m / 2 ^ n \/ (m2 = m / 2 ^ n + 1 /\ m mod 2 ^ n <> 0).
Proof.
  intros [Hm Hexact]. destruct r as [q [ | ] [ | ]]; simpl in *; subst q.
  - right. split; [ reflexivity | ]. intro H. apply Hexact in H. discriminate.
  - destruct (Z.even _); [ now left | right ].
    split; [ reflexivity | ]. intro H. apply Hexact in H. discriminate.
  - now left.
  - now left.
Qed.

(** [binary_round_aux] on an exact product or sum [mx * 2 ^ ex] whose
    exponent is not above the one of its format: the mantissa is cut at
    the format's exponent and may go up by one if something was cut. *)
Lemma binary_round_aux_exact (s : bool) (mx : positive) (ex : Z) :
  let e1 := fexp64 (Z.pos (digits2_pos mx) + ex) in
  ex <= e1 ->
  exists m2,
    (m2 = Z.pos mx / 2 ^ (e1 - ex)
     \/ (m2 = Z.pos mx / 2 ^ (e1 - ex) + 1 /\ Z.pos mx mod 2 ^ (e1 - ex) <> 0))
    /\ binary_round_aux prec emax s (Z.pos mx) ex loc_Exact = packed s m2 e1
    /\ valid_binary (packed s m2 e1) = true.
Proof.
  intros e1 Hex.
  set (d := Z.pos (digits2_pos mx)) in *.
  set (n := e1 - ex).
  assert (Hn : 0 <= n) by (unfold n; lia).
  pose proof (digits2_pos_bounds mx) as [Hlo Hhi]. fold d in Hlo, Hhi.
  assert (Hd : 0 < d) by (unfold d; lia).
  assert (He1 : -1074 <= e1) by (unfold e1, fexp64; lia).
  unfold binary_round_aux, shr_fexp. rewrite !fexp_fexp64.
  cbn [Zdigits2]. fold d. fold e1. fold n.
  destruct (shr_exact (Z.pos mx) ex n ltac:(lia) Hn) as [He' Hshift].
  destruct (shr (shr_record_of_loc (Z.pos mx) loc_Exact) ex n) as [mrs' e'].
  simpl in He', Hshift. replace e' with e1 by (unfold n in He'; lia).
  pose proof (round_nearest_even_shifted _ _ _ Hshift) as Hround.
  set (m2 := round_nearest_even (shr_m mrs') (loc_of_shr_record mrs')) in *.
  cbv zeta in Hround. rewrite ?fexp_fexp64.
  exists m2. split; [ exact Hround | ].
  (* the bounds of the cut mantissa *)
  set (m1 := Z.pos mx / 2 ^ n) in *.
  assert (Hpn : 0 < 2 ^ n) by (apply Z.pow_pos_nonneg; lia).
  assert (Hm1 : 0 <= m1) by (apply Z.div_pos; lia).
  assert (Hm1hi : m1 < 2 ^ 53).
  { apply Z.div_lt_upper_bound; [ assumption | ].
    rewrite <- Z.pow_add_r by lia.
    assert (2 ^ d <= 2 ^ (n + 53)) by (apply Z.pow_le_mono_r; unfold n, e1, fexp64; lia).
    lia. }
  assert (Hm1lo : -1074 < e1 -> 2 ^ 52 <= m1).
  { intro Hnormal. apply Z.div_le_lower_bound; [ assumption | ].
    rewrite <- Z.pow_add_r by lia.
    replace (n + 52) with (d - 1) by (unfold n, e1, fexp64 in *; lia). assumption. }
  assert (Hm2 : m1 <= m2 <= m1 + 1) by (destruct Hround as [-> | [-> _]]; lia).
  unfold packed.
  destruct (Z.eqb_spec m2 0) as [Hzero | Hnonzero].
  - (* nothing is left *)
    rewrite Hzero. cbn [Zdigits2].
    assert (Hshr : shr (shr_record_of_loc 0 loc_Exact) e1 (fexp64 (0 + e1) - e1)
                   = (shr_record_of_loc 0 loc_Exact, e1)).
    { unfold shr. destruct (fexp64 (0 + e1) - e1) as [ | p | p ] eqn:Hp; try reflexivity.
      unfold fexp64 in Hp. lia. }
    rewrite Hshr. split; reflexivity.
  - destruct m2 as [ | p2 | p2 ]; [ contradiction | | lia ].
    cbn [Zdigits2].
    destruct (Z.ltb_spec (Z.pos p2) (2 ^ 53)) as [Hsmall | Hfull].
    + (* the mantissa fits: it is canonical at [e1] *)
      assert (Hcanon : fexp64 (Z.pos (digits2_pos p2) + e1) - e1 = 0).
      { pose proof (digits_le p2 53 ltac:(lia) Hsmall).
        destruct (Z.eq_dec e1 (-1074)) as [Hsub | Hnorm].
        - unfold fexp64. lia.
        - assert (52 < Z.pos (digits2_pos p2))
            by (apply digits_gt; [ lia | specialize (Hm1lo ltac:(lia)); lia ]).
          unfold fexp64. lia. }
      rewrite Hcanon. cbn [shr shr_record_of_loc shr_m].
      split; [ reflexivity | ].
      destruct (Z.leb_spec e1 971); [ | reflexivity ].
      cbn [SpecFloat.valid_binary Z.to_pos]. unfold bounded, canonical_mantissa.
      rewrite fexp_fexp64. apply andb_true_iff. split.
      * apply Z.eqb_eq. lia.
      * apply Z.leb_le. assumption.
    + (* the mantissa has reached [2 ^ 53]: one more shift *)
      assert (Hp2 : Z.pos p2 = 2 ^ 53) by lia.
      assert (Hp2' : p2 = Z.to_pos (2 ^ 53)) by (rewrite <- Hp2; reflexivity).
      rewrite Hp2'.
      replace (fexp64 (Z.pos (digits2_pos (Z.to_pos (2 ^ 53))) + e1) - e1) with 1
        by (change (Z.pos (digits2_pos (Z.to_pos (2 ^ 53)))) with 54; unfold fexp64; lia).
      split; [ cbn -[Z.leb Z.add]; reflexivity | ].
      destruct (Z.leb_spec (e1 + 1) 971); [ | reflexivity ].
      cbn [SpecFloat.valid_binary]. unfold bounded, canonical_mantissa.
      rewrite fexp_fexp64. apply andb_true_iff. split.
      * apply Z.eqb_eq. change (Z.pos (digits2_pos (Z.to_pos (2 ^ 52)))) with 53.
        unfold fexp64. lia.
      * apply Z.leb_le. assumption.
Qed.

Lemma bounded_canonical (m : positive) (e : Z) :
  bounded prec emax m e = true ->
  fexp64 (Z.pos (digits2_pos m) + e) = e /\ e <= 971.
Proof.
  unfold bounded, canonical_mantissa. rewrite fexp_fexp64.
  intro H. apply andb_true_iff in H as [H1 H2].
  split; [ now apply Z.eqb_eq | now apply Z.leb_le in H2 ].
Qed.

Lemma bounded_facts (m : positive) (e : Z) :
  bounded prec emax m e = true ->
  -1074 <= e <= 971
  /\ Z.pos m < 2 ^ 53
  /\ (-1074 < e -> 2 ^ 52 <= Z.pos m).
Proof.
  intro H. apply bounded_canonical in H as [Hc He].
  pose proof (digits2_pos_bounds m) as [Hlo Hhi].
  unfold fexp64 in Hc.
  assert (Hd : Z.pos (digits2_pos m) <= 53) by lia.
  repeat split; try lia.
  - assert (2 ^ Z.pos (digits2_pos m) <= 2 ^ 53) by (apply Z.pow_le_mono_r; lia). lia.
  - intro Hn. replace (Z.pos (digits2_pos m)) with 53 in Hlo by lia. exact Hlo.
Qed.

Lemma pow2_pos (k : Z) : 0 <= k -> 0 < 2 ^ k.
Proof. intro. apply Z.pow_pos_nonneg; lia. Qed.

Lemma pow2_split (a b : Z) : 0 <= a -> 0 <= b -> 2 ^ (a + b) = 2 ^ a * 2 ^ b.
Proof. intros. apply Z.pow_add_r; assumption. Qed.

Section Grid.

Variables (s : bool) (mx mb : positive) (ex eb : Z).
Hypothesis Hex : -2200 <= ex.
Hypothesis Hshift : ex <= fexp64 (Z.pos (digits2_pos mx) + ex).
Hypothesis Hb : bounded prec emax mb eb = true.

Let e1 := fexp64 (Z.pos (digits2_pos mx) + ex).
Let result := binary_round_aux prec emax s (Z.pos mx) ex loc_Exact.

(** Rounding does not go above a float that the exact value is not
    above. *)
Lemma round_upper :
  scaled (Z.pos mx) ex <= scaled (Z.pos mb) eb ->
  result = S754_zero s
  \/ exists m' e',
      result = S754_finite s m' e'
      /\ scaled (Z.pos m') e' <= scaled (Z.pos mb) eb.
Proof.
  intro Hle.
  destruct (binary_round_aux_exact s mx ex Hshift) as (m2 & Hm2 & Hresult & _).
  fold e1 in Hm2, Hresult. fold result in Hresult.
  destruct (bounded_facts mb eb Hb) as (Heb & Hmb & Hmb').
  pose proof (digits2_pos_bounds mx) as [Hlo Hhi].
  set (d := Z.pos (digits2_pos mx)) in *.
  set (n := e1 - ex) in *.
  assert (Hn : 0 <= n) by (unfold n; lia).
  assert (He1 : -1074 <= e1) by (unfold e1, fexp64; lia).
  unfold scaled in *.
  set (P := 2 ^ (ex + 2200)) in *.
  assert (HP : 0 < P) by (apply pow2_pos; lia).
  set (Q := 2 ^ n) in *.
  assert (HQ : 0 < Q) by (apply pow2_pos; lia).
  assert (HR : 2 ^ (e1 + 2200) = Q * P).
  { unfold Q, P. rewrite <- pow2_split by lia. f_equal. unfold n. lia. }
  destruct (Z.le_gt_cases e1 eb) as [Hgrid | Hbelow].
  - (* the bound is on the grid of the result *)
    set (T := 2 ^ (eb - e1)).
    assert (HT : 0 < T) by (apply pow2_pos; lia).
    assert (HB : 2 ^ (eb + 2200) = T * (Q * P)).
    { rewrite <- HR. unfold T. rewrite <- pow2_split by lia. f_equal. lia. }
    rewrite HB in Hle |- *.
    assert (HmxN : Z.pos mx <= Z.pos mb * T * Q) by nia.
    set (N := Z.pos mb * T) in *.
    set (m1 := Z.pos mx / Q) in *.
    assert (Hdm : Z.pos mx = Q * m1 + Z.pos mx mod Q) by (apply Z.div_mod; lia).
    assert (Hmod : 0 <= Z.pos mx mod Q < Q) by (apply Z.mod_pos_bound; lia).
    assert (Hm2N : m2 <= N).
    { destruct Hm2 as [-> | [-> Hrest]]; nia. }
    assert (Hm20 : 0 <= m2).
    { assert (0 <= m1) by (apply Z.div_pos; lia). destruct Hm2 as [-> | [-> _]]; lia. }
    assert (Hm2max : m2 <= 2 ^ 53).
    { assert (m1 < 2 ^ 53).
      { apply Z.div_lt_upper_bound; [ assumption | ].
        unfold Q. rewrite <- pow2_split by lia.
        assert (2 ^ d <= 2 ^ (n + 53))
          by (apply Z.pow_le_mono_r; unfold n, e1, fexp64; fold d; lia).
        lia. }
      destruct Hm2 as [-> | [-> _]]; lia. }
    rewrite Hresult. unfold packed.
    destruct (Z.eqb_spec m2 0); [ now left | right ].
    destruct (Z.ltb_spec m2 (2 ^ 53)).
    + destruct (Z.leb_spec e1 971); [ | lia ].
      exists (Z.to_pos m2), e1. split; [ reflexivity | ].
      rewrite Z2Pos.id by lia. rewrite HR. fold N. nia.
    + assert (Hfull : m2 = 2 ^ 53) by lia.
      assert (HT2 : 2 <= T).
      { destruct (Z.eq_dec eb e1) as [Heq | Hne].
        - unfold N, T in Hm2N. rewrite Heq, Z.sub_diag in Hm2N. simpl in Hm2N. lia.
        - unfold T. change 2 with (2 ^ 1) at 1. apply Z.pow_le_mono_r; lia. }
      destruct (Z.leb_spec (e1 + 1) 971).
      * exists (Z.to_pos (2 ^ 52)), (e1 + 1). split; [ reflexivity | ].
        replace (e1 + 1 + 2200) with (1 + (e1 + 2200)) by lia.
        rewrite (pow2_split 1 (e1 + 2200)), HR by lia. fold N.
        change (Z.pos (Z.to_pos (2 ^ 52))) with (2 ^ 52). change (2 ^ 1) with 2.
        rewrite Hfull in Hm2N. nia.
      * assert (eb = e1) by lia. subst eb.
        unfold T in HT2. rewrite Z.sub_diag in HT2. simpl in HT2. lia.
  - (* a bound below the grid would be below the value itself *)
    exfalso.
    assert (He1d : e1 = d + ex - 53) by (unfold e1, fexp64 in *; fold d in He1 |- *; fold d; lia).
    assert (Hv : 2 ^ (d - 1) * P <= Z.pos mx * P) by nia.
    assert (HBhi : Z.pos mb * 2 ^ (eb + 2200) < 2 ^ 53 * 2 ^ (eb + 2200)).
    { apply Z.mul_lt_mono_pos_r; [ apply pow2_pos; lia | assumption ]. }
    assert (Hpow : 2 ^ 53 * 2 ^ (eb + 2200) <= 2 ^ (d - 1) * P).
    { unfold P. rewrite <- !pow2_split by lia. apply Z.pow_le_mono_r; lia. }
    lia.
Qed.

(** Rounding does not go below a float that the exact value is not
    below. *)
Lemma round_lower :
  scaled (Z.pos mb) eb <= scaled (Z.pos mx) ex ->
  result = S754_infinity s
  \/ exists m' e',
      result = S754_finite s m' e'
      /\ scaled (Z.pos mb) eb <= scaled (Z.pos m') e'.
Proof.
  intro Hle.
  destruct (binary_round_aux_exact s mx ex Hshift) as (m2 & Hm2 & Hresult & _).
  fold e1 in Hm2, Hresult. fold result in Hresult.
  destruct (bounded_facts mb eb Hb) as (Heb & Hmb & Hmb').
  pose proof (digits2_pos_bounds mx) as [Hlo Hhi].
  set (d := Z.pos (digits2_pos mx)) in *.
  set (n := e1 - ex) in *.
  assert (Hn : 0 <= n) by (unfold n; lia).
  assert (He1 : -1074 <= e1) by (unfold e1, fexp64; lia).
  unfold scaled in *.
  set (P := 2 ^ (ex + 2200)) in *.
  assert (HP : 0 < P) by (apply pow2_pos; lia).
  set (Q := 2 ^ n) in *.
  assert (HQ : 0 < Q) by (apply pow2_pos; lia).
  assert (HR : 2 ^ (e1 + 2200) = Q * P).
  { unfold Q, P. rewrite <- pow2_split by lia. f_equal. unfold n. lia. }
  set (m1 := Z.pos mx / Q) in *.
  assert (Hdm : Z.pos mx = Q * m1 + Z.pos mx mod Q) by (apply Z.div_mod; lia).
  assert (Hmod : 0 <= Z.pos mx mod Q < Q) by (apply Z.mod_pos_bound; lia).
  assert (Hm1 : 0 <= m1) by (apply Z.div_pos; lia).
  assert (Hm12 : m1 <= m2 <= m1 + 1) by (destruct Hm2 as [-> | [-> _]]; lia).
  assert (Hm1hi : m1 < 2 ^ 53).
  { apply Z.div_lt_upper_bound; [ assumption | ].
    unfold Q. rewrite <- pow2_split by lia.
    assert (2 ^ d <= 2 ^ (n + 53))
      by (apply Z.pow_le_mono_r; unfold n, e1, fexp64; fold d; lia).
    lia. }
  assert (Hvalue : Z.pos mb * 2 ^ (eb + 2200) <= m2 * (Q * P)).
  { destruct (Z.le_gt_cases e1 eb) as [Hgrid | Hbelow].
    - set (T := 2 ^ (eb - e1)).
      assert (HT : 0 < T) by (apply pow2_pos; lia).
      assert (HB : 2 ^ (eb + 2200) = T * (Q * P)).
      { rewrite <- HR. unfold T. rewrite <- pow2_split by lia. f_equal. lia. }
      rewrite HB in Hle |- *.
      assert (HNmx : Z.pos mb * T * Q <= Z.pos mx) by nia.
      assert (Z.pos mb * T <= m1) by nia.
      nia.
    - assert (He1d : e1 = d + ex - 53)
        by (unfold e1, fexp64 in *; fold d in He1 |- *; fold d; lia).
      assert (Hm1lo : 2 ^ 52 <= m1).
      { apply Z.div_le_lower_bound; [ assumption | ].
        unfold Q. rewrite <- pow2_split by lia.
        replace (n + 52) with (d - 1) by (unfold n; lia). assumption. }
      assert (HBhi : Z.pos mb * 2 ^ (eb + 2200) < 2 ^ 53 * 2 ^ (eb + 2200)).
      { apply Z.mul_lt_mono_pos_r; [ apply pow2_pos; lia | assumption ]. }
      assert (Hpow : 2 ^ 53 * 2 ^ (eb + 2200) <= 2 ^ 52 * (Q * P)).
      { rewrite <- HR, <- !pow2_split by lia. apply Z.pow_le_mono_r; lia. }
      nia. }
  assert (Hm2pos : 0 < m2) by nia.
  rewrite Hresult. unfold packed.
  destruct (Z.eqb_spec m2 0); [ lia | ].
  destruct (Z.ltb_spec m2 (2 ^ 53)).
  - destruct (Z.leb_spec e1 971); [ right | now left ].
    exists (Z.to_pos m2), e1. split; [ reflexivity | ].
    rewrite Z2Pos.id by lia. now rewrite HR.
  - destruct (Z.leb_spec (e1 + 1) 971); [ right | now left ].
    exists (Z.to_pos (2 ^ 52)), (e1 + 1). split; [ reflexivity | ].
    replace (e1 + 1 + 2200) with (1 + (e1 + 2200)) by lia.
    rewrite (pow2_split 1 (e1 + 2200)), HR by lia.
    change (Z.pos (Z.to_pos (2 ^ 52))) with (2 ^ 52). change (2 ^ 1) with 2.
    assert (m2 = 2 ^ 53) by lia. nia.
Qed.

End Grid.

Lemma iter_xO_value (m k : positive) :
  Z.pos (Pos.iter xO m k) = Z.pos m * 2 ^ Z.pos k.
Proof.
  change (Pos.iter xO m k) with (shift_pos k m).
  rewrite shift_pos_correct. change (2 ^ Z.pos k) with (Z.pow_pos 2 k). lia.
Qed.

Lemma digits_iter_xO (m k : positive) :
  Z.pos (digits2_pos (Pos.iter xO m k)) = Z.pos (digits2_pos m) + Z.pos k.
Proof.
  apply digits2_pos_unique. rewrite iter_xO_value.
  pose proof (digits2_pos_bounds m) as [Hlo Hhi].
  assert (Hk : 0 < 2 ^ Z.pos k) by (apply pow2_pos; lia).
  replace (Z.pos (digits2_pos m) + Z.pos k - 1)
    with ((Z.pos (digits2_pos m) - 1) + Z.pos k) by lia.
  rewrite !pow2_split by lia. nia.
Qed.

(** [binary_round] first aligns the mantissa, which keeps the value. *)
Lemma binary_round_aligned (s : bool) (m : positive) (e : Z) :
  -2200 <= e ->
  exists mz ez,
    binary_round prec emax s m e
    = binary_round_aux prec emax s (Z.pos mz) ez loc_Exact
    /\ ez <= fexp64 (Z.pos (digits2_pos mz) + ez)
    /\ -2200 <= ez <= e
    /\ scaled (Z.pos mz) ez = scaled (Z.pos m) e
    /\ (fexp64 (Z.pos (digits2_pos m) + e) <= e ->
        ez = fexp64 (Z.pos (digits2_pos mz) + ez)).
Proof.
  intro He. unfold binary_round, shl_align. rewrite fexp_fexp64.
  set (e' := fexp64 (Z.pos (digits2_pos m) + e)).
  destruct (e' - e) as [ | k | k ] eqn:Hdiff.
  - exists m, e. fold e'. repeat split; try lia.
  - exists m, e. fold e'. repeat split; try lia.
  - exists (Pos.iter xO m k), e'.
    assert (He' : -1074 <= e') by (unfold e', fexp64; lia).
    assert (Hd : fexp64 (Z.pos (digits2_pos (Pos.iter xO m k)) + e') = e').
    { rewrite digits_iter_xO.
      replace (Z.pos (digits2_pos m) + Z.pos k + e') with (Z.pos (digits2_pos m) + e) by lia.
      reflexivity. }
    repeat split; try lia.
    unfold scaled. rewrite iter_xO_value.
    replace (e + 2200) with (Z.pos k + (e' + 2200)) by lia.
    rewrite (pow2_split (Z.pos k) (e' + 2200)) by lia. ring.
Qed.

Lemma binary_round_valid (s : bool) (m : positive) (e : Z) :
  -2200 <= e -> valid_binary (binary_round prec emax s m e) = true.
Proof.
  intro He.
  destruct (binary_round_aligned s m e He) as (mz & ez & -> & Hshift & _).
  destruct (binary_round_aux_exact s mz ez Hshift) as (m2 & _ & -> & Hvalid).
  exact Hvalid.
Qed.

Lemma binary_round_upper (s : bool) (m mb : positive) (e eb : Z) :
  -2200 <= e ->
  bounded prec emax mb eb = true ->
  scaled (Z.pos m) e <= scaled (Z.pos mb) eb ->
  binary_round prec emax s m e = S754_zero s
  \/ exists m' e',
      binary_round prec emax s m e = S754_finite s m' e'
      /\ scaled (Z.pos m') e' <= scaled (Z.pos mb) eb.
Proof.
  intros He Hb Hle.
  destruct (binary_round_aligned s m e He) as (mz & ez & -> & Hshift & Hez & Hval & _).
  apply round_upper; try assumption; lia.
Qed.

Lemma binary_round_lower (s : bool) (m mb : positive) (e eb : Z) :
  -2200 <= e ->
  bounded prec emax mb eb = true ->
  scaled (Z.pos mb) eb <= scaled (Z.pos m) e ->
  binary_round prec emax s m e = S754_infinity s
  \/ exists m' e',
      binary_round prec emax s m e = S754_finite s m' e'
      /\ scaled (Z.pos mb) eb <= scaled (Z.pos m') e'.
Proof.
  intros He Hb Hle.
  destruct (binary_round_aligned s m e He) as (mz & ez & -> & Hshift & Hez & Hval & _).
  apply round_lower; try assumption; lia.
Qed.

(** A value that fits the format is not changed by rounding. *)
Lemma binary_round_exact (s : bool) (m : positive) (e : Z) :
  -2200 <= e <= 971 ->
  fexp64 (Z.pos (digits2_pos m) + e) <= e ->
  exists mz ez,
    binary_round prec emax s m e = S754_finite s mz ez
    /\ bounded prec emax mz ez = true
    /\ scaled (Z.pos mz) ez = scaled (Z.pos m) e.
Proof.
  intros He Hfits.
  destruct (binary_round_aligned s m e ltac:(lia))
    as (mz & ez & Hround & Hshift & Hez & Hval & Hexact).
  specialize (Hexact Hfits).
  destruct (binary_round_aux_exact s mz ez Hshift) as (m2 & Hm2 & Haux & Hvalid).
  rewrite <- Hexact, Z.sub_diag in Hm2. change (2 ^ 0) with 1 in Hm2.
  rewrite Z.div_1_r, Z.mod_1_r in Hm2.
  assert (m2 = Z.pos mz) by (destruct Hm2 as [-> | [_ Habs]]; [ reflexivity | contradiction ]).
  subst m2. rewrite <- Hexact in Haux, Hvalid.
  assert (Hsmall : Z.pos mz < 2 ^ 53).
  { pose proof (digits2_pos_bounds mz) as [_ Hhi].
    assert (2 ^ Z.pos (digits2_pos mz) <= 2 ^ 53)
      by (apply Z.pow_le_mono_r; unfold fexp64 in Hexact; lia).
    lia. }
  unfold packed in Haux, Hvalid.
  destruct (Z.eqb_spec (Z.pos mz) 0); [ lia | ].
  destruct (Z.ltb_spec (Z.pos mz) (2 ^ 53)); [ | lia ].
  destruct (Z.leb_spec ez 971); [ | lia ].
  exists mz, ez. rewrite Hround, Haux. repeat split; assumption.
Qed.

Lemma of_int_Prim2SF (n : Z) :
  Prim2SF (Go.of_int n) = binary_normalize prec emax n 0 false.
Proof.
  unfold Go.of_int. apply Prim2SF_SF2Prim.
  destruct n as [ | p | p ]; [ reflexivity | | ]; apply binary_round_valid; lia.
Qed.

(** An integer of at most 53 bits is a float. *)
Lemma of_int_exact (n : Z) :
  0 < n <= 2 ^ 53 ->
  exists m e,
    Prim2SF (Go.of_int n) = S754_finite false m e
    /\ bounded prec emax m e = true
    /\ scaled (Z.pos m) e = scaled n 0.
Proof.
  intros [Hpos Hmax]. rewrite of_int_Prim2SF.
  destruct (Z.eq_dec n (2 ^ 53)) as [-> | Hless].
  - exists (Z.to_pos (2 ^ 52)), 1. repeat split.
  - destruct n as [ | p | p ]; try lia.
    cbn [binary_normalize].
    apply binary_round_exact; [ lia | ].
    pose proof (digits_le p 53 ltac:(lia) ltac:(lia)). unfold fexp64. lia.
Qed.

Lemma Prim2SF_bounded (x : float) (s : bool) (m : positive) (e : Z) :
  Prim2SF x = S754_finite s m e -> bounded prec emax m e = true.
Proof.
  intro H. pose proof (Prim2SF_valid x) as Hv. rewrite H in Hv. exact Hv.
Qed.

(** The product of two floats is rounded from an exponent that is not
    above the one of its format. *)
Lemma mul_shift (mx my : positive) (ex ey : Z) :
  bounded prec emax mx ex = true ->
  bounded prec emax my ey = true ->
  ex + ey <= fexp64 (Z.pos (digits2_pos (mx * my)) + (ex + ey))
  /\ -2200 <= ex + ey.
Proof.
  intros Hx Hy.
  destruct (bounded_canonical mx ex Hx) as [Hcx _].
  destruct (bounded_canonical my ey Hy) as [Hcy _].
  pose proof (digits2_pos_bounds mx) as [Hlox _].
  pose proof (digits2_pos_bounds my) as [Hloy _].
  set (dx := Z.pos (digits2_pos mx)) in *. set (dy := Z.pos (digits2_pos my)) in *.
  assert (Hdx : 0 < dx) by (unfold dx; lia).
  assert (Hdy : 0 < dy) by (unfold dy; lia).
  assert (Hd : dx + dy - 2 < Z.pos (digits2_pos (mx * my))).
  { apply digits_gt; [ lia | ].
    replace (dx + dy - 2) with ((dx - 1) + (dy - 1)) by lia.
    rewrite pow2_split, Pos2Z.inj_mul by lia.
    assert (0 < 2 ^ (dx - 1)) by (apply pow2_pos; lia).
    assert (0 < 2 ^ (dy - 1)) by (apply pow2_pos; lia).
    nia. }
  unfold fexp64 in *. lia.
Qed.

Lemma scaled_mul (a b ea eb : Z) :
  -2200 <= ea -> -2200 <= eb -> -2200 <= ea + eb ->
  scaled (a * b) (ea + eb) * 2 ^ 2200 = scaled a ea * scaled b eb.
Proof.
  intros Ha Hb Hab. unfold scaled.
  transitivity (a * b * (2 ^ (ea + eb + 2200) * 2 ^ 2200)); [ ring | ].
  rewrite <- pow2_split by lia.
  replace (ea + eb + 2200 + 2200) with ((ea + 2200) + (eb + 2200)) by lia.
  rewrite pow2_split by lia. ring.
Qed.

Lemma Prim2SF_mul_finite (x y : float) (sx sy : bool) (mx my : positive) (ex ey : Z) :
  Prim2SF x = S754_finite sx mx ex ->
  Prim2SF y = S754_finite sy my ey ->
  Prim2SF (x * y)
  = binary_round_aux prec emax (xorb sx sy) (Z.pos (mx * my)) (ex + ey) loc_Exact.
Proof.
  intros Hx Hy. rewrite mul_spec, Hx, Hy. reflexivity.
Qed.

(** The integer part of a finite float, from its scaled value. *)
Lemma truncate_scaled (s : bool) (m : positive) (e : Z) :
  -2200 <= e ->
  Go.truncate (S754_finite s m e)
  = Some (if s then - (scaled (Z.pos m) e / 2 ^ 2200)
          else scaled (Z.pos m) e / 2 ^ 2200).
Proof.
  intro He. unfold Go.truncate, scaled.
  assert (Heq : (if 0 <=? e then Z.pos m * 2 ^ e else Z.pos m / 2 ^ (- e))
                = Z.pos m * 2 ^ (e + 2200) / 2 ^ 2200).
  { destruct (Z.leb_spec 0 e).
    - rewrite pow2_split by lia. rewrite Z.mul_assoc, Z.div_mul; [ reflexivity | ].
      apply Z.pow_nonzero; lia.
    - replace 2200 with ((e + 2200) + (- e)) at 2 by lia.
      rewrite (pow2_split (e + 2200) (- e)) by lia.
      rewrite (Z.mul_comm (2 ^ (e + 2200)) (2 ^ (- e))).
      rewrite Z.div_mul_cancel_r; [ reflexivity | | ]; apply Z.pow_nonzero; lia. }
  rewrite Heq. reflexivity.
Qed.

Lemma float_to_int_finite (arch : Go.Arch) (f : float) (m : positive) (e : Z) :
  Prim2SF f = S754_finite false m e ->
  scaled (Z.pos m) e / 2 ^ 2200 <= Go.int_max ->
  Go.float_to_int arch f = scaled (Z.pos m) e / 2 ^ 2200.
Proof.
  intros Hf Hmax. unfold Go.float_to_int. rewrite Hf.
  destruct (bounded_facts m e (Prim2SF_bounded f _ _ _ Hf)) as (He & _).
  rewrite truncate_scaled by lia.
  assert (0 <= scaled (Z.pos m) e / 2 ^ 2200).
  { apply Z.div_pos; [ | apply pow2_pos; lia ].
    unfold scaled. apply Z.mul_nonneg_nonneg; [ lia | ].
    apply Z.lt_le_incl, pow2_pos. lia. }
  destruct (Z.leb_spec Go.int_min (scaled (Z.pos m) e / 2 ^ 2200));
    [ | unfold Go.int_min in *; lia ].
  destruct (Z.leb_spec (scaled (Z.pos m) e / 2 ^ 2200) Go.int_max); [ reflexivity | lia ].
Qed.

Lemma float_to_int_negative (arch : Go.Arch) (f : float) :
  negative (Prim2SF f) -> Go.float_to_int arch f <= 0.
Proof.
  unfold Go.float_to_int. intro Hneg.
  pose proof (Prim2SF_valid f) as Hvalid.
  destruct (Prim2SF f) as [s | s | | s m e]; simpl in Hneg.
  - simpl. reflexivity || lia.
  - subst s. destruct arch; simpl; unfold Go.int_min; lia.
  - destruct arch; simpl; unfold Go.int_min; lia.
  - subst s. destruct (bounded_facts m e Hvalid) as (He & _).
    rewrite truncate_scaled by lia.
    assert (0 <= scaled (Z.pos m) e / 2 ^ 2200).
    { apply Z.div_pos; [ | apply pow2_pos; lia ].
      unfold scaled. apply Z.mul_nonneg_nonneg; [ lia | ].
      apply Z.lt_le_incl, pow2_pos. lia. }
    destruct (_ && _); [ lia | ].
    destruct arch; simpl; unfold Go.int_min; lia.
Qed.

(** What [binary_round_aux] can return, by the sign it is given. *)
Lemma binary_round_aux_sign (s : bool) (m e : Z) (l : location) :
  match binary_round_aux prec emax s m e l with
  | S754_zero s' | S754_infinity s' | S754_finite s' _ _ => s' = s
  | S754_nan => True
  end.
Proof.
  unfold binary_round_aux.
  destruct (shr_fexp prec emax m e l) as [mrs' e'].
  destruct (shr_fexp prec emax _ e' loc_Exact) as [mrs'' e''].
  destruct (shr_m mrs''); [ reflexivity | | exact I ].
  destruct (_ <=? _); reflexivity.
Qed.

Lemma binary_round_sign (s : bool) (m : positive) (e : Z) :
  match binary_round prec emax s m e with
  | S754_zero s' | S754_infinity s' | S754_finite s' _ _ => s' = s
  | S754_nan => True
  end.
Proof.
  unfold binary_round. destruct (shl_align m e _) as [mz ez].
  apply binary_round_aux_sign.
Qed.

Lemma shl_align_value (m : positive) (e e' : Z) :
  e' <= e -> Z.pos (fst (shl_align m e e')) = Z.pos m * 2 ^ (e - e').
Proof.
  intro Hle. unfold shl_align.
  destruct (e' - e) as [ | k | k ] eqn:Hdiff; try lia.
  - replace (e - e') with 0 by lia. simpl. lia.
  - simpl fst. rewrite iter_xO_value. f_equal. f_equal. lia.
Qed.

Lemma leb_zero_nonneg (q : float) :
  (0 <=? q)%float = true -> nonneg_or_nan (Prim2SF q).
Proof.
  rewrite leb_spec. change (Prim2SF 0) with (S754_zero false).
  destruct (Prim2SF q) as [s | [ | ] | | [ | ] m e]; simpl; try discriminate; reflexivity.
Qed.

Lemma div_nonneg (q d : float) (md : positive) (ed : Z) :
  Prim2SF d = S754_finite false md ed ->
  nonneg_or_nan (Prim2SF q) -> nonneg_or_nan (Prim2SF (q / d)).
Proof.
  intros Hd Hq. rewrite div_spec, Hd.
  destruct (Prim2SF q) as [s | s | | s m e]; simpl in Hq |- *; try subst s; try exact I;
    try reflexivity.
  unfold SF64div, SFdiv.
  destruct (SFdiv_core_binary prec emax (Z.pos m) e (Z.pos md) ed) as [[mz ez] lz].
  pose proof (binary_round_aux_sign (xorb false false) mz ez lz) as Hsign.
  destruct (binary_round_aux prec emax (xorb false false) mz ez lz); simpl; auto.
Qed.

Lemma one_minus_at_most_one (a : float) :
  nonneg_or_nan (Prim2SF a) -> at_most_one (Prim2SF (1 - a)).
Proof.
  intro Ha. pose proof (Prim2SF_valid a) as Hvalid.
  rewrite sub_spec.
  change (Prim2SF 1) with (S754_finite false 4503599627370496 (-52)).
  destruct (Prim2SF a) as [s | s | | s ma ea]; simpl in Ha; try subst s;
    try exact I.
  - simpl. unfold scaled. reflexivity || (vm_compute; discriminate).
  - unfold SF64sub, SFsub. cbn [cond_Zopp].
    destruct (bounded_facts ma ea Hvalid) as (Hea & _).
    set (ez := Z.min (-52) ea).
    assert (Hez : -1074 <= ez <= -52) by (unfold ez; lia).
    pose proof (shl_align_value 4503599627370496 (-52) ez ltac:(lia)) as H1.
    pose proof (shl_align_value ma ea ez ltac:(unfold ez; lia)) as H2.
    set (A1 := Z.pos (fst (shl_align 4503599627370496 (-52) ez))) in *.
    set (A2 := Z.pos (fst (shl_align ma ea ez))) in *.
    assert (HA2 : 0 < A2) by (unfold A2; lia).
    destruct (A1 - A2) as [ | p | p ] eqn:Hdiff; cbn [binary_normalize].
    + exact I.
    + assert (Hb1 : bounded prec emax 4503599627370496 (-52) = true) by reflexivity.
      assert (Hle : scaled (Z.pos p) ez <= scaled (Z.pos 4503599627370496) (-52)).
      { unfold scaled.
        assert (HA1 : A1 * 2 ^ (ez + 2200) = Z.pos 4503599627370496 * 2 ^ (-52 + 2200)).
        { rewrite H1, <- Z.mul_assoc, <- pow2_split by lia. f_equal. f_equal. lia. }
        rewrite <- HA1.
        apply Z.mul_le_mono_nonneg_r; [ apply Z.lt_le_incl, pow2_pos; lia | lia ]. }
      destruct (binary_round_upper false p _ ez _ ltac:(lia) Hb1 Hle)
        as [-> | (m' & e' & -> & Hm')]; [ exact I | ].
      simpl. etransitivity; [ exact Hm' | ]. vm_compute. discriminate.
    + pose proof (binary_round_sign true p ez) as Hsign.
      destruct (binary_round prec emax true p ez) as [s | s | | s m e];
        simpl; try subst s; exact I.
Qed.

Lemma negative_of_sign (s : bool) (m e : Z) (l : location) :
  negative (binary_round_aux prec emax true m e l).
Proof.
  pose proof (binary_round_aux_sign true m e l) as Hsign.
  destruct (binary_round_aux prec emax true m e l); simpl; auto.
Qed.

(** The product of an integer and a factor that is at most 1 converts to
    at most that integer. *)
Lemma float_to_int_scaled_down (arch : Go.Arch) (n : Z) (f : float) :
  0 <= n <= 2 ^ 53 ->
  at_most_one (Prim2SF f) ->
  Go.float_to_int arch (Go.of_int n * f) <= n.
Proof.
  intros Hn Hf. pose proof (Prim2SF_valid f) as Hvalid.
  destruct (Z.eq_dec n 0) as [-> | Hpos].
  - apply float_to_int_negative. rewrite mul_spec.
    change (Prim2SF (Go.of_int 0)) with (S754_zero false).
    destruct (Prim2SF f) as [s | s | | s m e]; exact I.
  - destruct (of_int_exact n ltac:(lia)) as (mn & en & Hof & Hbn & Hvn).
    destruct (Prim2SF f) as [s | s | | s mf ef] eqn:HPf.
    + etransitivity; [ apply float_to_int_negative | lia ].
      rewrite mul_spec, Hof, HPf. exact I.
    + destruct s; [ | contradiction ].
      etransitivity; [ apply float_to_int_negative | lia ].
      rewrite mul_spec, Hof, HPf. reflexivity.
    + etransitivity; [ apply float_to_int_negative | lia ].
      rewrite mul_spec, Hof, HPf. exact I.
    + destruct s.
      * etransitivity; [ apply float_to_int_negative | lia ].
        rewrite (Prim2SF_mul_finite _ _ _ _ _ _ _ _ Hof HPf).
        apply (negative_of_sign true).
      * cbn [at_most_one] in Hf. cbn [SpecFloat.valid_binary] in Hvalid.
        destruct (mul_shift mn mf en ef Hbn Hvalid) as [Hshift Hexp].
        destruct (bounded_facts mn en Hbn) as (Hen & _).
        destruct (bounded_facts mf ef Hvalid) as (Hef & _).
        assert (Hle : scaled (Z.pos (mn * mf)) (en + ef) <= scaled (Z.pos mn) en).
        { pose proof (scaled_mul (Z.pos mn) (Z.pos mf) en ef
                                 ltac:(lia) ltac:(lia) ltac:(lia)) as Hmul.
          rewrite <- Pos2Z.inj_mul in Hmul.
          assert (H2200 : 0 < 2 ^ 2200) by (apply pow2_pos; lia).
          assert (Hsn : 0 <= scaled (Z.pos mn) en).
          { unfold scaled. apply Z.mul_nonneg_nonneg; [ lia | ].
            apply Z.lt_le_incl, pow2_pos. lia. }
          assert (Hone : scaled 1 0 = 2 ^ 2200) by (unfold scaled; rewrite Z.mul_1_l; reflexivity).
          rewrite Hone in Hf.
          apply Z.mul_le_mono_pos_r with (p := 2 ^ 2200); [ assumption | ].
          rewrite Hmul. apply Z.mul_le_mono_nonneg_l; assumption. }
        pose proof (round_upper false (mn * mf) mn (en + ef) en Hexp Hshift Hbn Hle)
          as Hround.
        pose proof (Prim2SF_mul_finite _ _ _ _ _ _ _ _ Hof HPf) as Hspec.
        cbn [xorb] in Hspec. rewrite <- Hspec in Hround.
        destruct Hround as [Hzero | (m' & e' & Hfin & Hm')].
        -- etransitivity; [ apply float_to_int_negative | lia ].
           rewrite Hzero. exact I.
        -- assert (Hq : scaled (Z.pos m') e' / 2 ^ 2200 <= n).
           { assert (H2200 : 0 < 2 ^ 2200) by (apply pow2_pos; lia).
             apply Z.div_le_upper_bound; [ assumption | ].
             rewrite Hvn in Hm'. unfold scaled in Hm' at 2.
             rewrite Z.add_0_l in Hm'. lia. }
           rewrite (float_to_int_finite arch _ m' e' Hfin); [ exact Hq | ].
           unfold Go.int_max. lia.
Qed.


Lemma zero_div_float (t : float) :
  is_zero t = false -> is_nan t = false ->
  (0 / t = 0 \/ 0 / t = -0)%float.
Proof.
  unfold is_zero, is_nan. rewrite !eqb_spec. intros Hzero Hnan.
  assert (H : exists s, Prim2SF (0 / t) = S754_zero s).
  { rewrite div_spec. change (Prim2SF 0) with (S754_zero false).
    change (Prim2SF zero) with (S754_zero false) in Hzero.
    destruct (Prim2SF t) as [s | s | | s m e]; simpl in *; try discriminate;
      eexists; reflexivity. }
  destruct H as [[ | ] H]; [ right | left ]; apply Prim2SF_inj; rewrite H; reflexivity.
Qed.

Lemma factor_at_rest (t : float) :
  is_zero t = false -> is_nan t = false ->
  Go.Max 0 (1 - 0 / t)%float = 1%float.
Proof.
  intros Hzero Hnan.
  destruct (zero_div_float t Hzero Hnan) as [-> | ->]; reflexivity.
Qed.

Lemma four_fifths_bounds (n k U : Z) :
  0 < U -> 5 * k <= 4 * n < 5 * k + 5 -> 0 <= n <= 2 ^ 50 ->
  k * (9007199254740992 * U) <= n * 7205759403792794 * U
  /\ n * 7205759403792794 * U <= (8 * k + 7) * (1125899906842624 * U).
Proof.
  intros HU Hk Hn.
  assert (H1 : k * 9007199254740992 <= n * 7205759403792794) by lia.
  assert (H2 : n * 7205759403792794 <= (8 * k + 7) * 1125899906842624) by lia.
  split.
  - replace (k * (9007199254740992 * U)) with (k * 9007199254740992 * U) by ring.
    apply Z.mul_le_mono_nonneg_r; lia.
  - replace ((8 * k + 7) * (1125899906842624 * U))
      with ((8 * k + 7) * 1125899906842624 * U) by ring.
    apply Z.mul_le_mono_nonneg_r; lia.
Qed.

Lemma quotient_between (S k W : Z) :
  0 < W -> k * (8 * W) <= S -> S <= (8 * k + 7) * W -> S / (8 * W) = k.
Proof.
  intros HW Hlo Hhi. symmetry.
  apply Z.div_unique with (r := S - 8 * W * k); [ left | ring ].
  set (X := k * W) in *.
  replace (k * (8 * W)) with (8 * X) in Hlo by (unfold X; ring).
  replace ((8 * k + 7) * W) with (8 * X + 7 * W) in Hhi by (unfold X; ring).
  replace (8 * W * k) with (8 * X) by (unfold X; ring).
  lia.
Qed.

Lemma four_fifths (arch : Go.Arch) (n : Z) :
  0 <= n <= 2 ^ 50 ->
  Go.float_to_int arch (Go.of_int n * c0_8) = n * 4 / 5.
Proof.
  intros Hn.
  destruct (Z.eq_dec n 0) as [-> | Hn0]; [ destruct arch; reflexivity | ].
  destruct (Z.eq_dec n 1) as [-> | Hn1]; [ destruct arch; reflexivity | ].
  set (K := n * 4 / 5).
  assert (HK : 5 * K <= 4 * n < 5 * K + 5) by (unfold K; Z.div_mod_to_equations; lia).
  assert (HK1 : 1 <= K) by lia.
  assert (HKmax : 8 * K + 7 < 2 ^ 53) by lia.
  destruct (of_int_exact n ltac:(lia)) as (mn & en & Hof & Hbn & Hvn).
  assert (Hc : Prim2SF c0_8 = S754_finite false 7205759403792794 (-53)) by reflexivity.
  pose proof (Prim2SF_mul_finite _ _ _ _ _ _ _ _ Hof Hc) as Hspec. cbn [xorb] in Hspec.
  assert (Hbc : bounded prec emax 7205759403792794 (-53) = true) by reflexivity.
  destruct (mul_shift mn 7205759403792794 en (-53) Hbn Hbc) as [Hshift Hexp].
  destruct (bounded_facts mn en Hbn) as (Hen & _).
  (* the exact product *)
  set (v := scaled (Z.pos (mn * 7205759403792794)) (en + -53)) in *.
  set (U := 2 ^ 2147).
  assert (HU : 0 < U) by (apply pow2_pos; lia).
  assert (H2200 : 2 ^ 2200 = 9007199254740992 * U).
  { unfold U. change 9007199254740992 with (2 ^ 53).
    rewrite <- (pow2_split 53 2147) by lia. reflexivity. }
  assert (H2197 : 2 ^ 2197 = 1125899906842624 * U).
  { unfold U. change 1125899906842624 with (2 ^ 50).
    rewrite <- (pow2_split 50 2147) by lia. reflexivity. }
  assert (Hv : v = n * 7205759403792794 * U).
  { pose proof (scaled_mul (Z.pos mn) 7205759403792794 en (-53)
                           ltac:(lia) ltac:(lia) ltac:(lia)) as Hmul.
    rewrite <- Pos2Z.inj_mul in Hmul. fold v in Hmul.
    rewrite Hvn in Hmul. unfold scaled in Hmul.
    replace (-53 + 2200) with 2147 in Hmul by lia. fold U in Hmul.
    rewrite Z.add_0_l, H2200 in Hmul.
    apply Z.mul_reg_r with (p := 9007199254740992 * U); [ lia | ].
    rewrite Hmul. ring. }
  destruct (four_fifths_bounds n K U HU HK Hn) as [Hlo Hhi].
  rewrite <- Hv in Hlo, Hhi.
  (* the floats [K] and [K + 7/8] *)
  destruct K as [ | k | k ] eqn:HKeq; try lia.
  destruct (binary_round_exact false k 0 ltac:(lia)) as (m1 & e1 & _ & Hb1 & Hv1).
  { pose proof (digits_le k 53 ltac:(lia) ltac:(lia)). unfold fexp64. lia. }
  assert (Hk7 : exists k7, Z.pos k7 = 8 * Z.pos k + 7) by (exists (8 * k + 7)%positive; lia).
  destruct Hk7 as [k7 Hk7].
  destruct (binary_round_exact false k7 (-3) ltac:(lia)) as (m2 & e2 & _ & Hb2 & Hv2).
  { pose proof (digits_le k7 53 ltac:(lia) ltac:(lia)). unfold fexp64. lia. }
  assert (Hlow : scaled (Z.pos m1) e1 <= v).
  { rewrite Hv1. unfold scaled. rewrite Z.add_0_l, H2200. exact Hlo. }
  assert (Hhigh : v <= scaled (Z.pos m2) e2).
  { rewrite Hv2, Hk7. unfold scaled. replace (-3 + 2200) with 2197 by lia.
    rewrite H2197. exact Hhi. }
  destruct (round_lower false _ m1 _ e1 Hexp Hshift Hb1 Hlow) as [Hinf | (ml & el & Hl & Hml)];
    destruct (round_upper false _ m2 _ e2 Hexp Hshift Hb2 Hhigh) as [Hzero | (mu & eu & Hu & Hmu)];
    try congruence.
  rewrite Hl in Hu. injection Hu as <- <-.
  rewrite <- Hspec in Hl.
  assert (Hq : scaled (Z.pos ml) el / 2 ^ 2200 = Z.pos k).
  { rewrite Hv1 in Hml. rewrite Hv2, Hk7 in Hmu. unfold scaled in Hml, Hmu.
    rewrite Z.add_0_l in Hml. replace (-3 + 2200) with 2197 in Hmu by lia.
    rewrite H2200 in Hml |- *. rewrite H2197 in Hmu.
    replace (9007199254740992 * U) with (8 * (1125899906842624 * U)) in Hml |- * by ring.
    apply quotient_between; [ lia | exact Hml | exact Hmu ]. }
  rewrite (float_to_int_finite arch _ ml el Hl); [ exact Hq | ].
  rewrite Hq. unfold Go.int_max. lia.
Qed.

End Binary64Facts.

(* ================================================================= *)
(** ** The batch controller *)

Section Controller.

Import Binary64 Binary64Facts.

(** C5: whatever the metrics, and whatever the float computation gives, the
    batch size is between [MinBatchSize] and [MaxBatchSize]. *)
Theorem batch_size_within_bounds
        (arch : Go.Arch) (config : Config) (metrics : SystemMetrics) :
  MinBatchSize config <= MaxBatchSize config ->
  MinBatchSize config <= calculateDynamicBatchSize arch config metrics
                      <= MaxBatchSize config.
Proof.
  intro Hbounds. unfold calculateDynamicBatchSize.
  set (newBatchSize := Go.float_to_int _ _).
  destruct (Z.ltb_spec newBatchSize (MinBatchSize config)); [ lia | ].
  destruct (Z.ltb_spec (MaxBatchSize config) newBatchSize); lia.
Qed.

(** C5 on the default configuration, with the CPU at half its target and
    the memory above its target. *)
Lemma batch_size_within_bounds_example :
  MinBatchSize exampleConfig <= MaxBatchSize exampleConfig
  /\ MinBatchSize exampleConfig
     <= calculateDynamicBatchSize Go.amd64 exampleConfig (mkMetrics 35 90 20)
     <= MaxBatchSize exampleConfig.
Proof.
  split; [ vm_compute; discriminate | ].
  apply (batch_size_within_bounds Go.amd64 exampleConfig (mkMetrics 35 90 20)).
  vm_compute; discriminate.
Defined.

(** C6, as amended: for a queue load between 0 and 100 and a maximum
    interval that is not negative and not above [2^53] nanoseconds (so that
    [float64] holds it exactly), the period the ticker is reset to is between
    [MinBatchInterval] and [MaxBatchInterval]. *)
Theorem flush_interval_within_bounds
        (arch : Go.Arch) (config : Config) (metrics : SystemMetrics) :
  MinBatchInterval config <= MaxBatchInterval config ->
  0 <= MaxBatchInterval config <= 2 ^ 53 ->
  (0 <=? QueueLoad metrics)%float = true ->
  (QueueLoad metrics <=? 100)%float = true ->
  MinBatchInterval config <= flushInterval arch config metrics
                          <= MaxBatchInterval config.
Proof.
  intros Horder Hmax Hload0 Hload100. unfold flushInterval.
  set (interval := Go.float_to_int _ _).
  assert (Hupper : interval <= MaxBatchInterval config).
  { apply float_to_int_scaled_down; [ assumption | ].
    apply one_minus_at_most_one.
    apply (div_nonneg _ 100 7036874417766400 (-46) eq_refl).
    now apply leb_zero_nonneg. }
  destruct (Z.ltb_spec interval (MinBatchInterval config)); lia.
Qed.

(** C6 on the default configuration with the queue at 37.5%. *)
Lemma flush_interval_within_bounds_example :
  MinBatchInterval exampleConfig <= MaxBatchInterval exampleConfig
  /\ 0 <= MaxBatchInterval exampleConfig <= 2 ^ 53
  /\ (0 <=? 37.5)%float = true
  /\ (37.5 <=? 100)%float = true
  /\ MinBatchInterval exampleConfig
     <= flushInterval Go.amd64 exampleConfig (mkMetrics 0 0 37.5)
     <= MaxBatchInterval exampleConfig.
Proof.
  split; [ vm_compute; discriminate | ].
  split; [ split; vm_compute; discriminate | ].
  split; [ reflexivity | ]. split; [ reflexivity | ].
  apply (flush_interval_within_bounds Go.amd64 exampleConfig (mkMetrics 0 0 37.5)).
  - vm_compute; discriminate.
  - split; vm_compute; discriminate.
  - reflexivity.
  - reflexivity.
Defined.

(** C6 as stated fails: with [-maxInterval=9007199254740995ns] and an empty
    queue, [float64(MaxBatchInterval)] is [2^53 + 4], and so is the period,
    one nanosecond above the maximum; the worker sets its ticker to it on
    the first message. *)
Lemma flush_interval_above_maximum :
  MinBatchInterval configLongInterval <= MaxBatchInterval configLongInterval
  /\ (0 <=? 0)%float = true
  /\ (0 <=? 100)%float = true
  /\ MaxBatchInterval configLongInterval = 9007199254740995
  /\ flushInterval Go.amd64 configLongInterval (mkMetrics 0 0 0) = 9007199254740996
  /\ flushInterval Go.arm64 configLongInterval (mkMetrics 0 0 0) = 9007199254740996
  /\ option_map ticker
       (match startWorker configLongInterval [] with
        | Some st0 =>
            run Go.amd64 configLongInterval (answers (Response 201 (BodyJson Json.Null)))
                st0 [Offer (publishOf "a"); Receive idleProbe]
        | None => None
        end)
     = Some (Some 9007199254740996).
Proof.
  split; [ vm_compute; discriminate | ].
  repeat split.
Qed.

(** C9, as amended: with the three metrics at 0, targets that are neither
    zero nor NaN, and a maximum batch size of at most [2^50], the batch size
    is [floor (max * 4 / 5)] whenever that value is between [MinBatchSize]
    and [MaxBatchSize]. *)
Theorem batch_size_at_rest (arch : Go.Arch) (config : Config) :
  is_zero (TargetCPUPercent config) = false ->
  is_nan (TargetCPUPercent config) = false ->
  is_zero (TargetMemPercent config) = false ->
  is_nan (TargetMemPercent config) = false ->
  MaxBatchSize config <= 2 ^ 50 ->
  MinBatchSize config <= MaxBatchSize config * 4 / 5 <= MaxBatchSize config ->
  calculateDynamicBatchSize arch config (mkMetrics 0 0 0)
  = MaxBatchSize config * 4 / 5.
Proof.
  intros Hcz Hcn Hmz Hmn Hmax Hwithin. unfold calculateDynamicBatchSize.
  cbn [CPUUsage MemoryUsage QueueLoad].
  rewrite (factor_at_rest _ Hcz Hcn), (factor_at_rest _ Hmz Hmn).
  change (1 * c0_4 + 1 * c0_4 + Go.Min 1 (0 / 50) * c0_2)%float with c0_8.
  set (n := MaxBatchSize config) in *.
  assert (Hsize : Go.float_to_int arch (Go.of_int n * c0_8) = n * 4 / 5
                  \/ (n < 0 /\ n < Go.float_to_int arch (Go.of_int n * c0_8))).
  { destruct (Z.le_gt_cases 0 n) as [Hpos | Hneg].
    - left. apply four_fifths. lia.
    - right. split; [ assumption | ].
      assert (Hcases : n = -1 \/ n = -2 \/ n = -3 \/ n = -4)
        by (Z.div_mod_to_equations; lia).
      destruct Hcases as [-> | [-> | [-> | ->]]]; destruct arch; reflexivity. }
  destruct Hsize as [-> | [Hneg Habove]].
  - destruct (Z.ltb_spec (n * 4 / 5) (MinBatchSize config)); [ lia | ].
    destruct (Z.ltb_spec n (n * 4 / 5)); [ lia | reflexivity ].
  - assert (Hfloor : n * 4 / 5 = n) by (Z.div_mod_to_equations; lia).
    destruct (Z.ltb_spec (Go.float_to_int arch (Go.of_int n * c0_8)) (MinBatchSize config));
      [ lia | ].
    destruct (Z.ltb_spec n (Go.float_to_int arch (Go.of_int n * c0_8))); lia.
Qed.

(** C9 on the default configuration: 160 of 200. *)
Lemma batch_size_at_rest_example :
  is_zero (TargetCPUPercent exampleConfig) = false
  /\ is_nan (TargetCPUPercent exampleConfig) = false
  /\ is_zero (TargetMemPercent exampleConfig) = false
  /\ is_nan (TargetMemPercent exampleConfig) = false
  /\ MaxBatchSize exampleConfig <= 2 ^ 50
  /\ MinBatchSize exampleConfig <= 160 <= MaxBatchSize exampleConfig
  /\ calculateDynamicBatchSize Go.amd64 exampleConfig (mkMetrics 0 0 0) = 160.
Proof.
  split; [ reflexivity | ]. split; [ reflexivity | ].
  split; [ reflexivity | ]. split; [ reflexivity | ].
  split; [ vm_compute; discriminate | ].
  split; [ split; vm_compute; discriminate | ].
  apply (batch_size_at_rest Go.amd64 exampleConfig).
  - reflexivity.
  - reflexivity.
  - reflexivity.
  - reflexivity.
  - vm_compute; discriminate.
  - split; vm_compute; discriminate.
Defined.

(** C9 as stated fails.  With [-targetCPU=0] the CPU factor is [0/0], the
    conversion of NaN falls below the minimum on both architectures, and the
    batch size is 10, not 160.  With [-maxBatchSize=2814749767106561] the
    product is rounded to a multiple of one half and the batch size is one
    above [floor (max * 4 / 5)]. *)
Lemma batch_size_at_rest_is_not_four_fifths :
  MinBatchSize configTargetZero <= MaxBatchSize configTargetZero * 4 / 5
                                <= MaxBatchSize configTargetZero
  /\ MaxBatchSize configTargetZero * 4 / 5 = 160
  /\ calculateDynamicBatchSize Go.amd64 configTargetZero (mkMetrics 0 0 0) = 10
  /\ calculateDynamicBatchSize Go.arm64 configTargetZero (mkMetrics 0 0 0) = 10
  /\ MinBatchSize configHugeBatch <= MaxBatchSize configHugeBatch * 4 / 5
                                  <= MaxBatchSize configHugeBatch
  /\ MaxBatchSize configHugeBatch * 4 / 5 = 2251799813685248
  /\ calculateDynamicBatchSize Go.amd64 configHugeBatch (mkMetrics 0 0 0)
     = 2251799813685249
  /\ calculateDynamicBatchSize Go.arm64 configHugeBatch (mkMetrics 0 0 0)
     = 2251799813685249.
Proof.
  split; [ split; vm_compute; discriminate | ].
  split; [ reflexivity | ]. split; [ reflexivity | ]. split; [ reflexivity | ].
  split; [ split; vm_compute; discriminate | ].
  repeat split.
Qed.

End Controller.

(* ================================================================= *)
(** ** The egress worker, and the shutdown of the process *)

Section Delivery.

Variable arch : Go.Arch.
Variable config : Config.
Variable up : Upstream.
Variable log0 : list HttpRequest.

Lemma FlushBatch_appends (log : list HttpRequest) (b : list Message) :
  FlushBatch config up log b = log ++ [batchRequest config b].
Proof. reflexivity. Qed.

Lemma accounted_flush (st st' : WorkerState) (sent b : list Message) :
  accounted config log0 st sent ->
  b <> [] ->
  posted st' = FlushBatch config up (posted st) b ->
  pending st = b ++ pending st' ->
  accounted config log0 st' sent.
Proof.
  intros (batches & Hposted & Hnonempty & Hsent) Hb Hposted' Hpending.
  exists (batches ++ [b]). repeat split.
  - rewrite Hposted', FlushBatch_appends, Hposted, map_app, <- app_assoc. reflexivity.
  - apply Forall_app. split; [ assumption | now constructor ].
  - rewrite concat_app. simpl. rewrite app_nil_r, <- app_assoc, <- Hpending. assumption.
Qed.

Lemma accounted_keep (st st' : WorkerState) (sent extra : list Message) :
  accounted config log0 st sent ->
  posted st' = posted st ->
  pending st' = pending st ++ extra ->
  accounted config log0 st' (sent ++ extra).
Proof.
  intros (batches & Hposted & Hnonempty & Hsent) Hposted' Hpending.
  exists batches. repeat split; try assumption.
  - now rewrite Hposted'.
  - rewrite Hpending, app_assoc, Hsent. reflexivity.
Qed.

Lemma len_positive {A} (l : list A) : (0 <? Go.len l) = true -> l <> [].
Proof. destruct l; discriminate. Qed.

Lemma accounted_onMessage (st : WorkerState) (msg : Message) (rest sent : list Message)
      (probe : Probe) :
  returned st = false ->
  accounted config log0
            (mkWorker (batch st) (msg :: rest) (queueClosed st) (ticker st)
                      (posted st) false) sent ->
  accounted config log0 (onMessage arch config up st msg rest probe) sent.
Proof.
  intros Hrunning Hacc. unfold onMessage.
  destruct (_ <=? _).
  - eapply accounted_flush with (b := batch st ++ [msg]); [ exact Hacc | | reflexivity | ].
    + destruct (batch st); discriminate.
    + unfold pending. simpl. rewrite Hrunning, <- app_assoc. reflexivity.
  - destruct Hacc as (batches & Hposted & Hnonempty & Hsent).
    exists batches. repeat split; try assumption.
    unfold pending in *. simpl in *. rewrite Hrunning, <- app_assoc. exact Hsent.
Qed.

Lemma step_accounted (st st' : WorkerState) (ev : Event) (sent : list Message) :
  step arch config up st ev = Some st' ->
  accounted config log0 st sent ->
  accounted config log0 st' (sent ++ offered [ev]).
Proof.
  unfold step. destruct (returned st) eqn:Hrunning; [ discriminate | ].
  destruct ev as [msg | msg probe | probe | | ]; simpl offered.
  - destruct (queueClosed st); [ discriminate | ].
    destruct (_ <? _); [ | discriminate ].
    intros [= <-] Hacc. eapply accounted_keep; [ exact Hacc | reflexivity | ].
    unfold pending. simpl. rewrite Hrunning, app_assoc. reflexivity.
  - destruct (queueClosed st); [ discriminate | ].
    destruct (MaxQueueSize config =? 0); [ | discriminate ].
    destruct (queue st) as [ | m q] eqn:Hqueue; [ | discriminate ].
    destruct (Codec.is_empty_list (during probe)); [ | discriminate ].
    intros [= <-] Hacc. apply accounted_onMessage; [ assumption | ].
    eapply accounted_keep; [ exact Hacc | reflexivity | ].
    unfold pending. simpl. rewrite Hrunning, Hqueue, app_nil_r. reflexivity.
  - destruct (queue st) as [ | msg rest] eqn:Hqueue; [ discriminate | ].
    destruct (queueClosed st && _); [ discriminate | ].
    destruct (_ <=? _); [ | discriminate ].
    intros [= <-] Hacc. rewrite app_nil_r. apply accounted_onMessage; [ assumption | ].
    eapply accounted_keep; [ exact Hacc | reflexivity | ].
    unfold pending. simpl. rewrite Hrunning, Hqueue, <- app_assoc. reflexivity.
  - intros [= <-] Hacc. rewrite app_nil_r. unfold onTick.
    destruct (0 <? Go.len (batch st)) eqn:Hlen; [ | assumption ].
    eapply accounted_flush with (b := batch st);
      [ exact Hacc | now apply len_positive | reflexivity | ].
    unfold pending. simpl. now rewrite Hrunning.
  - intros [= <-] Hacc. rewrite app_nil_r. unfold onDone.
    destruct (0 <? Go.len (batch st ++ queue st)) eqn:Hlen.
    + eapply accounted_flush with (b := batch st ++ queue st);
        [ exact Hacc | now apply len_positive | reflexivity | ].
      unfold pending. simpl. now rewrite Hrunning, app_nil_r.
    + destruct Hacc as (batches & Hposted & Hnonempty & Hsent).
      exists batches. repeat split; try assumption.
      unfold pending in *. simpl. rewrite Hrunning in Hsent.
      destruct (batch st ++ queue st); [ assumption | discriminate ].
Qed.

Lemma offered_app (evs evs' : list Event) :
  offered (evs ++ evs') = offered evs ++ offered evs'.
Proof.
  induction evs as [ | [msg | msg probe | probe | | ] evs IH]; simpl;
    rewrite ?IH, ?app_assoc; reflexivity.
Qed.

Lemma run_accounted (evs : list Event) :
  forall (st st' : WorkerState) (sent : list Message),
    run arch config up st evs = Some st' ->
    accounted config log0 st sent ->
    accounted config log0 st' (sent ++ offered evs).
Proof.
  induction evs as [ | ev evs IH]; intros st st' sent Hrun Hacc.
  - injection Hrun as <-. now rewrite app_nil_r.
  - simpl in Hrun. destruct (step arch config up st ev) as [st1 | ] eqn:Hstep;
      [ | discriminate ].
    change (ev :: evs) with ([ev] ++ evs). rewrite offered_app, app_assoc.
    eapply IH; [ exact Hrun | ]. eapply step_accounted; eassumption.
Qed.

Lemma startWorker_accounted (st : WorkerState) :
  startWorker config log0 = Some st ->
  accounted config log0 st [] /\ returned st = false.
Proof.
  unfold startWorker. destruct (_ || _); [ discriminate | ].
  intros [= <-]. split; [ | reflexivity ].
  exists []. repeat split; [ simpl; now rewrite app_nil_r | constructor ].
Qed.

(** What the upstream reads from the body of a batch: the messages of the
    batch, without their limits and with their strings as the decoder
    delivers them. *)
Lemma payloadMessages_batchRequest (b : list Message) :
  payloadMessages (batchRequest config b)
  = Some (map (fun m => withoutLimit (coerced m)) b).
Proof.
  unfold payloadMessages, batchRequest, Codec.marshalMessages. cbn [Payload].
  apply unmarshalMessageList_marshalMessage.
Qed.

(** The shutdown case of the worker, in whatever state it is taken. *)
Lemma onDone_delivers (st : WorkerState) (sent : list Message) :
  returned st = false ->
  accounted config log0 st sent ->
  step arch config up st Done = Some (onDone config up st)
  /\ posted (onDone config up st)
     = posted st
         ++ (if Codec.is_empty_list (batch st ++ queue st) then []
             else [batchRequest config (batch st ++ queue st)])
  /\ exists batches,
      posted (onDone config up st) = log0 ++ map (batchRequest config) batches
      /\ Forall (fun b => b <> []) batches
      /\ List.concat batches = sent.
Proof.
  intros Hrunning Hacc.
  assert (Hstep : step arch config up st Done = Some (onDone config up st)).
  { unfold step. now rewrite Hrunning. }
  split; [ exact Hstep | ]. split.
  - unfold onDone. simpl. destruct (batch st ++ queue st); [ | reflexivity ].
    simpl. now rewrite app_nil_r.
  - pose proof (step_accounted st _ Done _ Hstep Hacc) as (batches & Hp & Hne & Hsent).
    exists batches. repeat split; try assumption.
    simpl in Hsent. unfold pending in Hsent. simpl in Hsent.
    now rewrite !app_nil_r in Hsent.
Qed.

(** *** The process around the worker *)

Lemma processStep_accounted (p p' : ProcessState) (e : ProcessEvent)
      (sent : list Message) :
  processStep arch config up p e = Some p' ->
  ending p' = None ->
  accounted config log0 (worker p) sent ->
  accounted config log0 (worker p') (sent ++ offered (workerEvents [e])).
Proof.
  unfold processStep. destruct (ending p); [ discriminate | ].
  destruct e as [ev | | | | ].
  - destruct ev as [msg | msg probe | probe | | ]; try discriminate;
      (destruct (queueClosed (worker p));
       [ try discriminate; intros [= <-]; discriminate | ]);
      (destruct (step arch config up (worker p) _) as [w | ] eqn:Hstep;
       [ | discriminate ]);
      intros [= <-] _ Hacc; exact (step_accounted _ _ _ _ Hstep Hacc).
  - destruct (doneClosed p); [ discriminate | ].
    intros [= <-] _ Hacc. cbn [worker workerEvents offered]. now rewrite app_nil_r.
  - destruct (_ && _) eqn:Hcond; [ | discriminate ].
    apply andb_prop in Hcond as [_ Hrunning]. apply negb_true_iff in Hrunning.
    intros [= <-] _ (batches & Hposted & Hnonempty & Hsent).
    cbn [worker workerEvents offered]. rewrite app_nil_r.
    exists batches. repeat split; try assumption.
    unfold pending, shutdownDrain in *.
    cbn [returned batch queue]. rewrite Hrunning in *. now rewrite app_nil_r.
  - destruct (queueClosed (worker p)); [ | discriminate ].
    destruct (step arch config up (worker p) Done) as [w | ] eqn:Hstep;
      [ | discriminate ].
    intros [= <-] _ Hacc. exact (step_accounted _ _ _ _ Hstep Hacc).
  - destruct (doneClosed p); [ | discriminate ].
    intros [= <-]. discriminate.
Qed.

Lemma processStep_running (p p' : ProcessState) (e : ProcessEvent) :
  processStep arch config up p e = Some p' -> ending p = None.
Proof.
  unfold processStep. destruct (ending p); [ discriminate | reflexivity ].
Qed.

(** As long as the process has not ended, the messages sent on the queue
    are accounted for. *)
Lemma runProcess_accounted (evs : list ProcessEvent) :
  forall p p' sent,
    runProcess arch config up p evs = Some p' ->
    ending p' = None ->
    accounted config log0 (worker p) sent ->
    accounted config log0 (worker p') (sent ++ offered (workerEvents evs)).
Proof.
  induction evs as [ | e evs IH]; intros p p' sent Hrun Hending Hacc.
  - injection Hrun as <-. cbn [workerEvents offered]. now rewrite app_nil_r.
  - simpl in Hrun.
    destruct (processStep arch config up p e) as [p1 | ] eqn:Hstep; [ | discriminate ].
    assert (Hp1 : ending p1 = None).
    { destruct evs as [ | e' evs'].
      - now injection Hrun as <-.
      - simpl in Hrun.
        destruct (processStep arch config up p1 e') as [p2 | ] eqn:Hstep';
          [ | discriminate ].
        exact (processStep_running _ _ _ Hstep'). }
    pose proof (processStep_accounted _ _ _ _ Hstep Hp1 Hacc) as Hacc1.
    pose proof (IH _ _ _ Hrun Hending Hacc1) as Hacc'.
    rewrite <- app_assoc in Hacc'.
    replace (offered (workerEvents (e :: evs)))
      with (offered (workerEvents [e]) ++ offered (workerEvents evs)); [ exact Hacc' | ].
    destruct e; cbn [workerEvents app]; try reflexivity.
    change (ev :: workerEvents evs) with ([ev] ++ workerEvents evs).
    now rewrite offered_app.
Qed.

(** C3, on the code: a clean shutdown can drop messages.  The signal closes
    [done] and the listener; from then on [main] and the worker race.  When
    the worker runs its shutdown case to the end, it closes the queue, moves
    what the queue holds behind its batch, posts that once if it is not
    empty, stops the ticker and returns; the posted batches, none of them
    empty, then carry in their bodies exactly the messages whose send on
    the queue completed, each once and in order.  But nothing makes [main]
    wait for that.  When [main] returns before the worker has posted, be it
    before the worker takes its shutdown case or in the middle of it, the
    process ends with the requests made so far: nothing more is posted, and
    the messages the worker holds in its batch and in the queue are in no
    request. *)
Theorem clean_shutdown_can_drop_messages
        (evs : list ProcessEvent) (p0 p : ProcessState) :
  startProcess config log0 = Some p0 ->
  runProcess arch config up p0 evs = Some p ->
  doneClosed p = true ->
  ending p = None ->
  returned (worker p) = false ->
  (exists p',
      processStep arch config up p MainReturns = Some p'
      /\ ending p' = Some Exited
      /\ (forall e, processStep arch config up p' e = None)
      /\ posted (worker p') = posted (worker p)
      /\ exists batches,
          posted (worker p') = log0 ++ map (batchRequest config) batches
          /\ List.concat batches ++ batch (worker p) ++ queue (worker p)
             = offered (workerEvents evs))
  /\ (queueClosed (worker p) = false ->
      exists p1 p2,
        processStep arch config up p Shutdown = Some p1
        /\ ending p1 = None
        /\ queueClosed (worker p1) = true
        /\ returned (worker p1) = false
        /\ posted (worker p1) = posted (worker p)
        /\ batch (worker p1) ++ queue (worker p1) = batch (worker p) ++ queue (worker p)
        /\ processStep arch config up p1 LastFlush = Some p2
        /\ ending p2 = None
        /\ returned (worker p2) = true
        /\ queue (worker p2) = []
        /\ ticker (worker p2) = None
        /\ posted (worker p2)
           = posted (worker p)
               ++ (if Codec.is_empty_list (batch (worker p) ++ queue (worker p)) then []
                   else [batchRequest config (batch (worker p) ++ queue (worker p))])
        /\ exists batches,
            posted (worker p2) = log0 ++ map (batchRequest config) batches
            /\ Forall (fun b => b <> []
                                /\ payloadMessages (batchRequest config b)
                                   = Some (map (fun m => withoutLimit (coerced m)) b))
                      batches
            /\ List.concat batches = offered (workerEvents evs)).
Proof.
  intros Hstart Hrun Hdone Hending Hrunning.
  unfold startProcess in Hstart.
  destruct (startWorker config log0) as [w0 | ] eqn:Hw0; [ | discriminate ].
  injection Hstart as <-.
  destruct (startWorker_accounted w0 Hw0) as [Hacc0 _].
  pose proof (runProcess_accounted evs _ _ [] Hrun Hending Hacc0) as Hacc.
  simpl in Hacc.
  split.
  - exists (mkProcess (worker p) true (Some Exited)).
    split; [ unfold processStep; now rewrite Hending, Hdone | ].
    cbn [worker ending].
    repeat split.
    destruct Hacc as (batches & Hp & _ & Hsent).
    exists batches. split; [ exact Hp | ].
    unfold pending in Hsent. now rewrite Hrunning in Hsent.
  - intros Hopen.
    set (p1 := mkProcess (shutdownDrain (worker p)) true None).
    assert (Hstep1 : processStep arch config up p Shutdown = Some p1).
    { unfold processStep. now rewrite Hending, Hdone, Hopen, Hrunning. }
    assert (Hacc1 : accounted config log0 (worker p1) (offered (workerEvents evs))).
    { pose proof (processStep_accounted _ _ _ _ Hstep1 eq_refl Hacc) as H.
      cbn [workerEvents offered] in H. now rewrite app_nil_r in H. }
    assert (Hrunning1 : returned (worker p1) = false) by exact Hrunning.
    destruct (onDone_delivers (worker p1) _ Hrunning1 Hacc1)
      as (Hstep & Hposted & batches & Hp & Hne & Hsent).
    exists p1, (mkProcess (onDone config up (worker p1)) true None).
    split; [ exact Hstep1 | ].
    split; [ reflexivity | ]. split; [ reflexivity | ]. split; [ exact Hrunning | ].
    split; [ reflexivity | ].
    split; [ cbn [p1 worker shutdownDrain batch queue]; now rewrite app_nil_r | ].
    split; [ unfold processStep; cbn [p1 ending worker shutdownDrain queueClosed];
             cbn [p1 worker shutdownDrain] in Hstep; now rewrite Hstep | ].
    split; [ reflexivity | ]. split; [ reflexivity | ]. split; [ reflexivity | ].
    split; [ reflexivity | ].
    split.
    { cbn [worker]. rewrite Hposted.
      cbn [p1 worker shutdownDrain batch queue posted]. now rewrite !app_nil_r. }
    exists batches. cbn [worker]. repeat split; try assumption.
    clear - Hne. induction Hne as [ | b bs Hb _ IH]; constructor; [ | exact IH ].
    split; [ exact Hb | apply payloadMessages_batchRequest ].
Qed.

End Delivery.

(** C3 on the default configuration: three sends, one receive and a tick
    have left two messages with the worker when the signal comes.  If the
    worker then runs its shutdown case to the end, its two posts together
    carry the three messages; if [main] returns first, the process ends
    after one post and the two messages are lost. *)
Lemma clean_shutdown_can_drop_messages_example :
  exists p0 p,
    startProcess exampleConfig [] = Some p0
    /\ runProcess Go.amd64 exampleConfig accepting p0 shutdownEvents = Some p
    /\ doneClosed p = true
    /\ ending p = None
    /\ returned (worker p) = false
    /\ batch (worker p) ++ queue (worker p) = [publishOf "b"; publishOf "c"]
    /\ posted (worker p) = [batchRequest exampleConfig [publishOf "a"]]
    /\ (exists p',
           processStep Go.amd64 exampleConfig accepting p MainReturns = Some p'
           /\ ending p' = Some Exited
           /\ (forall e, processStep Go.amd64 exampleConfig accepting p' e = None)
           /\ posted (worker p') = posted (worker p)
           /\ exists batches,
               posted (worker p') = [] ++ map (batchRequest exampleConfig) batches
               /\ List.concat batches ++ batch (worker p) ++ queue (worker p)
                  = offered (workerEvents shutdownEvents))
    /\ (queueClosed (worker p) = false ->
        exists p1 p2,
          processStep Go.amd64 exampleConfig accepting p Shutdown = Some p1
          /\ ending p1 = None
          /\ queueClosed (worker p1) = true
          /\ returned (worker p1) = false
          /\ posted (worker p1) = posted (worker p)
          /\ batch (worker p1) ++ queue (worker p1)
             = batch (worker p) ++ queue (worker p)
          /\ processStep Go.amd64 exampleConfig accepting p1 LastFlush = Some p2
          /\ ending p2 = None
          /\ returned (worker p2) = true
          /\ queue (worker p2) = []
          /\ ticker (worker p2) = None
          /\ posted (worker p2)
             = posted (worker p)
                 ++ (if Codec.is_empty_list (batch (worker p) ++ queue (worker p))
                     then []
                     else [batchRequest exampleConfig
                             (batch (worker p) ++ queue (worker p))])
          /\ exists batches,
              posted (worker p2) = [] ++ map (batchRequest exampleConfig) batches
              /\ Forall (fun b => b <> []
                                  /\ payloadMessages (batchRequest exampleConfig b)
                                     = Some (map (fun m => withoutLimit (coerced m)) b))
                        batches
              /\ List.concat batches = offered (workerEvents shutdownEvents)).
Proof.
  eexists. eexists.
  split; [ reflexivity | ].
  split; [ vm_compute; reflexivity | ].
  split; [ reflexivity | ].
  split; [ reflexivity | ].
  split; [ reflexivity | ].
  split; [ reflexivity | ].
  split; [ reflexivity | ].
  eapply (clean_shutdown_can_drop_messages Go.amd64 exampleConfig accepting []
            shutdownEvents).
  - reflexivity.
  - vm_compute; reflexivity.
  - reflexivity.
  - reflexivity.
  - reflexivity.
Defined.

(* ================================================================= *)
(** ** The options no operation reads *)

Lemma sameButUnused_usedOptions (c1 c2 : Config) :
  sameButUnused c1 c2 -> usedOptions c1 = usedOptions c2.
Proof.
  intros (H1 & H2 & H3 & H4 & H5 & H6 & H7 & H8 & H9 & H10 & H11).
  unfold usedOptions. congruence.
Qed.

Section Unused.

Variable typeErrorText : Json.value -> string.
Variable marshalAny : Json.value -> string.
Variable arch : Go.Arch.
Variable up : Upstream.

Lemma step_usedOptions (c : Config) (st : WorkerState) (ev : Event) :
  step arch c up st ev = step arch (usedOptions c) up st ev.
Proof. destruct c; reflexivity. Qed.

Lemma run_usedOptions (c : Config) (evs : list Event) :
  forall st, run arch c up st evs = run arch (usedOptions c) up st evs.
Proof.
  induction evs as [ | ev evs IH]; intro st; [ reflexivity | ].
  simpl. rewrite <- step_usedOptions.
  destruct (step arch c up st ev); [ apply IH | reflexivity ].
Qed.

Lemma ProcessMessage_usedOptions (c : Config) (st : HandlerState) (msg : Message) :
  ProcessMessage typeErrorText marshalAny c up st msg
  = ProcessMessage typeErrorText marshalAny (usedOptions c) up st msg.
Proof. destruct c; reflexivity. Qed.

Lemma HandleConnection_usedOptions (c : Config) (input : list Decoded) :
  forall st,
    HandleConnection typeErrorText marshalAny c up input st
    = HandleConnection typeErrorText marshalAny (usedOptions c) up input st.
Proof.
  induction input as [ | d input IH]; intro st; [ reflexivity | ].
  destruct d as [ | err | v]; simpl; [ reflexivity | reflexivity | ].
  destruct (Codec.unmarshalMessage v) as [msg | ]; [ | apply IH ].
  destruct (ValidateClientContext (Context msg)); [ apply IH | ].
  rewrite <- ProcessMessage_usedOptions. apply IH.
Qed.

(** C10: two configurations that differ only in [FlushInterval],
    [BatchSize] and [ScaleFactor] give the same batch size, the same flush
    interval, the same metrics, the same requests, the same worker from its
    start (whose ticker begins at [MinBatchInterval]) through every event,
    and the same handling of every message and connection. *)
Theorem unused_options_do_not_matter (c1 c2 : Config) :
  sameButUnused c1 c2 ->
  (forall metrics,
      calculateDynamicBatchSize arch c1 metrics
      = calculateDynamicBatchSize arch c2 metrics)
  /\ (forall metrics, flushInterval arch c1 metrics = flushInterval arch c2 metrics)
  /\ (forall probe n, getSystemMetrics c1 probe n = getSystemMetrics c2 probe n)
  /\ (forall log b, FlushBatch c1 up log b = FlushBatch c2 up log b)
  /\ (forall log, startWorker c1 log = startWorker c2 log)
  /\ (forall log st, startWorker c1 log = Some st ->
                     ticker st = Some (MinBatchInterval c1))
  /\ (forall st ev, step arch c1 up st ev = step arch c2 up st ev)
  /\ (forall st evs, run arch c1 up st evs = run arch c2 up st evs)
  /\ (forall st msg,
         ProcessMessage typeErrorText marshalAny c1 up st msg
         = ProcessMessage typeErrorText marshalAny c2 up st msg)
  /\ (forall input st,
         HandleConnection typeErrorText marshalAny c1 up input st
         = HandleConnection typeErrorText marshalAny c2 up input st).
Proof.
  intro Hsame. apply sameButUnused_usedOptions in Hsame.
  assert (Hc1 : forall metrics,
             calculateDynamicBatchSize arch c1 metrics
             = calculateDynamicBatchSize arch (usedOptions c1) metrics)
    by (destruct c1; reflexivity).
  assert (Hc2 : forall metrics,
             calculateDynamicBatchSize arch c2 metrics
             = calculateDynamicBatchSize arch (usedOptions c2) metrics)
    by (destruct c2; reflexivity).
  repeat split.
  - intro metrics. now rewrite Hc1, Hc2, Hsame.
  - intro metrics.
    transitivity (flushInterval arch (usedOptions c1) metrics);
      [ destruct c1; reflexivity | rewrite Hsame; destruct c2; reflexivity ].
  - intros probe n.
    transitivity (getSystemMetrics (usedOptions c1) probe n);
      [ destruct c1; reflexivity | rewrite Hsame; destruct c2; reflexivity ].
  - intros log b.
    transitivity (FlushBatch (usedOptions c1) up log b);
      [ destruct c1; reflexivity | rewrite Hsame; destruct c2; reflexivity ].
  - intro log.
    transitivity (startWorker (usedOptions c1) log);
      [ destruct c1; reflexivity | rewrite Hsame; destruct c2; reflexivity ].
  - intros log st. unfold startWorker. destruct (_ || _); [ discriminate | ].
    now intros [= <-].
  - intros st ev. now rewrite (step_usedOptions c1), (step_usedOptions c2), Hsame.
  - intros st evs. now rewrite (run_usedOptions c1), (run_usedOptions c2), Hsame.
  - intros st msg.
    now rewrite (ProcessMessage_usedOptions c1), (ProcessMessage_usedOptions c2), Hsame.
  - intros input st.
    now rewrite (HandleConnection_usedOptions c1), (HandleConnection_usedOptions c2), Hsame.
Qed.

End Unused.

(** C10 on the default configuration and the one that sets
    [-flushInterval=1ns -batchSize=99 -scaleFactor=2]: the same batch size,
    the same ticker at the start, the same run of the worker. *)
Lemma unused_options_do_not_matter_example :
  sameButUnused exampleConfig exampleConfigOtherUnused
  /\ calculateDynamicBatchSize Go.amd64 exampleConfig (mkMetrics 35 90 20)
     = calculateDynamicBatchSize Go.amd64 exampleConfigOtherUnused (mkMetrics 35 90 20)
  /\ option_map ticker (startWorker exampleConfigOtherUnused [])
     = Some (Some 100000000)
  /\ (forall st,
         run Go.amd64 exampleConfig (answers (Response 201 (BodyJson Json.Null)))
             st exampleEvents
         = run Go.amd64 exampleConfigOtherUnused
               (answers (Response 201 (BodyJson Json.Null))) st exampleEvents).
Proof.
  assert (Hsame : sameButUnused exampleConfig exampleConfigOtherUnused)
    by (repeat split).
  destruct (unused_options_do_not_matter someTypeErrorText someMarshalAny Go.amd64
              (answers (Response 201 (BodyJson Json.Null)))
              exampleConfig exampleConfigOtherUnused Hsame)
    as (Hsize & _ & _ & _ & _ & _ & _ & Hrun & _).
  split; [ exact Hsame | ].
  split; [ apply Hsize | ].
  split; [ reflexivity | ].
  intro st. apply Hrun.
Defined.

(* ================================================================= *)
(** * Further properties *)

(* ================================================================= *)
(** ** The connection handler over a whole stream *)

Section Stream.

Variable typeErrorText : Json.value -> string.
Variable marshalAny : Json.value -> string.
Variable config : Config.
Variable up : Upstream.

Local Abbreviation handle := (HandleConnection typeErrorText marshalAny config up).
Local Abbreviation process := (ProcessMessage typeErrorText marshalAny config up).

(** *** Decoding *)

Lemma unmarshalMembers_app {A} (set : A -> string -> Json.value -> option A)
      (a b : list (string * Json.value)) :
  forall acc,
    Codec.unmarshalMembers set (a ++ b) acc
    = match Codec.unmarshalMembers set a acc with
      | Some acc' => Codec.unmarshalMembers set b acc'
      | None => None
      end.
Proof.
  induction a as [ | [k v] a IH]; intro acc; [ reflexivity | ].
  simpl. destruct (set acc k v); [ apply IH | reflexivity ].
Qed.

Lemma unmarshalMembers_invariant {A} (set : A -> string -> Json.value -> option A)
      (P : A -> Prop) :
  (forall acc k v acc', P acc -> set acc k v = Some acc' -> P acc') ->
  forall ms acc r,
    P acc -> Codec.unmarshalMembers set ms acc = Some r -> P r.
Proof.
  intros Hset. induction ms as [ | [k v] ms IH]; intros acc r Hacc.
  - now intros [= <-].
  - simpl. destruct (set acc k v) as [acc' | ] eqn:E; [ | discriminate ].
    apply IH. exact (Hset _ _ _ _ Hacc E).
Qed.

Lemma setContextField_Limit (c c' : MessageContext * list string)
      (k : string) (v : Json.value) :
  Codec.setContextField c k v = Some c' -> Limit (fst c') = Limit (fst c).
Proof.
  unfold Codec.setContextField.
  destruct (Json.equalFold k "tags");
    [ destruct (Codec.unmarshalSlice _ _ _ _); simpl; [ now intros [= <-] | discriminate ] | ].
  destruct (Json.equalFold k "wait");
    [ destruct (Codec.unmarshalBool v _); simpl; [ now intros [= <-] | discriminate ] | ].
  destruct (Json.equalFold k "entity");
    [ destruct (Codec.unmarshalString v _); simpl; [ now intros [= <-] | discriminate ] | ].
  now intros [= <-].
Qed.

Lemma unmarshalContext_Limit (v : Json.value) (c c' : MessageContext * list string) :
  Codec.unmarshalContext v c = Some c' -> Limit (fst c') = Limit (fst c).
Proof.
  destruct v; simpl; try discriminate; [ now intros [= <-] | ].
  apply (unmarshalMembers_invariant Codec.setContextField
           (fun x => Limit (fst x) = Limit (fst c))); [ | reflexivity ].
  intros acc k v acc' Hacc Hset.
  rewrite <- Hacc. exact (setContextField_Limit _ _ _ _ Hset).
Qed.

Lemma setMessageField_Limit (m m' : Message * list string) (k : string) (v : Json.value) :
  Codec.setMessageField m k v = Some m' ->
  Limit (Context (fst m')) = Limit (Context (fst m)).
Proof.
  unfold Codec.setMessageField. cbv zeta.
  destruct (Json.equalFold k "data");
    [ destruct (Codec.unmarshalString v _); simpl; [ now intros [= <-] | discriminate ] | ].
  destruct (Json.equalFold k "context").
  { destruct (Codec.unmarshalContext v _) as [c | ] eqn:E; simpl; [ | discriminate ].
    intros [= <-]. simpl. exact (unmarshalContext_Limit _ _ _ E). }
  destruct (Json.equalFold k "msg_type");
    [ destruct (Codec.unmarshalString v _); simpl; [ now intros [= <-] | discriminate ] | ].
  destruct (Json.equalFold k "dest");
    [ destruct (Codec.unmarshalString v _); simpl; [ now intros [= <-] | discriminate ] | ].
  destruct (Json.equalFold k "timestamp");
    [ destruct (Codec.unmarshalString v _); simpl; [ now intros [= <-] | discriminate ] | ].
  now intros [= <-].
Qed.

(** No JSON value gives a decoded message a limit. *)
Lemma unmarshalMessage_Limit (v : Json.value) (msg : Message) :
  Codec.unmarshalMessage v = Some msg -> Limit (Context msg) = None.
Proof.
  unfold Codec.unmarshalMessage.
  destruct (Codec.unmarshalInto v (zeroMessage, [])) as [cell | ] eqn:E;
    [ | discriminate ].
  intros [= <-]. revert E. unfold Codec.unmarshalInto.
  destruct v; try discriminate; [ now intros [= <-] | ].
  apply (unmarshalMembers_invariant Codec.setMessageField
           (fun x => Limit (Context (fst x)) = None)); [ | reflexivity ].
  intros acc k v acc' Hacc Hset.
  rewrite <- Hacc. exact (setMessageField_Limit _ _ _ _ Hset).
Qed.

Lemma decodedMessages_Limit (input : list Decoded) :
  Forall (fun msg => Limit (Context msg) = None) (decodedMessages input).
Proof.
  induction input as [ | [ | err | v] input IH]; simpl; try constructor.
  destruct (Codec.unmarshalMessage v) as [msg | ] eqn:E; [ | assumption ].
  constructor; [ exact (unmarshalMessage_Limit _ _ E) | assumption ].
Qed.

(** *** One message *)

Lemma ProcessMessage_fireAndForget (st : HandlerState) (msg : Message) :
  fireAndForget msg = true ->
  process st msg
  = mkHandler (written st) (enqueued st ++ [msg]) (requests st) (connClosed st).
Proof.
  unfold fireAndForget. intros H.
  apply andb_prop in H as [H Hwait]. apply andb_prop in H as [_ Htype].
  apply String.eqb_eq in Htype. apply negb_true_iff in Hwait.
  unfold ProcessMessage. rewrite Htype, Hwait. reflexivity.
Qed.

(** What a message that is not sent on the queue leaves behind: one write,
    and the request of [requestOf]. *)
Lemma ProcessMessage_answered (st : HandlerState) (msg : Message) :
  Limit (Context msg) = None ->
  (10 <? Go.len (Tags (Context msg))) = false ->
  fireAndForget msg = false ->
  exists reply,
    process st msg
    = mkHandler (written st ++ [reply]) (enqueued st)
                (requests st ++ requestOf config msg) (connClosed st).
Proof.
  intros Hlimit Htags Hq.
  unfold fireAndForget in Hq. rewrite Htags in Hq. simpl in Hq.
  unfold requestOf. rewrite Htags.
  unfold ProcessMessage. rewrite Hlimit.
  destruct (String.eqb (MsgType msg) "msg_check") eqn:Hcheck.
  - pose proof (checkMessage_logs_request typeErrorText config up (requests st) 1) as Hlog.
    destruct (checkMessage typeErrorText config up (requests st) 1) as [result log'].
    simpl in Hlog. subst log'.
    destruct result as [messages | err].
    + destruct (Go.len messages =? 0); eexists; reflexivity.
    + eexists; reflexivity.
  - destruct (String.eqb (MsgType msg) "publish") eqn:Hpub; simpl in *.
    + apply negb_false_iff in Hq. rewrite Hq.
      unfold sendSingleMessage, client_Do.
      destruct (up (requests st) (singleRequest config msg)) as [err | code [v | err]];
        eexists; reflexivity.
    + eexists. unfold sendErrorResponse, connWrite. simpl.
      now rewrite app_nil_r.
Qed.

Lemma sendErrorResponse_frame (st : HandlerState) (err : string) :
  exists reply,
    sendErrorResponse st err
    = mkHandler (written st ++ [reply]) (enqueued st) (requests st) (connClosed st).
Proof. eexists. reflexivity. Qed.

(** *** A whole stream *)

(** The effect of a stream on the handler, read off the decoded messages. *)
Lemma HandleConnection_effect (input : list Decoded) :
  forall st,
    let st' := handle input st in
    enqueued st' = enqueued st ++ filter fireAndForget (decodedMessages input)
    /\ requests st' = requests st ++ flat_map (requestOf config) (decodedMessages input)
    /\ Go.len (written st')
       = Go.len (written st)
         + Go.len (filter (fun msg => negb (fireAndForget msg)) (decodedMessages input))
    /\ exists replies, written st' = written st ++ replies.
Proof.
  induction input as [ | [ | err | v] input IH]; intro st; simpl.
  - rewrite !app_nil_r. repeat split; [ unfold Go.len; simpl; lia | ].
    exists []. now rewrite app_nil_r.
  - rewrite !app_nil_r. repeat split; [ unfold Go.len; simpl; lia | ].
    exists []. now rewrite app_nil_r.
  - rewrite !app_nil_r. repeat split; [ unfold Go.len; simpl; lia | ].
    exists []. now rewrite app_nil_r.
  - destruct (Codec.unmarshalMessage v) as [msg | ] eqn:Hv; [ | apply IH ].
    pose proof (unmarshalMessage_Limit _ _ Hv) as Hlimit.
    unfold ValidateClientContext.
    destruct (10 <? Go.len (Tags (Context msg))) eqn:Htags.
    + assert (Hq : fireAndForget msg = false)
        by (unfold fireAndForget; now rewrite Htags).
      assert (Hr : requestOf config msg = [])
        by (unfold requestOf; now rewrite Htags).
      simpl. rewrite Hq, Hr. simpl.
      destruct (IH (sendErrorResponse st "too many tags provided; maximum is 10"))
        as (He & Hreq & Hlen & replies & Hw).
      simpl in He, Hreq, Hlen, Hw.
      repeat split; try assumption.
      * rewrite Hlen. unfold Go.len. rewrite !length_app. simpl. lia.
      * rewrite Hw, <- app_assoc. eexists. reflexivity.
    + simpl. destruct (fireAndForget msg) eqn:Hq.
      * rewrite (ProcessMessage_fireAndForget st msg Hq).
        assert (Hr : requestOf config msg = []).
        { unfold requestOf. rewrite Htags. unfold fireAndForget in Hq.
          rewrite Htags in Hq. simpl in Hq.
          apply andb_prop in Hq as [Htype Hwait].
          apply String.eqb_eq in Htype. apply negb_true_iff in Hwait.
          now rewrite Htype, Hwait. }
        rewrite Hr. simpl.
        destruct (IH (mkHandler (written st) (enqueued st ++ [msg]) (requests st)
                                (connClosed st)))
          as (He & Hreq & Hlen & Hw).
        simpl in He, Hreq, Hlen, Hw.
        repeat split; try assumption.
        rewrite He, <- app_assoc. reflexivity.
      * destruct (ProcessMessage_answered st msg Hlimit Htags Hq) as [reply Hp].
        rewrite Hp. simpl.
        destruct (IH (mkHandler (written st ++ [reply]) (enqueued st)
                                (requests st ++ requestOf config msg) (connClosed st)))
          as (He & Hreq & Hlen & replies & Hw).
        simpl in He, Hreq, Hlen, Hw.
        repeat split; try assumption.
        -- rewrite Hreq, <- app_assoc. reflexivity.
        -- rewrite Hlen. unfold Go.len. rewrite !length_app. simpl. lia.
        -- rewrite Hw, <- app_assoc. eexists. reflexivity.
Qed.


(** *** The stream as a whole *)

(** X3: a member for the field [data] whose value is not a string (and not
    [null]) makes the whole object undecodable, whatever else it holds, in
    whatever order and however the key is capitalised: [Decode] reports a
    type error, the loop prints it and goes on with the next value.  The
    client gets no reply and nothing is queued or sent upstream. *)
Theorem data_that_is_not_a_string_is_dropped
        (pre post : list (string * Json.value)) (k : string) (v : Json.value)
        (rest : list Decoded) (st : HandlerState) :
  Json.equalFold k "data" = true ->
  Json.kind v <> "string" ->
  Json.kind v <> "null" ->
  Codec.unmarshalMessage (Json.Object (pre ++ (k, v) :: post)) = None
  /\ handle (DecodeValue (Json.Object (pre ++ (k, v) :: post)) :: rest) st
     = handle rest st.
Proof.
  intros Hk Hstr Hnull.
  assert (Hnone : Codec.unmarshalMessage (Json.Object (pre ++ (k, v) :: post)) = None).
  { unfold Codec.unmarshalMessage, Codec.unmarshalInto.
    rewrite unmarshalMembers_app.
    destruct (Codec.unmarshalMembers Codec.setMessageField pre (zeroMessage, []))
      as [acc | ]; [ | reflexivity ].
    cbn [Codec.unmarshalMembers]. unfold Codec.setMessageField. cbv zeta. rewrite Hk.
    destruct v; simpl; try reflexivity; simpl in Hstr, Hnull; congruence. }
  split; [ exact Hnone | ].
  cbn [HandleConnection]. now rewrite Hnone.
Qed.


(** X6: the requests a handler makes upstream follow from the decoded
    messages alone: one [GET .../entities/check_messages?limit=1] for each
    [msg_check] and one [POST .../entities/message] for each publish that
    asks for the response (both with at most ten tags), in the order of the
    stream, and nothing else.  No client input makes a handler poll with
    another limit or post a batch. *)
Theorem requests_of_a_handler (input : list Decoded) (st : HandlerState) :
  requests (handle input st)
  = requests st ++ flat_map (requestOf config) (decodedMessages input)
  /\ Forall (fun r => r = checkRequest config 1
                      \/ exists msg, r = singleRequest config msg
                                     /\ MsgType msg = "publish"
                                     /\ WaitResponse (Context msg) = true)
            (flat_map (requestOf config) (decodedMessages input)).
Proof.
  destruct (HandleConnection_effect input st) as (_ & Hreq & _).
  split; [ exact Hreq | ].
  apply Forall_flat_map. apply Forall_forall. intros msg _.
  unfold requestOf.
  destruct (10 <? _); [ constructor | ].
  destruct (String.eqb (MsgType msg) "msg_check");
    [ constructor; [ now left | constructor ] | ].
  destruct (String.eqb (MsgType msg) "publish") eqn:Htype; simpl;
    [ | constructor ].
  destruct (WaitResponse (Context msg)) eqn:Hwait; [ | constructor ].
  constructor; [ | constructor ]. right. exists msg.
  apply String.eqb_eq in Htype. now repeat split.
Qed.

End Stream.

(* ================================================================= *)
(** ** From the client to the upstream *)

Section Pipeline.

Variable typeErrorText : Json.value -> string.
Variable marshalAny : Json.value -> string.
Variable arch : Go.Arch.
Variable config : Config.
Variable up : Upstream.

Local Abbreviation handle := (HandleConnection typeErrorText marshalAny config up).
Local Abbreviation process := (ProcessMessage typeErrorText marshalAny config up).

Lemma marshalMessage_withoutLimit (m : Message) :
  Codec.marshalMessage (withoutLimit m) = Codec.marshalMessage m.
Proof. reflexivity. Qed.

Lemma marshalMessages_withoutLimit (ms : list Message) :
  Codec.marshalMessages (map withoutLimit ms) = Codec.marshalMessages ms.
Proof.
  unfold Codec.marshalMessages. rewrite map_map. reflexivity.
Qed.

Lemma withoutLimit_id (m : Message) :
  Limit (Context m) = None -> withoutLimit m = m.
Proof.
  destruct m as [data [tags limit wait entity] type dest time]. simpl.
  now intros ->.
Qed.

Lemma map_withoutLimit_id (ms : list Message) :
  Forall (fun m => Limit (Context m) = None) ms -> map withoutLimit ms = ms.
Proof.
  induction 1 as [ | m ms Hm _ IH]; [ reflexivity | ].
  simpl. now rewrite (withoutLimit_id m Hm), IH.
Qed.

Lemma decodedMessages_clientSends (ms : list Message) :
  decodedMessages (map clientSends ms) = map (fun m => withoutLimit (coerced m)) ms.
Proof.
  induction ms as [ | m ms IH]; [ reflexivity | ].
  cbn [map clientSends decodedMessages].
  now rewrite unmarshalMessage_marshalMessage, IH.
Qed.

(** What the decoder has delivered, it delivers again as it is. *)
Lemma coerced_coerced (m : Message) : coerced (coerced m) = coerced m.
Proof.
  unfold coerced. cbn [Data Context MsgType Destination Timestamp Tags Limit
                        WaitResponse Entity].
  rewrite !coerce_coerce, map_map.
  f_equal. f_equal. apply map_ext. intro t. apply coerce_coerce.
Qed.

Lemma delivered_again (ms : list Message) :
  map (fun m => withoutLimit (coerced m)) (map (fun m => withoutLimit (coerced m)) ms)
  = map (fun m => withoutLimit (coerced m)) ms.
Proof.
  rewrite map_map. apply map_ext. intro m.
  change (coerced (withoutLimit (coerced m))) with (withoutLimit (coerced (coerced m))).
  now rewrite coerced_coerced.
Qed.

Lemma app_same_length {A} (a a' b b' : list A) :
  List.length a = List.length a' -> a ++ b = a' ++ b' -> a = a' /\ b = b'.
Proof.
  revert a'. induction a as [ | x a IH]; intros [ | x' a'] Hlen H;
    try discriminate; [ now split | ].
  injection H as -> H. injection Hlen as Hlen.
  destruct (IH a' Hlen H) as [-> ->]. now split.
Qed.

Lemma map_id_concat_inv {A} (f : A -> A) (ls : list (list A)) :
  map f (List.concat ls) = List.concat ls -> Forall (fun l => map f l = l) ls.
Proof.
  induction ls as [ | l ls IH]; [ constructor | ].
  simpl. rewrite map_app. intro H.
  apply app_same_length in H; [ | apply length_map ].
  destruct H as [Hl Hls]. constructor; [ exact Hl | exact (IH Hls) ].
Qed.

Lemma filter_all {A} (f : A -> bool) (l : list A) :
  forallb f l = true -> filter f l = l.
Proof.
  induction l as [ | x l IH]; [ reflexivity | ].
  simpl. intros H. apply andb_prop in H as [Hx Hl].
  now rewrite Hx, (IH Hl).
Qed.

Lemma filter_none {A} (f : A -> bool) (l : list A) :
  forallb f l = true -> filter (fun x => negb (f x)) l = [].
Proof.
  induction l as [ | x l IH]; [ reflexivity | ].
  simpl. intros H. apply andb_prop in H as [Hx Hl].
  now rewrite Hx, (IH Hl).
Qed.

Lemma fireAndForget_delivered (m : Message) :
  fireAndForget m = true -> fireAndForget (withoutLimit (coerced m)) = true.
Proof.
  unfold fireAndForget. intros H.
  apply andb_prop in H as [H Hwait]. apply andb_prop in H as [Htags Htype].
  apply String.eqb_eq in Htype.
  cbn [withoutLimit coerced Context Tags MsgType WaitResponse].
  rewrite Htype, Hwait.
  unfold Go.len in *. rewrite length_map, Htags. reflexivity.
Qed.

Lemma forallb_fireAndForget_delivered (ms : list Message) :
  forallb fireAndForget ms = true ->
  forallb fireAndForget (map (fun m => withoutLimit (coerced m)) ms) = true.
Proof.
  induction ms as [ | m ms IH]; [ reflexivity | ].
  simpl. intros H. apply andb_prop in H as [Hm Hms].
  now rewrite (fireAndForget_delivered m Hm), (IH Hms).
Qed.

Lemma flat_map_nil {A B} (f : A -> list B) (l : list A) :
  (forall x, In x l -> f x = []) -> flat_map f l = [].
Proof.
  induction l as [ | x l IH]; [ reflexivity | ].
  intros H. simpl. rewrite (H x (or_introl eq_refl)). simpl.
  apply IH. intros y Hy. apply H. now right.
Qed.

Lemma requestOf_fireAndForget (msg : Message) :
  fireAndForget msg = true -> requestOf config msg = [].
Proof.
  unfold fireAndForget, requestOf. intros H.
  apply andb_prop in H as [H Hwait]. apply andb_prop in H as [Htags Htype].
  apply negb_true_iff in Htags, Hwait. apply String.eqb_eq in Htype.
  now rewrite Htags, Htype, Hwait.
Qed.

Lemma Forall_concat_inv {A} (P : A -> Prop) (ls : list (list A)) :
  Forall P (List.concat ls) -> Forall (Forall P) ls.
Proof.
  induction ls as [ | l ls IH]; [ constructor | ].
  simpl. intros H. apply Forall_app in H as [Hl Hls].
  constructor; [ exact Hl | exact (IH Hls) ].
Qed.

(** X7: from the client to the upstream.  A client writes publishes that do
    not ask for the response, each with at most ten tags; the handler
    answers none of them and makes no request of its own, and its sends on
    the queue are what the worker receives.  Then, once the worker has taken
    the shutdown case, the requests it has made are batches, none empty,
    whose bodies decode to the batches themselves and which together are the
    client's messages as the decoder delivers them (their limits apart,
    which are not encoded, and with [U+FFFD] for a byte that is no valid
    UTF-8), each once and in the order the client wrote them; for messages
    that are valid UTF-8 they are the client's messages, their limits
    apart. *)
Theorem publishes_reach_the_upstream_in_order
        (ms : list Message) (hlog log : list HttpRequest)
        (evs : list Event) (st0 st st' : WorkerState) :
  forallb fireAndForget ms = true ->
  offered evs = enqueued (handle (map clientSends ms) (newHandler hlog)) ->
  startWorker config log = Some st0 ->
  run arch config up st0 evs = Some st ->
  step arch config up st Done = Some st' ->
  written (handle (map clientSends ms) (newHandler hlog)) = []
  /\ requests (handle (map clientSends ms) (newHandler hlog)) = hlog
  /\ exists batches,
      posted st' = log ++ map (batchRequest config) batches
      /\ Forall (fun b => b <> []
                          /\ payloadMessages (batchRequest config b) = Some b) batches
      /\ List.concat batches = map (fun m => withoutLimit (coerced m)) ms
      /\ (forallb validMessage ms = true -> List.concat batches = map withoutLimit ms).
Proof.
  intros Hms Hoffered Hstart Hrun Hdone.
  destruct (HandleConnection_effect typeErrorText marshalAny config up
              (map clientSends ms) (newHandler hlog))
    as (He & Hreq & Hlen & replies & Hw).
  rewrite decodedMessages_clientSends in He, Hreq, Hlen.
  assert (Hall : forallb fireAndForget (map (fun m => withoutLimit (coerced m)) ms) = true)
    by now apply forallb_fireAndForget_delivered.
  rewrite (filter_all _ _ Hall) in He. rewrite (filter_none _ _ Hall) in Hlen.
  simpl in He, Hreq, Hlen, Hw.
  split.
  { destruct (written _) as [ | w ws]; [ reflexivity | ].
    unfold Go.len in Hlen. simpl in Hlen. lia. }
  split.
  { rewrite Hreq, flat_map_nil; [ apply app_nil_r | ].
    intros m Hm. apply requestOf_fireAndForget.
    rewrite forallb_forall in Hall. now apply Hall. }
  destruct (startWorker_accounted config log st0 Hstart) as [Hacc0 _].
  pose proof (run_accounted arch config up log evs st0 st [] Hrun Hacc0) as Hacc.
  pose proof (step_accounted arch config up log st st' Done _ Hdone Hacc)
    as (batches & Hp & Hne & Hsent).
  assert (Hret : returned st' = true).
  { unfold step in Hdone. destruct (returned st); [ discriminate | ].
    now injection Hdone as <-. }
  unfold pending in Hsent. rewrite Hret in Hsent.
  simpl in Hsent. rewrite !app_nil_r in Hsent.
  rewrite Hoffered, He in Hsent.
  exists batches.
  split; [ exact Hp | ]. split; [ | split; [ exact Hsent | ] ].
  2: { intro Hvalid. rewrite Hsent, <- (map_map coerced withoutLimit ms).
       now rewrite (map_coerced_valid ms Hvalid). }
  pose proof (delivered_again ms) as Hagain. rewrite <- Hsent in Hagain.
  apply map_id_concat_inv in Hagain.
  clear - Hne Hagain. induction Hne as [ | b bs Hb _ IH]; [ constructor | ].
  inversion Hagain as [ | ? ? Hb' Hbs']; subst.
  constructor; [ | exact (IH Hbs') ].
  split; [ exact Hb | ].
  unfold payloadMessages, batchRequest. cbn [Payload].
  unfold Codec.marshalMessages.
  now rewrite unmarshalMessageList_marshalMessage, Hb'.
Qed.

(** X8: a poll relays what the upstream holds.  When the upstream answers a
    poll with 200 and the encoding of one message or more, the handler writes
    the encoding of the same messages on the connection, once, with their
    strings as the decoder delivers them: for messages that are valid UTF-8,
    nothing of them is lost or added by the decoding and encoding in
    between. *)
Theorem poll_relays_the_messages_of_the_upstream
        (st : HandlerState) (msg : Message) (limit : Z) (ms : list Message) :
  MsgType msg = "msg_check" ->
  pollLimit msg = Some limit ->
  up (requests st) (checkRequest config limit)
  = Response 200 (BodyJson (Json.Object [("messages", Codec.marshalMessages ms)])) ->
  ms <> [] ->
  written (process st msg)
  = written st ++ [Json.render (Codec.marshalMessages (map coerced ms))]
  /\ enqueued (process st msg) = enqueued st
  /\ (forallb validMessage ms = true ->
      written (process st msg)
      = written st ++ [Json.render (Codec.marshalMessages ms)]).
Proof.
  intros Htype Hlimit Hup Hms.
  enough (H : written (process st msg)
              = written st ++ [Json.render (Codec.marshalMessages (map coerced ms))]
              /\ enqueued (process st msg) = enqueued st).
  { destruct H as [Hw He]. split; [ exact Hw | ]. split; [ exact He | ].
    intro Hvalid. now rewrite Hw, (map_coerced_valid ms Hvalid). }
  assert (Hresult : fst (checkMessage typeErrorText config up (requests st) limit)
                    = inl (map withoutLimit (map coerced ms))).
  { unfold checkMessage, client_Do. rewrite Hup.
    cbn -[Codec.unmarshalCheckResponse Codec.marshalMessages map].
    unfold Codec.marshalMessages.
    rewrite unmarshalCheckResponse_messages, unmarshalMessageList_marshalMessage.
    now rewrite map_map. }
  rewrite (ProcessMessage_after_poll typeErrorText marshalAny config up st msg limit
             Htype Hlimit).
  rewrite Hresult. cbv zeta.
  destruct ms as [ | m ms]; [ congruence | ].
  assert (Hlen : (Go.len (map withoutLimit (map coerced (m :: ms))) =? 0) = false)
    by reflexivity.
  rewrite Hlen, marshalMessages_withoutLimit.
  split; reflexivity.
Qed.

(** X9: a publish that asks for the response is posted on its own, at
    once: one request to [/entities/message] whose body decodes to the
    message (without its limit, and with its strings as the decoder
    delivers them), one write on the connection, and nothing on the queue,
    so the message is in no batch.  The status of the answer is not looked at: the
    reply is the body of the answer as it decodes, [null] when it does not,
    and an object with the error when the request failed. *)
Theorem publish_that_waits_is_posted_alone (st : HandlerState) (msg : Message) :
  MsgType msg = "publish" ->
  WaitResponse (Context msg) = true ->
  enqueued (process st msg) = enqueued st
  /\ requests (process st msg) = requests st ++ [singleRequest config msg]
  /\ option_map Codec.unmarshalMessage (Payload (singleRequest config msg))
     = Some (Some (withoutLimit (coerced msg)))
  /\ (validMessage msg = true ->
      option_map Codec.unmarshalMessage (Payload (singleRequest config msg))
      = Some (Some (withoutLimit msg)))
  /\ written (process st msg)
     = written st
         ++ [match up (requests st) (singleRequest config msg) with
             | TransportError err =>
                 Json.render (Json.Object [("error", Json.Str err)])
             | Response _ (BodyJson v) => marshalAny v
             | Response _ (BodyMalformed _) => "null"
             end].
Proof.
  intros Htype Hwait.
  unfold ProcessMessage. rewrite Htype, Hwait. simpl String.eqb. cbv iota.
  unfold sendSingleMessage, client_Do.
  split; [ | split; [ | split; [ | split ] ] ].
  - destruct (up _ _) as [err | code [v | err]]; reflexivity.
  - destruct (up _ _) as [err | code [v | err]]; reflexivity.
  - cbn [singleRequest Payload option_map].
    now rewrite unmarshalMessage_marshalMessage.
  - intro Hvalid. cbn [singleRequest Payload option_map].
    now rewrite unmarshalMessage_marshalMessage, (coerced_valid msg Hvalid).
  - destruct (up _ _) as [err | code [v | err]]; reflexivity.
Qed.

End Pipeline.

(* ================================================================= *)
(** ** Polls that fail *)

Section Failures.

Variable typeErrorText : Json.value -> string.
Variable marshalAny : Json.value -> string.
Variable config : Config.
Variable up : Upstream.

Local Abbreviation process := (ProcessMessage typeErrorText marshalAny config up).

(** X10: a poll that fails is reported to the client.  When the request
    cannot be made, or the upstream answers 200 with a body that is no JSON
    or no object with a list of messages, the client gets one error envelope
    with the text of the error, and nothing is queued. *)
Theorem failed_poll_is_reported_to_the_client
        (st : HandlerState) (msg : Message) (limit : Z) (err : string) :
  MsgType msg = "msg_check" ->
  pollLimit msg = Some limit ->
  up (requests st) (checkRequest config limit) = TransportError err
  \/ up (requests st) (checkRequest config limit) = Response 200 (BodyMalformed err)
  \/ (exists v,
         up (requests st) (checkRequest config limit) = Response 200 (BodyJson v)
         /\ Codec.unmarshalCheckResponse v = None
         /\ err = typeErrorText v) ->
  process st msg
  = mkHandler
      (written st ++ [Json.render (Codec.marshalResponse (mkResponse "error" err))])
      (enqueued st)
      (requests st ++ [checkRequest config limit])
      (connClosed st).
Proof.
  intros Htype Hlimit Hup.
  rewrite (ProcessMessage_after_poll typeErrorText marshalAny config up st msg limit
             Htype Hlimit).
  assert (Hresult : fst (checkMessage typeErrorText config up (requests st) limit)
                    = inr err).
  { unfold checkMessage, client_Do.
    destruct Hup as [-> | [-> | (v & -> & Hv & ->)]]; try reflexivity.
    simpl. now rewrite Hv. }
  rewrite Hresult. reflexivity.
Qed.

End Failures.

(* ================================================================= *)
(** ** Signs of the queue load *)

Section Signs.

Import Binary64 Binary64Facts.

Lemma of_int_nonneg (n : Z) : 0 <= n -> nonneg_or_nan (Prim2SF (Go.of_int n)).
Proof.
  intro Hn. rewrite of_int_Prim2SF.
  destruct n as [ | p | p ]; [ exact I | | lia ].
  cbn [binary_normalize].
  pose proof (binary_round_sign false p 0) as Hsign.
  destruct (binary_round prec emax false p 0); simpl; auto.
Qed.

(** The sign of [float64(n)] is clear for [n >= 0] (it is never [-0]). *)
Lemma of_int_sign (n : Z) :
  0 <= n ->
  match Prim2SF (Go.of_int n) with
  | S754_zero s | S754_infinity s | S754_finite s _ _ => s = false
  | S754_nan => True
  end.
Proof.
  intro Hn. rewrite of_int_Prim2SF.
  destruct n as [ | p | p ]; [ reflexivity | | lia ].
  cbn [binary_normalize]. apply binary_round_sign.
Qed.

Lemma div_of_int_nonneg (q : float) (n : Z) :
  nonneg_or_nan (Prim2SF q) -> 0 <= n ->
  nonneg_or_nan (Prim2SF (q / Go.of_int n)).
Proof.
  intros Hq Hn. pose proof (of_int_sign n Hn) as Hd. rewrite div_spec.
  destruct (Prim2SF q) as [s | s | | s m e],
           (Prim2SF (Go.of_int n)) as [s' | s' | | s' m' e'];
    simpl in Hq, Hd |- *; try subst s; try subst s'; try exact I; try reflexivity.
  unfold SF64div, SFdiv.
  destruct (SFdiv_core_binary prec emax (Z.pos m) e (Z.pos m') e') as [[mz ez] lz].
  pose proof (binary_round_aux_sign (xorb false false) mz ez lz) as Hsign.
  destruct (binary_round_aux prec emax (xorb false false) mz ez lz); simpl; auto.
Qed.

Lemma mul_nonneg_nonneg (x y : float) :
  nonneg_or_nan (Prim2SF x) -> nonneg_or_nan (Prim2SF y) ->
  nonneg_or_nan (Prim2SF (x * y)).
Proof.
  intros Hx Hy. rewrite mul_spec.
  destruct (Prim2SF x) as [s | s | | s m e], (Prim2SF y) as [s' | s' | | s' m' e'];
    simpl in Hx, Hy |- *; try subst s; try subst s'; try exact I; try reflexivity.
  unfold SF64mul, SFmul.
  pose proof (binary_round_aux_sign (xorb false false) (Z.pos (m * m')) (e + e') loc_Exact)
    as Hsign.
  destruct (binary_round_aux prec emax (xorb false false) (Z.pos (m * m')) (e + e') loc_Exact);
    simpl; auto.
Qed.

(** The queue load that [getSystemMetrics] computes is never below zero. *)
Lemma QueueLoad_nonneg (config : Config) (probe : Probe) (n : Z) :
  0 <= n -> 0 <= MaxQueueSize config ->
  nonneg_or_nan (Prim2SF (QueueLoad (getSystemMetrics config probe n))).
Proof.
  intros Hn Hcap. unfold getSystemMetrics. cbn [QueueLoad].
  apply mul_nonneg_nonneg; [ | reflexivity ].
  apply div_of_int_nonneg; [ now apply of_int_nonneg | exact Hcap ].
Qed.

Lemma flushInterval_at_least (arch : Go.Arch) (config : Config) (metrics : SystemMetrics) :
  MinBatchInterval config <= flushInterval arch config metrics.
Proof.
  unfold flushInterval.
  destruct (_ <? MinBatchInterval config) eqn:E; [ lia | ].
  apply Z.ltb_ge in E. exact E.
Qed.

Lemma flushInterval_at_most (arch : Go.Arch) (config : Config) (probe : Probe) (n : Z) :
  0 <= n -> 0 <= MaxQueueSize config ->
  MinBatchInterval config <= MaxBatchInterval config ->
  0 <= MaxBatchInterval config <= 2 ^ 53 ->
  flushInterval arch config (getSystemMetrics config probe n)
  <= MaxBatchInterval config.
Proof.
  intros Hn Hcap Hmin Hmax. unfold flushInterval.
  destruct (_ <? MinBatchInterval config); [ exact Hmin | ].
  apply float_to_int_scaled_down; [ exact Hmax | ].
  apply one_minus_at_most_one.
  apply (div_nonneg _ 100%float 7036874417766400 (-46)); [ reflexivity | ].
  now apply QueueLoad_nonneg.
Qed.

Lemma batchSize_at_most (arch : Go.Arch) (config : Config) (metrics : SystemMetrics) :
  calculateDynamicBatchSize arch config metrics
  <= Z.max (MinBatchSize config) (MaxBatchSize config).
Proof.
  unfold calculateDynamicBatchSize.
  destruct (_ <? MinBatchSize config); [ lia | ].
  destruct (MaxBatchSize config <? _) eqn:E; [ lia | ].
  apply Z.ltb_ge in E. lia.
Qed.

End Signs.

(* ================================================================= *)
(** ** What the worker keeps true *)

Section Worker.

Variable arch : Go.Arch.
Variable config : Config.
Variable up : Upstream.

Local Abbreviation step' := (step arch config up).
Local Abbreviation run' := (run arch config up).

(** A property of the start state that every event keeps holds in every
    state the worker reaches. *)
Lemma run_invariant (P : WorkerState -> Prop) :
  (forall st ev st', P st -> step' st ev = Some st' -> P st') ->
  forall evs st st', P st -> run' st evs = Some st' -> P st'.
Proof.
  intros Hstep. induction evs as [ | ev evs IH]; intros st st' Hst; simpl.
  - now intros [= <-].
  - destruct (step' st ev) as [st1 | ] eqn:E; [ | discriminate ].
    apply IH. exact (Hstep _ _ _ Hst E).
Qed.

Lemma startWorker_facts (log : list HttpRequest) (st0 : WorkerState) :
  startWorker config log = Some st0 ->
  st0 = mkWorker [] [] false (Some (MinBatchInterval config)) log false
  /\ 0 <= MaxBatchSize config
  /\ 0 <= MaxQueueSize config
  /\ 0 < MinBatchInterval config.
Proof.
  unfold startWorker, Go.makechan_panics, Go.makeslice_panics.
  destruct (MaxQueueSize config <? 0) eqn:E2;
    destruct (Go.maxAlloc - Go.hchanSize <? sizeofMessage * MaxQueueSize config);
    destruct (MaxBatchSize config <? 0) eqn:E1;
    destruct (Go.maxAlloc <? sizeofMessage * MaxBatchSize config);
    destruct (MinBatchInterval config <=? 0) eqn:E3;
    cbn [orb]; try discriminate.
  apply Z.ltb_ge in E1, E2. apply Z.leb_gt in E3.
  simpl. intros [= <-]. repeat split; assumption.
Qed.

Lemma len_app {A} (l l' : list A) : Go.len (l ++ l') = Go.len l + Go.len l'.
Proof. unfold Go.len. rewrite length_app. lia. Qed.

Lemma len_nonneg {A} (l : list A) : 0 <= Go.len l.
Proof. unfold Go.len. lia. Qed.


(** What holds of the ticker of a running worker, given a bound on the
    periods that [flushInterval] computes from the metrics of a queue. *)
Lemma ticker_invariant (bound : Z -> Prop) (log : list HttpRequest) :
  bound (MinBatchInterval config) ->
  (forall probe n, 0 <= n ->
                   bound (flushInterval arch config (getSystemMetrics config probe n))) ->
  forall evs st0 st,
    startWorker config log = Some st0 ->
    run' st0 evs = Some st ->
    returned st = false ->
    exists period, ticker st = Some period /\ bound period.
Proof.
  intros Hmin Hbound evs st0 st Hstart Hrun.
  destruct (startWorker_facts log st0 Hstart) as (-> & _ & _ & _).
  revert Hrun.
  apply (run_invariant
           (fun st => returned st = false ->
                      exists period, ticker st = Some period /\ bound period)).
  2: { intros _. eexists. split; [ reflexivity | exact Hmin ]. }
  clear evs st.
  assert (Hmsg : forall st msg rest probe,
             exists period,
               ticker (onMessage arch config up st msg rest probe) = Some period
               /\ bound period).
  { intros st msg rest probe. unfold onMessage.
    destruct (_ <=? _); simpl; eexists; (split; [ reflexivity | ]);
      apply Hbound, len_nonneg. }
  intros st ev st' Hst. unfold step.
  destruct (returned st) eqn:Hret; [ discriminate | ].
  specialize (Hst eq_refl).
  destruct ev as [msg | msg probe | probe | | ].
  - destruct (queueClosed st); [ discriminate | ].
    destruct (_ <? _); [ | discriminate ].
    intros [= <-] _. exact Hst.
  - destruct (queueClosed st); [ discriminate | ].
    destruct (_ && _); [ | discriminate ].
    intros [= <-] _. apply Hmsg.
  - destruct (queue st) as [ | msg rest]; [ discriminate | ].
    destruct (queueClosed st && _); [ discriminate | ].
    destruct (_ <=? _); [ | discriminate ].
    intros [= <-] _. apply Hmsg.
  - intros [= <-] _. unfold onTick. destruct (0 <? _); simpl; exact Hst.
  - intros [= <-]. simpl. discriminate.
Qed.

(** X13: the ticker of a running worker always has a period, which is
    positive and at least [MinBatchInterval], whatever the configuration and
    the load: no [Reset] is given a period that makes it panic, and the
    worker never ticks faster than the minimum. *)
Theorem ticker_period_is_at_least_the_minimum
        (log : list HttpRequest) (evs : list Event) (st0 st : WorkerState) :
  startWorker config log = Some st0 ->
  run' st0 evs = Some st ->
  returned st = false ->
  exists period,
    ticker st = Some period
    /\ 0 < period
    /\ MinBatchInterval config <= period.
Proof.
  intros Hstart Hrun Hret.
  destruct (startWorker_facts log st0 Hstart) as (_ & _ & _ & Hpos).
  apply (ticker_invariant
           (fun p => 0 < p /\ MinBatchInterval config <= p) log) with (evs := evs) (st0 := st0);
    try assumption.
  - lia.
  - intros probe n _.
    pose proof (flushInterval_at_least arch config (getSystemMetrics config probe n)).
    lia.
Qed.

(** X14: with [MinBatchInterval <= MaxBatchInterval <= 2^53] nanoseconds,
    the period of the ticker of a running worker is within the two bounds in
    every state it reaches: the queue load that [getSystemMetrics] computes
    from the length of the queue is never below zero, so the factor of
    [ProcessQueue] is at most 1. *)
Theorem ticker_period_stays_within_bounds
        (log : list HttpRequest) (evs : list Event) (st0 st : WorkerState) :
  MinBatchInterval config <= MaxBatchInterval config ->
  MaxBatchInterval config <= 2 ^ 53 ->
  startWorker config log = Some st0 ->
  run' st0 evs = Some st ->
  returned st = false ->
  exists period,
    ticker st = Some period
    /\ MinBatchInterval config <= period <= MaxBatchInterval config.
Proof.
  intros Hmin Hmax Hstart Hrun Hret.
  destruct (startWorker_facts log st0 Hstart) as (_ & _ & Hcap & Hpos).
  apply (ticker_invariant
           (fun p => MinBatchInterval config <= p <= MaxBatchInterval config) log)
    with (evs := evs) (st0 := st0); try assumption.
  - lia.
  - intros probe n Hn. split.
    + apply flushInterval_at_least.
    + apply flushInterval_at_most; try assumption. lia.
Qed.

(** X15: at every moment the messages sent on the queue so far are
    accounted for, each once and in the order of the sends: they are the
    messages of the batches posted so far (none of them empty, each in one
    [POST .../messages]) followed by the batch and the buffer of the queue.
    The worker neither drops, repeats nor reorders a message. *)
Theorem worker_keeps_every_message_in_order
        (log : list HttpRequest) (evs : list Event) (st0 st : WorkerState) :
  startWorker config log = Some st0 ->
  run' st0 evs = Some st ->
  exists batches,
    posted st = log ++ map (batchRequest config) batches
    /\ Forall (fun b => b <> []) batches
    /\ List.concat batches ++ (if returned st then [] else batch st ++ queue st)
       = offered evs.
Proof.
  intros Hstart Hrun.
  destruct (startWorker_accounted config log st0 Hstart) as [Hacc0 _].
  exact (run_accounted arch config up log evs st0 st [] Hrun Hacc0).
Qed.

End Worker.

(* ================================================================= *)
(** ** The size of the batches *)

Section Batches.

Variable arch : Go.Arch.
Variable config : Config.
Variable up : Upstream.

(** X16: the size of the batches.  Every batch a running worker has posted
    holds at least one message and at most as many as the larger of
    [MinBatchSize] and [MaxBatchSize] (one, if both are below one).  Only
    the batch of the shutdown, which takes in what the queue still holds,
    can be larger. *)
Theorem batches_hold_at_most_the_maximum
        (log : list HttpRequest) (evs : list Event) (st0 st : WorkerState) :
  startWorker config log = Some st0 ->
  run arch config up st0 evs = Some st ->
  returned st = false ->
  exists batches,
    posted st = log ++ map (batchRequest config) batches
    /\ Forall (fun b => 1 <= Go.len b
                        <= Z.max 1 (Z.max (MinBatchSize config) (MaxBatchSize config)))
              batches.
Proof.
  intros Hstart Hrun Hrunning.
  destruct (startWorker_facts config log st0 Hstart) as (-> & _ & _ & _).
  set (M := Z.max (MinBatchSize config) (MaxBatchSize config)).
  enough (Hinv : returned st = false ->
                 (batch st = [] \/ Go.len (batch st) < M)
                 /\ exists batches,
                     posted st = log ++ map (batchRequest config) batches
                     /\ Forall (fun b => 1 <= Go.len b <= Z.max 1 M) batches)
    by exact (proj2 (Hinv Hrunning)).
  clear Hrunning. revert Hrun.
  apply (run_invariant arch config up
           (fun st => returned st = false ->
                      (batch st = [] \/ Go.len (batch st) < M)
                      /\ exists batches,
                          posted st = log ++ map (batchRequest config) batches
                          /\ Forall (fun b => 1 <= Go.len b <= Z.max 1 M) batches)).
  2: { intros _. split; [ now left | ]. exists []. split; [ | constructor ].
       simpl. now rewrite app_nil_r. }
  clear evs st.
  assert (Hflush : forall (st : WorkerState) (b : list Message),
             (exists batches,
                 posted st = log ++ map (batchRequest config) batches
                 /\ Forall (fun b => 1 <= Go.len b <= Z.max 1 M) batches) ->
             1 <= Go.len b <= Z.max 1 M ->
             exists batches,
               FlushBatch config up (posted st) b
               = log ++ map (batchRequest config) batches
               /\ Forall (fun b => 1 <= Go.len b <= Z.max 1 M) batches).
  { intros st b (batches & Hp & Hall) Hb. exists (batches ++ [b]).
    rewrite FlushBatch_appends, Hp, map_app, app_assoc. split; [ reflexivity | ].
    apply Forall_app. split; [ exact Hall | ]. now constructor. }
  assert (Hmsg : forall st msg rest probe,
             (batch st = [] \/ Go.len (batch st) < M) ->
             (exists batches,
                 posted st = log ++ map (batchRequest config) batches
                 /\ Forall (fun b => 1 <= Go.len b <= Z.max 1 M) batches) ->
             let st' := onMessage arch config up st msg rest probe in
             (batch st' = [] \/ Go.len (batch st') < M)
             /\ exists batches,
                 posted st' = log ++ map (batchRequest config) batches
                 /\ Forall (fun b => 1 <= Go.len b <= Z.max 1 M) batches).
  { intros st msg rest probe Hb Hposted. unfold onMessage.
    pose proof (batchSize_at_most arch config
                  (getSystemMetrics config probe (Go.len rest))) as Hsize.
    fold M in Hsize.
    assert (Hlen : Go.len (batch st ++ [msg]) = Go.len (batch st) + 1).
    { rewrite len_app. reflexivity. }
    pose proof (len_nonneg (batch st)) as Hnn.
    destruct (_ <=? Go.len (batch st ++ [msg])) eqn:E; simpl.
    - split; [ now left | ]. apply Hflush; [ exact Hposted | ].
      rewrite Hlen. destruct Hb as [-> | Hb]; [ unfold Go.len; simpl; lia | lia ].
    - split; [ | exact Hposted ]. right. apply Z.leb_gt in E. lia. }
  intros st ev st' Hst. unfold step.
  destruct (returned st) eqn:Hret; [ discriminate | ].
  destruct (Hst eq_refl) as [Hb Hposted].
  destruct ev as [msg | msg probe | probe | | ].
  - destruct (queueClosed st); [ discriminate | ].
    destruct (_ <? _); [ | discriminate ].
    intros [= <-] _. split; assumption.
  - destruct (queueClosed st); [ discriminate | ].
    destruct (_ && _); [ | discriminate ].
    intros [= <-] _. now apply Hmsg.
  - destruct (queue st) as [ | msg rest]; [ discriminate | ].
    destruct (queueClosed st && _); [ discriminate | ].
    destruct (_ <=? _); [ | discriminate ].
    intros [= <-] _. now apply Hmsg.
  - intros [= <-] _. unfold onTick.
    destruct (Z.ltb_spec 0 (Go.len (batch st))) as [Hpos | Hempty]; simpl.
    + split; [ now left | ]. apply Hflush; [ exact Hposted | ].
      destruct Hb as [Hb | Hb]; [ rewrite Hb in Hpos; discriminate | lia ].
    + split; assumption.
  - intros [= <-]. simpl. discriminate.
Qed.

End Batches.

(* ================================================================= *)
(** ** More of binary64: products with 1, quotients by powers of two, order *)

Section Exact.

Import Binary64 Binary64Facts.

Lemma scaled_pos (m : positive) (e : Z) : -2200 <= e -> 0 < scaled (Z.pos m) e.
Proof.
  intro He. unfold scaled. apply Z.mul_pos_pos; [ lia | apply pow2_pos; lia ].
Qed.

(** [float64(n) * 1] converts back to [n]. *)
Lemma mul_one_exact (arch : Go.Arch) (n : Z) :
  0 <= n <= 2 ^ 53 ->
  Go.float_to_int arch (Go.of_int n * 1) = n.
Proof.
  intros Hn.
  destruct (Z.eq_dec n 0) as [-> | Hn0]; [ destruct arch; reflexivity | ].
  destruct (of_int_exact n ltac:(lia)) as (mn & en & Hof & Hbn & Hvn).
  assert (Hc : Prim2SF 1 = S754_finite false 4503599627370496 (-52)) by reflexivity.
  pose proof (Prim2SF_mul_finite _ _ _ _ _ _ _ _ Hof Hc) as Hspec. cbn [xorb] in Hspec.
  assert (Hbc : bounded prec emax 4503599627370496 (-52) = true) by reflexivity.
  destruct (mul_shift mn 4503599627370496 en (-52) Hbn Hbc) as [Hshift Hexp].
  destruct (bounded_facts mn en Hbn) as (Hen & _).
  assert (H2200 : 0 < 2 ^ 2200) by (apply pow2_pos; lia).
  assert (Hv : scaled (Z.pos (mn * 4503599627370496)) (en + -52) = scaled (Z.pos mn) en).
  { pose proof (scaled_mul (Z.pos mn) 4503599627370496 en (-52)
                           ltac:(lia) ltac:(lia) ltac:(lia)) as Hmul.
    rewrite <- Pos2Z.inj_mul in Hmul.
    assert (Hone : scaled 4503599627370496 (-52) = 2 ^ 2200).
    { unfold scaled. change 4503599627370496 with (2 ^ 52).
      rewrite <- pow2_split by lia. reflexivity. }
    rewrite Hone in Hmul.
    apply Z.mul_reg_r with (p := 2 ^ 2200); [ lia | exact Hmul ]. }
  destruct (round_lower false _ mn _ en Hexp Hshift Hbn ltac:(rewrite Hv; lia))
    as [Hinf | (ml & el & Hl & Hml)];
    destruct (round_upper false _ mn _ en Hexp Hshift Hbn ltac:(rewrite Hv; lia))
      as [Hzero | (mu & eu & Hu & Hmu)];
    try congruence.
  rewrite Hl in Hu. injection Hu as <- <-.
  rewrite <- Hspec in Hl.
  assert (Hq : scaled (Z.pos ml) el / 2 ^ 2200 = n).
  { replace (scaled (Z.pos ml) el) with (scaled n 0) by lia.
    unfold scaled. rewrite Z.add_0_l. apply Z.div_mul. lia. }
  rewrite (float_to_int_finite arch _ ml el Hl); [ exact Hq | ].
  rewrite Hq. unfold Go.int_max. lia.
Qed.

(** [float64(n)] for a positive [n] is neither zero nor NaN. *)
Lemma of_int_positive (n : Z) :
  0 < n ->
  is_zero (Go.of_int n) = false /\ is_nan (Go.of_int n) = false.
Proof.
  intro Hn. unfold is_zero, is_nan. rewrite !eqb_spec, of_int_Prim2SF.
  destruct n as [ | p | p ]; try lia.
  cbn [binary_normalize].
  assert (Hb1 : bounded prec emax 4503599627370496 (-52) = true) by reflexivity.
  assert (Hle : scaled (Z.pos 4503599627370496) (-52) <= scaled (Z.pos p) 0).
  { unfold scaled. change (Z.pos 4503599627370496) with (2 ^ 52).
    rewrite <- pow2_split by lia. change (52 + (-52 + 2200)) with (0 + 2200).
    assert (0 < 2 ^ (0 + 2200)) by (apply pow2_pos; lia). nia. }
  destruct (binary_round_lower false p _ 0 _ ltac:(lia) Hb1 Hle)
    as [-> | (m' & e' & -> & _)].
  - split; reflexivity.
  - split; [ reflexivity | ].
    unfold SFeqb, SFcompare. rewrite Z.compare_refl, Pos.compare_cont_refl.
    reflexivity.
Qed.

Lemma order_by_exponent (a b Q P : Z) :
  a < 2 ^ 53 -> 2 ^ 52 <= b -> 0 < P -> 2 <= Q -> a * P < b * (Q * P).
Proof.
  intros Ha Hb HP HQ. change (2 ^ 53) with (2 * 2 ^ 52) in Ha.
  assert (0 < 2 ^ 52) by reflexivity.
  apply Z.lt_le_trans with (2 * 2 ^ 52 * P).
  - apply Z.mul_lt_mono_pos_r; assumption.
  - rewrite Z.mul_assoc. apply Z.mul_le_mono_nonneg_r; [ lia | ]. nia.
Qed.

(** The order of two positive floats is the order of their values. *)
Lemma SFcompare_scaled (m1 m2 : positive) (e1 e2 : Z) :
  bounded prec emax m1 e1 = true ->
  bounded prec emax m2 e2 = true ->
  SFcompare (S754_finite false m1 e1) (S754_finite false m2 e2)
  = Some (scaled (Z.pos m1) e1 ?= scaled (Z.pos m2) e2).
Proof.
  intros Hb1 Hb2.
  destruct (bounded_facts m1 e1 Hb1) as (He1 & Hm1 & Hn1).
  destruct (bounded_facts m2 e2 Hb2) as (He2 & Hm2 & Hn2).
  cbn [SFcompare]. f_equal. unfold scaled.
  destruct (Z.compare_spec e1 e2) as [Heq | Hlt | Hgt].
  - subst e2. change (Pos.compare_cont Eq m1 m2) with (m1 ?= m2)%positive.
    rewrite Pos2Z.inj_compare.
    apply Zmult_compare_compat_r. apply Z.lt_gt, pow2_pos. lia.
  - symmetry. apply Z.compare_lt_iff.
    specialize (Hn2 ltac:(lia)).
    replace (e2 + 2200) with ((e2 - e1) + (e1 + 2200)) by lia.
    rewrite (pow2_split (e2 - e1) (e1 + 2200)) by lia.
    apply (order_by_exponent (Z.pos m1) (Z.pos m2) (2 ^ (e2 - e1)) (2 ^ (e1 + 2200)));
      try assumption; [ apply pow2_pos; lia | ].
    change 2 with (2 ^ 1) at 1. apply Z.pow_le_mono_r; lia.
  - symmetry. apply Z.compare_gt_iff.
    specialize (Hn1 ltac:(lia)).
    replace (e1 + 2200) with ((e1 - e2) + (e2 + 2200)) by lia.
    rewrite (pow2_split (e1 - e2) (e2 + 2200)) by lia.
    apply (order_by_exponent (Z.pos m2) (Z.pos m1) (2 ^ (e1 - e2)) (2 ^ (e2 + 2200)));
      try assumption; [ apply pow2_pos; lia | ].
    change 2 with (2 ^ 1) at 1. apply Z.pow_le_mono_r; lia.
Qed.

Lemma leb_scaled (x y : float) (m1 m2 : positive) (e1 e2 : Z) :
  Prim2SF x = S754_finite false m1 e1 ->
  Prim2SF y = S754_finite false m2 e2 ->
  scaled (Z.pos m1) e1 <= scaled (Z.pos m2) e2 ->
  (x <=? y)%float = true.
Proof.
  intros Hx Hy Hle. rewrite leb_spec, Hx, Hy. unfold SFleb.
  rewrite SFcompare_scaled by (eapply Prim2SF_bounded; eassumption).
  destruct (Z.compare_spec (scaled (Z.pos m1) e1) (scaled (Z.pos m2) e2));
    [ reflexivity | reflexivity | lia ].
Qed.

Lemma ltb_scaled (x y : float) (m1 m2 : positive) (e1 e2 : Z) :
  Prim2SF x = S754_finite false m1 e1 ->
  Prim2SF y = S754_finite false m2 e2 ->
  scaled (Z.pos m1) e1 < scaled (Z.pos m2) e2 ->
  (x <? y)%float = true.
Proof.
  intros Hx Hy Hlt. rewrite ltb_spec, Hx, Hy. unfold SFltb.
  rewrite SFcompare_scaled by (eapply Prim2SF_bounded; eassumption).
  destruct (Z.compare_spec (scaled (Z.pos m1) e1) (scaled (Z.pos m2) e2));
    [ lia | reflexivity | lia ].
Qed.

(** The quotient of a normal float by a power of two is exact: it has the
    same mantissa. *)
Lemma div_power_of_two (x d : float) (m : positive) (e ed : Z) :
  Prim2SF x = S754_finite false m e ->
  Prim2SF d = S754_finite false 4503599627370496 ed ->
  -1074 < e ->
  -1074 + 53 <= e - ed <= 971 + 52 ->
  Prim2SF (x / d) = S754_finite false m (e - ed - 52).
Proof.
  intros Hx Hd Hne Hrange.
  pose proof (Prim2SF_bounded x _ _ _ Hx) as Hbx.
  pose proof (Prim2SF_bounded d _ _ _ Hd) as Hbd.
  destruct (bounded_facts m e Hbx) as (He & Hm & Hnormal).
  destruct (bounded_facts _ ed Hbd) as (Hed & _).
  destruct (bounded_canonical m e Hbx) as [Hcan _].
  rewrite div_spec, Hx, Hd. unfold SF64div, SFdiv, SFdiv_core_binary.
  rewrite !fexp_fexp64.
  change (Zdigits2 (Z.pos m)) with (Z.pos (digits2_pos m)).
  change (Zdigits2 (Z.pos 4503599627370496)) with 53.
  assert (Hdig : Z.pos (digits2_pos m) = 53).
  { unfold fexp64 in Hcan. lia. }
  rewrite Hdig.
  replace (53 + e - (53 + ed)) with (e - ed) by lia.
  assert (He' : Z.min (fexp64 (e - ed)) (e - ed) = e - ed - 53)
    by (unfold fexp64; lia).
  rewrite He'.
  replace (e - ed - (e - ed - 53)) with 53 by lia.
  cbv iota.
  assert (Hdiv : Z.div_eucl (Z.shiftl (Z.pos m) 53) (Z.pos 4503599627370496)
                 = (Z.pos (m~0), 0)).
  { rewrite Z.shiftl_mul_pow2 by lia.
    pose proof (Z.div_eucl_eq (Z.pos m * 2 ^ 53) (Z.pos 4503599627370496) ltac:(lia)) as Heq.
    pose proof (Z.mod_pos_bound (Z.pos m * 2 ^ 53) (Z.pos 4503599627370496) ltac:(lia)) as Hmod.
    unfold Z.modulo in Hmod.
    destruct (Z.div_eucl (Z.pos m * 2 ^ 53) (Z.pos 4503599627370496)) as [q r].
    change (2 ^ 53) with (2 * Z.pos 4503599627370496) in Heq.
    assert (q = Z.pos m~0 /\ r = 0) as [-> ->]; [ | reflexivity ].
    rewrite Pos2Z.inj_xO. nia. }
  rewrite Hdiv. cbn [xorb].
  change (new_location (Z.pos 4503599627370496) 0) with loc_Exact.
  assert (Hdig2 : Z.pos (digits2_pos m~0) = 54).
  { cbn [digits2_pos]. rewrite Pos2Z.inj_succ. lia. }
  pose proof (binary_round_aux_exact false (m~0) (e - ed - 53)) as Haux.
  rewrite Hdig2 in Haux.
  assert (He1 : fexp64 (54 + (e - ed - 53)) = e - ed - 52) by (unfold fexp64; lia).
  rewrite He1 in Haux. cbv zeta in Haux.
  destruct (Haux ltac:(lia)) as (m2 & Hm2 & Hres & _).
  replace (e - ed - 52 - (e - ed - 53)) with 1 in Hm2 by lia.
  change (2 ^ 1) with 2 in Hm2. rewrite Pos2Z.inj_xO in Hm2.
  assert (m2 = Z.pos m).
  { destruct Hm2 as [-> | [_ Hodd]].
    - rewrite Z.mul_comm. apply Z.div_mul. lia.
    - exfalso. apply Hodd. rewrite Z.mul_comm. apply Z.mod_mul. lia. }
  subst m2. rewrite Hres. unfold packed.
  destruct (Z.eqb_spec (Z.pos m) 0); [ lia | ].
  destruct (Z.ltb_spec (Z.pos m) (2 ^ 53)); [ | lia ].
  destruct (Z.leb_spec (e - ed - 52) 971); [ | lia ].
  reflexivity.
Qed.

(** [float64] of a positive 64-bit number: a normal float between the
    powers of two around the number, and the number itself below [2^53]. *)
Lemma of_uint64 (num k : Z) :
  0 <= k <= 63 ->
  2 ^ k <= num < 2 ^ 64 ->
  exists m e,
    Prim2SF (Go.of_int num) = S754_finite false m e
    /\ -52 <= e <= 12
    /\ scaled (2 ^ k) 0 <= scaled (Z.pos m) e
    /\ (num < 2 ^ 53 -> scaled (Z.pos m) e = scaled num 0).
Proof.
  intros Hk Hnum.
  assert (Hpos : 0 < 2 ^ k) by (apply pow2_pos; lia).
  assert (H2200 : 0 < 2 ^ 2200) by (apply pow2_pos; lia).
  assert (Hone : forall m e,
             bounded prec emax m e = true ->
             scaled (2 ^ k) 0 <= scaled (Z.pos m) e ->
             scaled (Z.pos m) e <= scaled (2 ^ 64) 0 ->
             -52 <= e <= 12).
  { intros m e Hb Hlo Hhi.
    destruct (bounded_facts m e Hb) as (He & Hm & Hnormal).
    unfold scaled in Hlo, Hhi. rewrite Z.add_0_l in Hlo, Hhi.
    split.
    - destruct (Z.le_gt_cases (-52) e) as [ | Hsmall]; [ assumption | exfalso ].
      assert (Hlt : Z.pos m * 2 ^ (e + 2200) < 2 ^ 53 * 2 ^ (-53 + 2200)).
      { apply Z.lt_le_trans with (2 ^ 53 * 2 ^ (e + 2200)).
        - apply Z.mul_lt_mono_pos_r; [ apply pow2_pos; lia | lia ].
        - apply Z.mul_le_mono_nonneg_l; [ lia | ].
          apply Z.pow_le_mono_r; lia. }
      rewrite <- pow2_split in Hlt by lia.
      change (53 + (-53 + 2200)) with 2200 in Hlt. nia.
    - destruct (Z.le_gt_cases e 12) as [ | Hbig]; [ assumption | exfalso ].
      specialize (Hnormal ltac:(lia)).
      assert (Hge : 2 ^ 52 * 2 ^ (13 + 2200) <= Z.pos m * 2 ^ (e + 2200)).
      { apply Z.le_trans with (2 ^ 52 * 2 ^ (e + 2200)).
        - apply Z.mul_le_mono_nonneg_l; [ lia | ].
          apply Z.pow_le_mono_r; lia.
        - apply Z.mul_le_mono_nonneg_r; [ | lia ].
          apply Z.lt_le_incl, pow2_pos. lia. }
      rewrite <- pow2_split in Hge by lia.
      change (52 + (13 + 2200)) with (65 + 2200) in Hge.
      rewrite (pow2_split 65 2200) in Hge by lia.
      change (2 ^ 65) with (2 * 2 ^ 64) in Hge. nia. }
  destruct (Z_lt_le_dec num (2 ^ 53)) as [Hsmall | Hbig].
  - destruct (of_int_exact num ltac:(lia)) as (m & e & Hof & Hb & Hv).
    exists m, e. split; [ exact Hof | ].
    assert (Hlo : scaled (2 ^ k) 0 <= scaled (Z.pos m) e).
    { rewrite Hv. unfold scaled. apply Z.mul_le_mono_nonneg_r; lia. }
    split; [ | split; [ exact Hlo | intros _; exact Hv ] ].
    apply (Hone m e Hb Hlo). rewrite Hv. unfold scaled.
    apply Z.mul_le_mono_nonneg_r; lia.
  - rewrite of_int_Prim2SF. destruct num as [ | p | p ]; try lia.
    cbn [binary_normalize].
    assert (Hk2 : exists mk ek, bounded prec emax mk ek = true
                                /\ scaled (Z.pos mk) ek = scaled (2 ^ k) 0).
    { destruct (binary_round_exact false 1 k ltac:(lia))
        as (mk & ek & _ & Hbk & Hvk).
      - change (Z.pos (digits2_pos 1)) with 1. unfold fexp64. lia.
      - exists mk, ek. split; [ exact Hbk | ].
        rewrite Hvk. unfold scaled. rewrite Z.mul_1_l, Z.add_0_l.
        apply pow2_split; lia. }
    destruct Hk2 as (mk & ek & Hbk & Hvk).
    assert (Hb64 : bounded prec emax 4503599627370496 12 = true) by reflexivity.
    assert (Hv64 : scaled (Z.pos 4503599627370496) 12 = scaled (2 ^ 64) 0) by reflexivity.
    destruct (binary_round_lower false p mk 0 ek ltac:(lia) Hbk)
      as [Hinf | (ml & el & Hl & Hml)].
    { rewrite Hvk. unfold scaled. apply Z.mul_le_mono_nonneg_r; lia. }
    all: destruct (binary_round_upper false p _ 0 _ ltac:(lia) Hb64)
      as [Hzero | (mu & eu & Hu & Hmu)];
      try (rewrite Hv64; unfold scaled; apply Z.mul_le_mono_nonneg_r; lia);
      try congruence.
    rewrite Hl in Hu. injection Hu as <- <-.
    exists ml, el. split; [ exact Hl | ].
    assert (Hb : bounded prec emax ml el = true).
    { pose proof (binary_round_valid false p 0 ltac:(lia)) as Hvalid.
      rewrite Hl in Hvalid. exact Hvalid. }
    rewrite Hvk in Hml. rewrite Hv64 in Hmu.
    split; [ exact (Hone ml el Hb Hml Hmu) | ].
    split; [ exact Hml | intro; lia ].
Qed.

End Exact.

(* ================================================================= *)
(** ** [Convert] *)

Section Sizes.

Import Binary64 Binary64Facts.

(** A number of at least one unit, divided by the unit. *)
Lemma Convert_unit (num k : Z) (d : float) :
  0 <= k <= 30 ->
  2 ^ k <= num < 2 ^ 64 ->
  Prim2SF d = S754_finite false 4503599627370496 (k - 52) ->
  (1 <=? Go.of_int num / d)%float = true
  /\ (num < 2 ^ (k + 10) ->
      (Go.of_int num / d <? 1024)%float = true).
Proof.
  intros Hk Hnum Hd.
  destruct (of_uint64 num k ltac:(lia) Hnum) as (m & e & Hof & He & Hlo & Hexact).
  pose proof (div_power_of_two _ _ m e (k - 52) Hof Hd ltac:(lia) ltac:(lia)) as Hq.
  replace (e - (k - 52) - 52) with (e - k) in Hq by lia.
  assert (HP : 0 < 2 ^ (e - k + 2200)) by (apply pow2_pos; lia).
  assert (HK : 0 < 2 ^ k) by (apply pow2_pos; lia).
  assert (H2200 : 0 < 2 ^ 2200) by (apply pow2_pos; lia).
  assert (Hsplit : scaled (Z.pos m) e = scaled (Z.pos m) (e - k) * 2 ^ k).
  { unfold scaled. replace (e + 2200) with ((e - k + 2200) + k) by lia.
    rewrite (pow2_split (e - k + 2200) k) by lia. ring. }
  rewrite Hsplit in Hlo, Hexact.
  unfold scaled in Hlo at 1. rewrite Z.add_0_l in Hlo.
  split.
  - apply (leb_scaled 1 _ 4503599627370496 m (-52) (e - k)); [ reflexivity | exact Hq | ].
    change (scaled (Z.pos 4503599627370496) (-52)) with (2 ^ 2200).
    apply Z.mul_le_mono_pos_r with (p := 2 ^ k); [ exact HK | ].
    rewrite (Z.mul_comm (2 ^ 2200)). exact Hlo.
  - intro Hnext.
    assert (Hsmall : num < 2 ^ 53).
    { apply Z.lt_le_trans with (2 ^ (k + 10)); [ exact Hnext | ].
      apply Z.pow_le_mono_r; lia. }
    specialize (Hexact Hsmall).
    apply (ltb_scaled _ 1024 m 4503599627370496 (e - k) (-42)); [ exact Hq | reflexivity | ].
    change (scaled (Z.pos 4503599627370496) (-42)) with (2 ^ 10 * 2 ^ 2200).
    apply Z.mul_lt_mono_pos_r with (p := 2 ^ k); [ exact HK | ].
    rewrite Hexact. unfold scaled. rewrite Z.add_0_l.
    rewrite (pow2_split k 10) in Hnext by lia.
    nia.
Qed.

(** X17: [Convert] scales a size into the largest unit that fits.  The
    suffix is [GB] from [2^30] on, [MB] from [2^20], [KB] from [2^10] and
    [bytes] below; zero stays zero; and for every other 64-bit size the
    number returned is at least 1 and, below one [GB], less than 1024. *)
Theorem Convert_scales_into_the_largest_unit (num : Z) :
  0 <= num < 2 ^ 64 ->
  snd (Convert num)
  = (if 2 ^ 30 <=? num then "GB"
     else if 2 ^ 20 <=? num then "MB"
     else if 2 ^ 10 <=? num then "KB"
     else "bytes")
  /\ (num = 0 -> fst (Convert num) = 0%float)
  /\ (1 <= num -> (1 <=? fst (Convert num))%float = true)
  /\ (1 <= num < 2 ^ 30 -> (fst (Convert num) <? 1024)%float = true).
Proof.
  intros Hnum. unfold Convert, units. cbn [convertWith].
  destruct (Z.leb_spec (2 ^ 30) num) as [H30 | H30].
  { destruct (Convert_unit num 30 (Go.of_int (2 ^ 30)) ltac:(lia) ltac:(lia) eq_refl)
      as [Hone _].
    cbn [fst snd].
    split; [ reflexivity | ]. split; [ intros; lia | ].
    split; [ intros _; exact Hone | intros; lia ]. }
  destruct (Z.leb_spec (2 ^ 20) num) as [H20 | H20].
  { destruct (Convert_unit num 20 (Go.of_int (2 ^ 20)) ltac:(lia) ltac:(lia) eq_refl)
      as [Hone Hless].
    cbn [fst snd].
    split; [ reflexivity | ]. split; [ intros; lia | ].
    split; [ intros _; exact Hone | ]. intros _. apply Hless. lia. }
  destruct (Z.leb_spec (2 ^ 10) num) as [H10 | H10].
  { destruct (Convert_unit num 10 (Go.of_int (2 ^ 10)) ltac:(lia) ltac:(lia) eq_refl)
      as [Hone Hless].
    cbn [fst snd].
    split; [ reflexivity | ]. split; [ intros; lia | ].
    split; [ intros _; exact Hone | ]. intros _. apply Hless. lia. }
  destruct (Z.leb_spec 1 num) as [H1 | H1].
  { destruct (Convert_unit num 0 (Go.of_int 1) ltac:(lia) ltac:(lia) eq_refl)
      as [Hone Hless].
    cbn [fst snd].
    split; [ reflexivity | ]. split; [ intros; lia | ].
    split; [ intros _; exact Hone | ]. intros _. apply Hless. lia. }
  cbn [fst snd]. assert (num = 0) as -> by lia.
  split; [ reflexivity | ]. split; [ reflexivity | ]. split; intros; lia.
Qed.

End Sizes.

(* ================================================================= *)
(** ** The controller at the ends of its range *)

Section Ends.

Import Binary64 Binary64Facts.

Variable arch : Go.Arch.
Variable config : Config.
Variable up : Upstream.

Lemma mul_nan (x : float) : (x * nan)%float = nan.
Proof.
  apply Prim2SF_inj. rewrite mul_spec.
  change (Prim2SF nan) with S754_nan.
  destruct (Prim2SF x) as [s | s | | s m e]; reflexivity.
Qed.

Lemma add_nan (x : float) : (x + nan)%float = nan.
Proof.
  apply Prim2SF_inj. rewrite add_spec.
  change (Prim2SF nan) with S754_nan.
  destruct (Prim2SF x) as [s | s | | s m e]; reflexivity.
Qed.

(** The period computed from an empty queue. *)
Lemma flushInterval_drained (probe : Probe) :
  0 < MaxQueueSize config ->
  0 <= MaxBatchInterval config <= 2 ^ 53 ->
  flushInterval arch config (getSystemMetrics config probe 0)
  = Z.max (MinBatchInterval config) (MaxBatchInterval config).
Proof.
  intros Hcap Hmax.
  destruct (of_int_positive (MaxQueueSize config) Hcap) as [Hzero Hnan].
  unfold flushInterval, getSystemMetrics. cbn [QueueLoad].
  change (Go.of_int 0) with 0%float.
  assert (Hfactor : (1 - 0 / Go.of_int (MaxQueueSize config) * 100 / 100 = 1)%float).
  { destruct (zero_div_float _ Hzero Hnan) as [-> | ->]; reflexivity. }
  rewrite Hfactor, mul_one_exact by exact Hmax.
  destruct (Z.ltb_spec (MaxBatchInterval config) (MinBatchInterval config)); lia.
Qed.

(** X18: when the worker receives the only message of the queue and no
    send completes while it takes the metrics, it reads the length 0 and
    sets the ticker to [MaxBatchInterval], or to [MinBatchInterval] if that
    is larger: an idle agent flushes at its slowest rate.  (The queue has a
    buffer, and [MaxBatchInterval] is at most [2^53] nanoseconds.) *)
Theorem drained_queue_relaxes_the_ticker
        (st st' : WorkerState) (msg : Message) (probe : Probe) :
  0 < MaxQueueSize config ->
  0 <= MaxBatchInterval config <= 2 ^ 53 ->
  queue st = [msg] ->
  during probe = [] ->
  step arch config up st (Receive probe) = Some st' ->
  queue st' = []
  /\ ticker st'
     = Some (Z.max (MinBatchInterval config) (MaxBatchInterval config)).
Proof.
  intros Hcap Hmax Hqueue Hduring. unfold step.
  destruct (returned st); [ discriminate | ].
  rewrite Hqueue, Hduring. cbn [Codec.is_empty_list negb app].
  rewrite andb_false_r.
  destruct (_ <=? _); [ | discriminate ].
  intros [= <-].
  pose proof (flushInterval_drained probe Hcap Hmax) as Hperiod.
  unfold onMessage. change (Go.len []) with 0. rewrite Hperiod.
  destruct (_ <=? _); split; reflexivity.
Qed.

(** X19: [-maxQueue=0] turns the adaptation off.  The queue then has no
    buffer, its load is [0/0], which is NaN, and so are the factors computed
    from it: whatever the probes report, the batch size is [MinBatchSize] and
    the period of the ticker [MinBatchInterval] (for a minimum batch size of
    at least 1 and a positive minimum interval), on both architectures. *)
Theorem without_a_buffer_the_controller_stays_at_its_minimum (probe : Probe) :
  MaxQueueSize config = 0 ->
  1 <= MinBatchSize config ->
  0 < MinBatchInterval config ->
  is_nan (QueueLoad (getSystemMetrics config probe 0)) = true
  /\ calculateDynamicBatchSize arch config (getSystemMetrics config probe 0)
     = MinBatchSize config
  /\ flushInterval arch config (getSystemMetrics config probe 0)
     = MinBatchInterval config.
Proof.
  intros Hcap Hsize Hperiod.
  assert (Hload : QueueLoad (getSystemMetrics config probe 0) = nan).
  { unfold getSystemMetrics. cbn [QueueLoad]. rewrite Hcap. reflexivity. }
  assert (Hint : Go.float_to_int arch nan <= 0).
  { destruct arch; vm_compute; discriminate. }
  split; [ now rewrite Hload | ]. split.
  - unfold calculateDynamicBatchSize. rewrite Hload.
    change (Go.Min 1 (nan / 50))%float with nan.
    change (nan * c0_2)%float with nan.
    rewrite add_nan, mul_nan.
    destruct (Z.ltb_spec (Go.float_to_int arch nan) (MinBatchSize config)); [ reflexivity | lia ].
  - unfold flushInterval. rewrite Hload.
    change (1 - nan / 100)%float with nan. rewrite mul_nan.
    destruct (Z.ltb_spec (Go.float_to_int arch nan) (MinBatchInterval config));
      [ reflexivity | lia ].
Qed.

End Ends.

(* ================================================================= *)
(** ** The command line *)

Section CommandLine.

(** X20: what [InitializeConfig] takes from its surroundings.  The API key
    is the flag [-apiKey] if it is given and not empty, else the variable
    [TENDRL_KEY]; without either the process exits, so a configuration
    never has an empty key.  Nothing else is read from the environment, and
    the base URL and the two paths come from neither the command line nor the
    environment: they are the same in every configuration of a platform. *)
Theorem InitializeConfig_reads_the_key_only
        (GOOS : string) (Getenv Getenv' : string -> string)
        (args : Flags.CommandLine) :
  match InitializeConfig GOOS Getenv args with
  | None =>
      Flags.value (Flags.apiKey args) EmptyString = EmptyString
      /\ Getenv "TENDRL_KEY" = EmptyString
  | Some c =>
      ApiKey c <> EmptyString
      /\ ApiKey c = (if Codec.is_empty_string (Flags.value (Flags.apiKey args) EmptyString)
                     then Getenv "TENDRL_KEY"
                     else Flags.value (Flags.apiKey args) EmptyString)
      /\ AppURL c = "https://app.tendrl.com/api"
      /\ LinuxPath c = (if String.eqb GOOS "windows" then "C:\ProgramData\tendrl"
                        else "/var/lib/tendrl")
      /\ SocketPath c = (if String.eqb GOOS "windows"
                         then "C:\ProgramData\tendrl\tendrl_agent.sock"
                         else "/var/lib/tendrl/tendrl_agent.sock")
  end
  /\ (Getenv "TENDRL_KEY" = Getenv' "TENDRL_KEY" ->
      InitializeConfig GOOS Getenv args = InitializeConfig GOOS Getenv' args).
Proof.
  unfold InitializeConfig. split.
  - destruct (Flags.value (Flags.apiKey args) EmptyString) as [ | a flag];
      cbn [Codec.is_empty_string].
    + destruct (Getenv "TENDRL_KEY") as [ | a env]; cbn [Codec.is_empty_string].
      * split; reflexivity.
      * cbn [ApiKey AppURL LinuxPath SocketPath].
        split; [ discriminate | ]. split; [ reflexivity | ]. split; [ reflexivity | ].
        split; [ reflexivity | ].
        now destruct (String.eqb GOOS "windows").
    + cbn [ApiKey AppURL LinuxPath SocketPath].
      split; [ discriminate | ]. split; [ reflexivity | ]. split; [ reflexivity | ].
      split; [ reflexivity | ].
      now destruct (String.eqb GOOS "windows").
  - now intros ->.
Qed.


End CommandLine.

(* ================================================================= *)
(** ** Rounding a quotient *)

Section Quotients.

Import Binary64 Binary64Facts.

(** A shift of the record halves its mantissa, whatever was shifted out
    before. *)
Lemma shr_1_m (r : shr_record) :
  0 <= shr_m r -> shr_m (shr_1 r) = shr_m r / 2.
Proof.
  destruct r as [m r s]. cbn [shr_m]. intro Hm.
  destruct m as [ | [q | q | ] | q ]; cbn [shr_1 shr_m]; try lia.
  - reflexivity.
  - rewrite Pos2Z.inj_xI. generalize (Z.pos q). intro z.
    clear. Z.div_mod_to_equations. lia.
  - rewrite Pos2Z.inj_xO. generalize (Z.pos q). intro z.
    clear. Z.div_mod_to_equations. lia.
  - reflexivity.
Qed.

Lemma iter_shr_1_m (n : nat) (r : shr_record) :
  0 <= shr_m r ->
  shr_m (Nat.iter n shr_1 r) = shr_m r / 2 ^ Z.of_nat n.
Proof.
  intro Hm. induction n as [ | n IH].
  - simpl. now rewrite Z.div_1_r.
  - rewrite Nat2Z.inj_succ, <- Z.add_1_r.
    change (Nat.iter (S n) shr_1 r) with (shr_1 (Nat.iter n shr_1 r)).
    rewrite shr_1_m.
    + rewrite IH, Z.pow_add_r by lia. change (2 ^ 1) with 2.
      rewrite Z.div_div; [ reflexivity | | lia ].
      apply Z.pow_nonzero; lia.
    + rewrite IH. apply Z.div_pos; [ exact Hm | apply pow2_pos; lia ].
Qed.

Lemma shr_m_any (m e n : Z) (l : location) :
  0 <= m -> 0 <= n ->
  snd (shr (shr_record_of_loc m l) e n) = e + n
  /\ shr_m (fst (shr (shr_record_of_loc m l) e n)) = m / 2 ^ n.
Proof.
  intros Hm Hn.
  assert (H0 : shr_m (shr_record_of_loc m l) = m) by (destruct l as [ | [ | | ]]; reflexivity).
  destruct n as [ | p | p ]; [ | | lia ].
  - simpl. rewrite H0, Z.div_1_r. split; [ lia | reflexivity ].
  - simpl. split; [ reflexivity | ].
    rewrite iter_pos_nat, iter_shr_1_m, H0, positive_nat_Z by (rewrite H0; exact Hm).
    reflexivity.
Qed.

Lemma round_nearest_even_bounds (m : Z) (l : location) :
  m <= round_nearest_even m l <= m + 1.
Proof.
  destruct l as [ | [ | | ]]; cbn [round_nearest_even]; try lia.
  destruct (Z.even m); lia.
Qed.

(** [binary_round_aux] at any location: the mantissa is cut at the
    exponent of the format and may go up by one. *)
Lemma binary_round_aux_any (s : bool) (mx : positive) (ex : Z) (l : location) :
  let e1 := fexp64 (Z.pos (digits2_pos mx) + ex) in
  ex <= e1 ->
  exists m2,
    Z.pos mx / 2 ^ (e1 - ex) <= m2 <= Z.pos mx / 2 ^ (e1 - ex) + 1
    /\ binary_round_aux prec emax s (Z.pos mx) ex l = packed s m2 e1.
Proof.
  intros e1 Hex.
  set (d := Z.pos (digits2_pos mx)) in *.
  set (n := e1 - ex).
  assert (Hn : 0 <= n) by (unfold n; lia).
  pose proof (digits2_pos_bounds mx) as [Hlo Hhi]. fold d in Hlo, Hhi.
  assert (Hd : 0 < d) by (unfold d; lia).
  assert (He1 : -1074 <= e1) by (unfold e1, fexp64; lia).
  unfold binary_round_aux, shr_fexp. rewrite !fexp_fexp64.
  cbn [Zdigits2]. fold d. fold e1. fold n.
  destruct (shr_m_any (Z.pos mx) ex n l ltac:(lia) Hn) as [He' Hshift].
  destruct (shr (shr_record_of_loc (Z.pos mx) l) ex n) as [mrs' e'].
  simpl in He', Hshift. replace e' with e1 by (unfold n in He'; lia).
  pose proof (round_nearest_even_bounds (shr_m mrs') (loc_of_shr_record mrs')) as Hround.
  set (m2 := round_nearest_even (shr_m mrs') (loc_of_shr_record mrs')) in *.
  rewrite Hshift in Hround. rewrite ?fexp_fexp64.
  exists m2. split; [ exact Hround | ].
  set (m1 := Z.pos mx / 2 ^ n) in *.
  assert (Hpn : 0 < 2 ^ n) by (apply Z.pow_pos_nonneg; lia).
  assert (Hm1 : 0 <= m1) by (apply Z.div_pos; lia).
  assert (Hm1hi : m1 < 2 ^ 53).
  { apply Z.div_lt_upper_bound; [ assumption | ].
    rewrite <- Z.pow_add_r by lia.
    assert (2 ^ d <= 2 ^ (n + 53)) by (apply Z.pow_le_mono_r; unfold n, e1, fexp64; lia).
    lia. }
  assert (Hm1lo : -1074 < e1 -> 2 ^ 52 <= m1).
  { intro Hnormal. apply Z.div_le_lower_bound; [ assumption | ].
    rewrite <- Z.pow_add_r by lia.
    replace (n + 52) with (d - 1) by (unfold n, e1, fexp64 in *; lia). assumption. }
  unfold packed.
  destruct (Z.eqb_spec m2 0) as [Hzero | Hnonzero].
  - rewrite Hzero. cbn [Zdigits2].
    assert (Hshr : shr (shr_record_of_loc 0 loc_Exact) e1 (fexp64 (0 + e1) - e1)
                   = (shr_record_of_loc 0 loc_Exact, e1)).
    { unfold shr. destruct (fexp64 (0 + e1) - e1) as [ | p | p ] eqn:Hp; try reflexivity.
      unfold fexp64 in Hp. lia. }
    rewrite Hshr. reflexivity.
  - destruct m2 as [ | p2 | p2 ]; [ contradiction | | lia ].
    cbn [Zdigits2].
    destruct (Z.ltb_spec (Z.pos p2) (2 ^ 53)) as [Hsmall | Hfull].
    + assert (Hcanon : fexp64 (Z.pos (digits2_pos p2) + e1) - e1 = 0).
      { pose proof (digits_le p2 53 ltac:(lia) Hsmall).
        destruct (Z.eq_dec e1 (-1074)) as [Hsub | Hnorm].
        - unfold fexp64. lia.
        - assert (52 < Z.pos (digits2_pos p2))
            by (apply digits_gt; [ lia | specialize (Hm1lo ltac:(lia)); lia ]).
          unfold fexp64. lia. }
      rewrite Hcanon. cbn [shr shr_record_of_loc shr_m]. reflexivity.
    + assert (Hp2 : Z.pos p2 = 2 ^ 53) by lia.
      assert (Hp2' : p2 = Z.to_pos (2 ^ 53)) by (rewrite <- Hp2; reflexivity).
      rewrite Hp2'.
      replace (fexp64 (Z.pos (digits2_pos (Z.to_pos (2 ^ 53))) + e1) - e1) with 1
        by (change (Z.pos (digits2_pos (Z.to_pos (2 ^ 53)))) with 54; unfold fexp64; lia).
      cbn -[Z.leb Z.add]. reflexivity.
Qed.

(** Rounding from any location does not go below a float that the value
    of the cut mantissa is not below. *)
Lemma round_lower_any (s : bool) (mx mb : positive) (ex eb : Z) (l : location) :
  -2200 <= ex ->
  ex <= fexp64 (Z.pos (digits2_pos mx) + ex) ->
  bounded prec emax mb eb = true ->
  scaled (Z.pos mb) eb <= scaled (Z.pos mx) ex ->
  binary_round_aux prec emax s (Z.pos mx) ex l = S754_infinity s
  \/ exists m' e',
      binary_round_aux prec emax s (Z.pos mx) ex l = S754_finite s m' e'
      /\ scaled (Z.pos mb) eb <= scaled (Z.pos m') e'.
Proof.
  intros Hex Hshift Hb Hle.
  destruct (binary_round_aux_any s mx ex l Hshift) as (m2 & Hm12 & Hresult).
  set (e1 := fexp64 (Z.pos (digits2_pos mx) + ex)) in *.
  destruct (bounded_facts mb eb Hb) as (Heb & Hmb & Hmb').
  pose proof (digits2_pos_bounds mx) as [Hlo Hhi].
  set (d := Z.pos (digits2_pos mx)) in *.
  set (n := e1 - ex) in *.
  assert (Hn : 0 <= n) by (unfold n; lia).
  assert (He1 : -1074 <= e1) by (unfold e1, fexp64; lia).
  unfold scaled in *.
  set (P := 2 ^ (ex + 2200)) in *.
  assert (HP : 0 < P) by (apply pow2_pos; lia).
  set (Q := 2 ^ n) in *.
  assert (HQ : 0 < Q) by (apply pow2_pos; lia).
  assert (HR : 2 ^ (e1 + 2200) = Q * P).
  { unfold Q, P. rewrite <- pow2_split by lia. f_equal. unfold n. lia. }
  set (m1 := Z.pos mx / Q) in *.
  assert (Hdm : Z.pos mx = Q * m1 + Z.pos mx mod Q) by (apply Z.div_mod; lia).
  assert (Hmod : 0 <= Z.pos mx mod Q < Q) by (apply Z.mod_pos_bound; lia).
  assert (Hm1 : 0 <= m1) by (apply Z.div_pos; lia).
  assert (Hm1hi : m1 < 2 ^ 53).
  { apply Z.div_lt_upper_bound; [ assumption | ].
    unfold Q. rewrite <- pow2_split by lia.
    assert (2 ^ d <= 2 ^ (n + 53))
      by (apply Z.pow_le_mono_r; unfold n, e1, fexp64; fold d; lia).
    lia. }
  assert (Hvalue : Z.pos mb * 2 ^ (eb + 2200) <= m2 * (Q * P)).
  { destruct (Z.le_gt_cases e1 eb) as [Hgrid | Hbelow].
    - set (T := 2 ^ (eb - e1)).
      assert (HT : 0 < T) by (apply pow2_pos; lia).
      assert (HB : 2 ^ (eb + 2200) = T * (Q * P)).
      { rewrite <- HR. unfold T. rewrite <- pow2_split by lia. f_equal. lia. }
      rewrite HB in Hle |- *.
      assert (HNmx : Z.pos mb * T * Q <= Z.pos mx) by nia.
      assert (Z.pos mb * T <= m1) by nia.
      nia.
    - assert (He1d : e1 = d + ex - 53)
        by (unfold e1, fexp64 in *; fold d in He1 |- *; fold d; lia).
      assert (Hm1lo : 2 ^ 52 <= m1).
      { apply Z.div_le_lower_bound; [ assumption | ].
        unfold Q. rewrite <- pow2_split by lia.
        replace (n + 52) with (d - 1) by (unfold n; lia). assumption. }
      assert (HBhi : Z.pos mb * 2 ^ (eb + 2200) < 2 ^ 53 * 2 ^ (eb + 2200)).
      { apply Z.mul_lt_mono_pos_r; [ apply pow2_pos; lia | assumption ]. }
      assert (Hpow : 2 ^ 53 * 2 ^ (eb + 2200) <= 2 ^ 52 * (Q * P)).
      { rewrite <- HR, <- !pow2_split by lia. apply Z.pow_le_mono_r; lia. }
      nia. }
  assert (Hm2pos : 0 < m2) by nia.
  rewrite Hresult. unfold packed.
  destruct (Z.eqb_spec m2 0); [ lia | ].
  destruct (Z.ltb_spec m2 (2 ^ 53)).
  - destruct (Z.leb_spec e1 971); [ right | now left ].
    exists (Z.to_pos m2), e1. split; [ reflexivity | ].
    rewrite Z2Pos.id by lia. now rewrite HR.
  - destruct (Z.leb_spec (e1 + 1) 971); [ right | now left ].
    exists (Z.to_pos (2 ^ 52)), (e1 + 1). split; [ reflexivity | ].
    replace (e1 + 1 + 2200) with (1 + (e1 + 2200)) by lia.
    rewrite (pow2_split 1 (e1 + 2200)), HR by lia.
    change (Z.pos (Z.to_pos (2 ^ 52))) with (2 ^ 52). change (2 ^ 1) with 2.
    assert (m2 = 2 ^ 53) by lia. nia.
Qed.


(** The quotient of two positive floats, the first not below the second,
    is at least 1 (or has overflowed). *)
Lemma div_at_least_one (mc mt : positive) (ec et : Z) :
  bounded prec emax mc ec = true ->
  bounded prec emax mt et = true ->
  scaled (Z.pos mt) et <= scaled (Z.pos mc) ec ->
  SFdiv prec emax (S754_finite false mc ec) (S754_finite false mt et)
  = S754_infinity false
  \/ exists m e,
      SFdiv prec emax (S754_finite false mc ec) (S754_finite false mt et)
      = S754_finite false m e
      /\ scaled 1 0 <= scaled (Z.pos m) e.
Proof.
  intros Hbc Hbt Hle.
  destruct (bounded_facts mc ec Hbc) as (Hec & Hmc & _).
  destruct (bounded_facts mt et Hbt) as (Het & Hmt & _).
  pose proof (digits2_pos_bounds mc) as [Hc1 Hc2].
  pose proof (digits2_pos_bounds mt) as [Ht1 Ht2].
  pose proof (digits_le mc 53 ltac:(lia) Hmc) as Hd1.
  pose proof (digits_le mt 53 ltac:(lia) Hmt) as Hd2.
  unfold SFdiv, SFdiv_core_binary. rewrite fexp_fexp64. cbn [Zdigits2 xorb].
  set (d1 := Z.pos (digits2_pos mc)) in *.
  set (d2 := Z.pos (digits2_pos mt)) in *.
  assert (Hd1' : 0 < d1) by (unfold d1; lia).
  assert (Hd2' : 0 < d2) by (unfold d2; lia).
  set (D := d1 + ec - (d2 + et)).
  set (e' := Z.min (fexp64 D) (ec - et)).
  set (s := ec - et - e').
  assert (Hs : 0 <= s) by (unfold s, e'; lia).
  assert (He'lo : -2200 <= e') by (unfold e', fexp64; lia).
  assert (He'D : e' <= fexp64 D) by (unfold e'; lia).
  assert (HW : 0 <= e' + et + 2200) by (unfold e', fexp64; lia).
  set (A := match s with
            | 0 => Z.pos mc
            | Z.pos _ => Z.shiftl (Z.pos mc) s
            | Z.neg _ => 0
            end).
  assert (HA : A = Z.pos mc * 2 ^ s).
  { unfold A. destruct s as [ | p | p ] eqn:Hseq; try lia.
    - now rewrite Z.shiftl_mul_pow2. }
  clearbody A.
  pose proof (Z.div_eucl_eq A (Z.pos mt) ltac:(lia)) as Heucl.
  pose proof (Z.mod_pos_bound A (Z.pos mt) ltac:(lia)) as Hmod.
  assert (Hquot : fst (Z.div_eucl A (Z.pos mt)) = A / Z.pos mt) by reflexivity.
  unfold Z.modulo in Hmod.
  destruct (Z.div_eucl A (Z.pos mt)) as [q r]. cbn [fst] in Hquot.
  (* the size of the quotient *)
  assert (P2s : 0 < 2 ^ s) by (apply pow2_pos; lia).
  assert (HAlo : 2 ^ (d1 - 1) * 2 ^ s <= A) by (rewrite HA; nia).
  assert (Hk : forall k, 0 <= k -> k + d2 <= d1 - 1 + s -> 2 ^ k <= q).
  { intros k Hk0 Hk1. rewrite Hquot.
    apply Z.div_le_lower_bound; [ lia | ].
    apply Z.le_trans with (2 ^ d2 * 2 ^ k).
    - apply Z.mul_le_mono_nonneg_r; [ apply Z.lt_le_incl, pow2_pos; lia | lia ].
    - rewrite <- pow2_split by lia. rewrite <- (pow2_split (d1 - 1) s) in HAlo by lia.
      apply Z.le_trans with (2 ^ (d1 - 1 + s)); [ | exact HAlo ].
      apply Z.pow_le_mono_r; lia. }
  assert (Hneg : e' <= 0 -> 2 ^ (- e') <= q).
  { intro Hnp. rewrite Hquot.
    apply Z.div_le_lower_bound; [ lia | ].
    unfold scaled in Hle.
    replace (ec + 2200) with (s + (e' + et + 2200)) in Hle by (unfold s; lia).
    replace (et + 2200) with (- e' + (e' + et + 2200)) in Hle by lia.
    rewrite (pow2_split s), (pow2_split (- e')) in Hle by lia.
    assert (0 < 2 ^ (e' + et + 2200)) by (apply pow2_pos; lia).
    rewrite HA. rewrite !Z.mul_assoc in Hle.
    apply Z.mul_le_mono_pos_r in Hle; [ exact Hle | assumption ]. }
  assert (Hq1 : 1 <= q).
  { destruct (Z.le_gt_cases e' 0) as [Hnp | Hp].
    - specialize (Hneg Hnp).
      assert (1 <= 2 ^ (- e')) by (apply (Z.pow_le_mono_r 2 0); lia). lia.
    - assert (2 ^ 0 <= q); [ | simpl in *; lia ].
      apply Hk; [ lia | ]. unfold s, fexp64, D in *. lia. }
  destruct q as [ | qp | qp ]; try lia.
  assert (Hdq : D <= Z.pos (digits2_pos qp) + e').
  { destruct (Z.le_gt_cases (d1 + s - d2) 1) as [Hshort | Hlong].
    - unfold D, s in *. lia.
    - pose proof (digits_gt qp (d1 + s - d2 - 1) ltac:(lia)
                    (Hk (d1 + s - d2 - 1) ltac:(lia) ltac:(lia))).
      unfold D, s in *. lia. }
  assert (Hshift : e' <= fexp64 (Z.pos (digits2_pos qp) + e'))
    by (unfold fexp64 in *; lia).
  assert (Hb1 : bounded prec emax 4503599627370496 (-52) = true) by reflexivity.
  assert (Hone : scaled (Z.pos 4503599627370496) (-52) = scaled 1 0) by reflexivity.
  rewrite <- Hone.
  apply round_lower_any; try assumption.
  rewrite Hone. unfold scaled. rewrite Z.mul_1_l, Z.add_0_l.
  destruct (Z.le_gt_cases e' 0) as [Hnp | Hp].
  - specialize (Hneg Hnp).
    replace 2200 with (- e' + (e' + 2200)) at 1 by lia.
    rewrite (pow2_split (- e')) by lia.
    apply Z.mul_le_mono_nonneg_r; [ apply Z.lt_le_incl, pow2_pos; lia | exact Hneg ].
  - apply Z.le_trans with (1 * 2 ^ (e' + 2200)).
    + rewrite Z.mul_1_l. apply Z.pow_le_mono_r; lia.
    + apply Z.mul_le_mono_nonneg_r; [ apply Z.lt_le_incl, pow2_pos; lia | lia ].
Qed.

Lemma packed_not_nan (s : bool) (m e : Z) : packed s m e <> S754_nan.
Proof.
  unfold packed. destruct (m =? 0); [ discriminate | ].
  destruct (m <? 2 ^ 53); [ destruct (e <=? 971) | destruct (e + 1 <=? 971) ];
    discriminate.
Qed.

Lemma binary_round_not_nan (s : bool) (m : positive) (e : Z) :
  -2200 <= e -> binary_round prec emax s m e <> S754_nan.
Proof.
  intro He.
  destruct (binary_round_aligned s m e He) as (mz & ez & -> & Hshift & _).
  destruct (binary_round_aux_exact s mz ez Hshift) as (m2 & _ & -> & _).
  apply packed_not_nan.
Qed.

(** [1 - q] for a [q] of at least 1 is zero or below, and not NaN. *)
Lemma one_minus_at_least_one (q : float) :
  Prim2SF q = S754_infinity false
  \/ (exists m e, Prim2SF q = S754_finite false m e
                  /\ scaled 1 0 <= scaled (Z.pos m) e) ->
  negative (Prim2SF (1 - q)) /\ Prim2SF (1 - q) <> S754_nan.
Proof.
  intros Hq. rewrite sub_spec.
  change (Prim2SF 1) with (S754_finite false 4503599627370496 (-52)).
  destruct Hq as [-> | (m & e & Hq & Hle)]; [ split; [ reflexivity | discriminate ] | ].
  pose proof (Prim2SF_bounded q _ _ _ Hq) as Hb. rewrite Hq.
  destruct (bounded_facts m e Hb) as (He & _).
  unfold SF64sub, SFsub. cbn [cond_Zopp].
  set (ez := Z.min (-52) e).
  assert (Hez : -1074 <= ez <= -52) by (unfold ez; lia).
  pose proof (shl_align_value 4503599627370496 (-52) ez ltac:(lia)) as H1.
  pose proof (shl_align_value m e ez ltac:(unfold ez; lia)) as H2.
  set (A1 := Z.pos (fst (shl_align 4503599627370496 (-52) ez))) in *.
  set (A2 := Z.pos (fst (shl_align m e ez))) in *.
  assert (HA : A1 <= A2).
  { assert (HP : 0 < 2 ^ (ez + 2200)) by (apply pow2_pos; lia).
    apply Z.mul_le_mono_pos_r with (p := 2 ^ (ez + 2200)); [ exact HP | ].
    rewrite H1, H2, <- !Z.mul_assoc, <- !pow2_split by (unfold ez; lia).
    replace (-52 - ez + (ez + 2200)) with (-52 + 2200) by lia.
    replace (e - ez + (ez + 2200)) with (e + 2200) by lia.
    unfold scaled in Hle. rewrite Z.mul_1_l, Z.add_0_l in Hle.
    etransitivity; [ | exact Hle ]. apply Z.eq_le_incl. reflexivity. }
  destruct (A1 - A2) as [ | p | p ] eqn:Hdiff; cbn [binary_normalize]; try lia.
  - split; [ exact I | discriminate ].
  - split; [ | apply binary_round_not_nan; lia ].
    pose proof (binary_round_sign true p ez) as Hsign.
    destruct (binary_round prec emax true p ez) as [s' | s' | | s' m' e'];
      simpl; try subst s'; auto.
Qed.

(** [math.Max(0, z)] for a [z] that is zero or below. *)
Lemma Max_zero_negative (z : float) :
  negative (Prim2SF z) -> Prim2SF z <> S754_nan -> Go.Max 0 z = 0%float.
Proof.
  intros Hneg Hnan. unfold Go.Max, is_nan.
  rewrite !eqb_spec, ltb_spec.
  change (Prim2SF 0) with (S754_zero false).
  change (Prim2SF infinity) with (S754_infinity false).
  change (get_sign 0) with false.
  destruct (Prim2SF z) as [s | s | | s m e]; simpl in Hneg; try subst s;
    try contradiction; try reflexivity.
  cbn. rewrite Z.compare_refl, Pos.compare_cont_refl. reflexivity.
Qed.

(** The factor of a resource that is at or above its target. *)
Lemma factor_under_pressure (usage target : float) :
  (0 <? target)%float = true ->
  (target <? infinity)%float = true ->
  (target <=? usage)%float = true ->
  Go.Max 0 (1 - usage / target)%float = 0%float.
Proof.
  rewrite !ltb_spec, leb_spec.
  change (Prim2SF 0) with (S754_zero false).
  change (Prim2SF infinity) with (S754_infinity false).
  intros Hpos Hfin Hle.
  pose proof (Prim2SF_valid target) as Hbt.
  pose proof (Prim2SF_valid usage) as Hbu.
  destruct (Prim2SF target) as [st | st | | st mt et] eqn:Ht; try discriminate.
  { destruct st; discriminate. }
  destruct st; [ discriminate | ].
  cbn [SpecFloat.valid_binary] in Hbt.
  assert (Hq : Prim2SF (usage / target) = S754_infinity false
               \/ exists m e, Prim2SF (usage / target) = S754_finite false m e
                              /\ scaled 1 0 <= scaled (Z.pos m) e).
  { rewrite div_spec, Ht.
    destruct (Prim2SF usage) as [su | su | | su mu eu] eqn:Hu; try discriminate.
    - destruct su; [ discriminate | ]. left. reflexivity.
    - destruct su; [ discriminate | ].
      cbn [SpecFloat.valid_binary] in Hbu.
      apply div_at_least_one; try assumption.
      unfold SFleb in Hle. rewrite (SFcompare_scaled mt mu et eu Hbt Hbu) in Hle.
      destruct (Z.compare_spec (scaled (Z.pos mt) et) (scaled (Z.pos mu) eu));
        [ lia | lia | discriminate ]. }
  destruct (one_minus_at_least_one _ Hq) as [Hneg Hnan].
  now apply Max_zero_negative.
Qed.

(** [int(float64(n) * 0)] is 0. *)
Lemma mul_zero_int (arch : Go.Arch) (n : Z) :
  0 <= n <= 2 ^ 53 -> Go.float_to_int arch (Go.of_int n * 0) = 0.
Proof.
  intros Hn.
  destruct (Z.eq_dec n 0) as [-> | Hn0]; [ destruct arch; reflexivity | ].
  destruct (of_int_exact n ltac:(lia)) as (mn & en & Hof & _).
  unfold Go.float_to_int. rewrite mul_spec, Hof.
  change (Prim2SF 0) with (S754_zero false). reflexivity.
Qed.


(** [math.Min(1, q)] for a [q] of at least 1. *)
Lemma Min_one_at_least_one (q : float) :
  Prim2SF q = S754_infinity false
  \/ (exists m e, Prim2SF q = S754_finite false m e
                  /\ scaled 1 0 <= scaled (Z.pos m) e) ->
  Go.Min 1 q = 1%float.
Proof.
  intros Hq. unfold Go.Min.
  change ((1 =? neg_infinity)%float) with false.
  change (is_nan 1) with false.
  change ((1 =? 0)%float) with false.
  cbn [orb andb]. unfold is_nan.
  rewrite !eqb_spec, ltb_spec.
  change (Prim2SF 1) with (S754_finite false 4503599627370496 (-52)).
  change (Prim2SF neg_infinity) with (S754_infinity true).
  destruct Hq as [Hq | (m & e & Hq & Hle)]; rewrite Hq; [ reflexivity | ].
  pose proof (Prim2SF_bounded q _ _ _ Hq) as Hb.
  assert (Hb1 : bounded prec emax 4503599627370496 (-52) = true) by reflexivity.
  assert (Hself : SFeqb (S754_finite false m e) (S754_finite false m e) = true).
  { unfold SFeqb, SFcompare. now rewrite Z.compare_refl, Pos.compare_cont_refl. }
  rewrite Hself.
  change (SFeqb (S754_finite false m e) (S754_infinity true)) with false.
  cbn [negb].
  unfold SFltb. rewrite (SFcompare_scaled _ _ _ _ Hb1 Hb).
  change (scaled (Z.pos 4503599627370496) (-52)) with (scaled 1 0).
  destruct (Z.compare_spec (scaled 1 0) (scaled (Z.pos m) e)) as [Heq | Hlt | Hgt];
    [ | reflexivity | lia ].
  (* a float of value 1 is the float 1 *)
  apply Prim2SF_inj. rewrite Hq.
  change (Prim2SF 1) with (S754_finite false 4503599627370496 (-52)).
  pose proof (SFcompare_scaled _ _ _ _ Hb1 Hb) as Hcmp.
  change (scaled (Z.pos 4503599627370496) (-52)) with (scaled 1 0) in Hcmp.
  rewrite Heq, Z.compare_refl in Hcmp. cbn [SFcompare] in Hcmp.
  destruct (Z.compare_spec (-52) e) as [He | He | He]; try discriminate.
  subst e. change (Pos.compare_cont Eq 4503599627370496 m)
    with (4503599627370496 ?= m)%positive in Hcmp.
  injection Hcmp as Hcmp. apply Pos.compare_eq in Hcmp. now subst m.
Qed.

(** The queue factor of a queue that is at least half full. *)
Lemma queue_factor_saturates (load : float) :
  (50 <=? load)%float = true -> Go.Min 1 (load / 50)%float = 1%float.
Proof.
  rewrite leb_spec.
  change (Prim2SF 50) with (S754_finite false 7036874417766400 (-47)).
  intro Hle. apply Min_one_at_least_one. rewrite div_spec.
  change (Prim2SF 50) with (S754_finite false 7036874417766400 (-47)).
  pose proof (Prim2SF_valid load) as Hb.
  assert (Hb50 : bounded prec emax 7036874417766400 (-47) = true) by reflexivity.
  destruct (Prim2SF load) as [s | s | | s m e]; try discriminate.
  - destruct s; [ discriminate | ]. left. reflexivity.
  - destruct s; [ discriminate | ].
    cbn [SpecFloat.valid_binary] in Hb.
    apply div_at_least_one; try assumption.
    unfold SFleb in Hle. rewrite (SFcompare_scaled _ _ _ _ Hb50 Hb) in Hle.
    destruct (Z.compare_spec (scaled (Z.pos 7036874417766400) (-47)) (scaled (Z.pos m) e));
      [ lia | lia | discriminate ].
Qed.

(** The factor of the ticker for a queue that is full. *)
Lemma interval_factor_of_a_full_queue (load : float) :
  (100 <=? load)%float = true ->
  negative (Prim2SF (1 - load / 100)).
Proof.
  rewrite leb_spec.
  change (Prim2SF 100) with (S754_finite false 7036874417766400 (-46)).
  intro Hle. apply one_minus_at_least_one. rewrite div_spec.
  change (Prim2SF 100) with (S754_finite false 7036874417766400 (-46)).
  pose proof (Prim2SF_valid load) as Hb.
  assert (Hb100 : bounded prec emax 7036874417766400 (-46) = true) by reflexivity.
  destruct (Prim2SF load) as [s | s | | s m e]; try discriminate.
  - destruct s; [ discriminate | ]. left. reflexivity.
  - destruct s; [ discriminate | ].
    cbn [SpecFloat.valid_binary] in Hb.
    apply div_at_least_one; try assumption.
    unfold SFleb in Hle. rewrite (SFcompare_scaled _ _ _ _ Hb100 Hb) in Hle.
    destruct (Z.compare_spec (scaled (Z.pos 7036874417766400) (-46)) (scaled (Z.pos m) e));
      [ lia | lia | discriminate ].
Qed.

(** The product of [float64(n)], [n >= 0], and a factor that is zero or
    below is zero or below (or NaN). *)
Lemma mul_of_int_negative (n : Z) (z : float) :
  0 <= n -> negative (Prim2SF z) -> negative (Prim2SF (Go.of_int n * z)).
Proof.
  intros Hn Hz. pose proof (of_int_sign n Hn) as Hx. rewrite mul_spec.
  destruct (Prim2SF (Go.of_int n)) as [s | s | | s m e],
           (Prim2SF z) as [s' | s' | | s' m' e'];
    simpl in Hx, Hz |- *; try subst s; try subst s'; try exact I; try reflexivity.
  unfold SF64mul, SFmul. cbn [xorb]. apply (negative_of_sign true).
Qed.

End Quotients.

(* ================================================================= *)
(** ** The batch size under pressure *)

Section Pressure.

Import Binary64 Binary64Facts.

(** X22: under pressure the batch is as small as allowed.  When the CPU and
    the memory are both at or above their targets (positive and finite) and
    the queue is empty, both resource factors and the queue factor are zero,
    and the batch size is [MinBatchSize] (for bounds that are not negative
    and a maximum of at most [2^53]). *)
Theorem batch_size_under_pressure
        (arch : Go.Arch) (config : Config) (metrics : SystemMetrics) :
  (0 <? TargetCPUPercent config)%float = true ->
  (TargetCPUPercent config <? infinity)%float = true ->
  (TargetCPUPercent config <=? CPUUsage metrics)%float = true ->
  (0 <? TargetMemPercent config)%float = true ->
  (TargetMemPercent config <? infinity)%float = true ->
  (TargetMemPercent config <=? MemoryUsage metrics)%float = true ->
  (QueueLoad metrics =? 0)%float = true ->
  0 <= MinBatchSize config ->
  0 <= MaxBatchSize config <= 2 ^ 53 ->
  calculateDynamicBatchSize arch config metrics = MinBatchSize config.
Proof.
  intros Hc1 Hc2 Hc3 Hm1 Hm2 Hm3 Hload Hmin Hmax.
  unfold calculateDynamicBatchSize.
  rewrite (factor_under_pressure _ _ Hc1 Hc2 Hc3).
  rewrite (factor_under_pressure _ _ Hm1 Hm2 Hm3).
  assert (Hzero : QueueLoad metrics = 0%float \/ QueueLoad metrics = (-0)%float).
  { rewrite eqb_spec in Hload. change (Prim2SF 0) with (S754_zero false) in Hload.
    destruct (Prim2SF (QueueLoad metrics)) as [s | s | | s m e] eqn:Hq;
      try discriminate; try (destruct s; discriminate).
    destruct s; [ right | left ]; apply Prim2SF_inj; rewrite Hq; reflexivity. }
  assert (Hfactor : (0 * c0_4 + 0 * c0_4 + Go.Min 1 (QueueLoad metrics / 50) * c0_2
                     = 0)%float).
  { destruct Hzero as [-> | ->]; reflexivity. }
  rewrite Hfactor, mul_zero_int by exact Hmax.
  destruct (Z.ltb_spec 0 (MinBatchSize config)); [ reflexivity | ].
  destruct (Z.ltb_spec (MaxBatchSize config) 0); lia.
Qed.


(** X23: an idle host with a queue that is at least half full batches at
    the maximum.  With no CPU and memory in use (targets that are neither
    zero nor NaN) and a queue load of 50 or more, all three factors are 1,
    their weighted sum is exactly 1, and the batch size is [MaxBatchSize]
    (or [MinBatchSize] if that is larger), for a maximum of at most [2^53]. *)
Theorem batch_size_with_a_filling_queue
        (arch : Go.Arch) (config : Config) (load : float) :
  is_zero (TargetCPUPercent config) = false ->
  is_nan (TargetCPUPercent config) = false ->
  is_zero (TargetMemPercent config) = false ->
  is_nan (TargetMemPercent config) = false ->
  (50 <=? load)%float = true ->
  0 <= MaxBatchSize config <= 2 ^ 53 ->
  calculateDynamicBatchSize arch config (mkMetrics 0 0 load)
  = Z.max (MinBatchSize config) (MaxBatchSize config).
Proof.
  intros Hc1 Hc2 Hm1 Hm2 Hload Hmax.
  unfold calculateDynamicBatchSize. cbn [CPUUsage MemoryUsage QueueLoad].
  rewrite (factor_at_rest _ Hc1 Hc2), (factor_at_rest _ Hm1 Hm2).
  rewrite (queue_factor_saturates _ Hload).
  change (1 * c0_4 + 1 * c0_4 + 1 * c0_2)%float with 1%float.
  rewrite mul_one_exact by exact Hmax.
  destruct (Z.ltb_spec (MaxBatchSize config) (MinBatchSize config)); [ lia | ].
  rewrite Z.ltb_irrefl. lia.
Qed.

(** X24: a full queue collapses the interval.  For a queue load of 100 or
    more the factor of [ProcessQueue] is zero or below, and the period of the
    ticker is [MinBatchInterval] (which is positive, as [time.NewTicker]
    requires; [MaxBatchInterval] is not negative). *)
Theorem flush_interval_of_a_full_queue
        (arch : Go.Arch) (config : Config) (metrics : SystemMetrics) :
  (100 <=? QueueLoad metrics)%float = true ->
  0 < MinBatchInterval config ->
  0 <= MaxBatchInterval config ->
  flushInterval arch config metrics = MinBatchInterval config.
Proof.
  intros Hload Hmin Hmax. unfold flushInterval.
  pose proof (float_to_int_negative arch _
                (mul_of_int_negative (MaxBatchInterval config) _ Hmax
                   (interval_factor_of_a_full_queue _ Hload))) as Hle.
  destruct (Z.ltb_spec
              (Go.float_to_int arch
                 (Go.of_int (MaxBatchInterval config) * (1 - QueueLoad metrics / 100)))
              (MinBatchInterval config)); [ reflexivity | lia ].
Qed.

End Pressure.

(* ================================================================= *)
(** ** The further properties at concrete inputs *)

(** X3 at a concrete input. *)
Lemma data_that_is_not_a_string_is_dropped_example :
  Json.equalFold "data" "data" = true
  /\ Json.kind reading <> "string"
  /\ Json.kind reading <> "null"
  /\ Codec.unmarshalMessage
       (Json.Object ([("msg_type", Json.Str "publish")] ++ [("data", reading)]))
     = None
  /\ HandleConnection someTypeErrorText someMarshalAny exampleConfig accepting
       [DecodeValue (Json.Object ([("msg_type", Json.Str "publish")]
                                  ++ [("data", reading)]));
        clientSends (publishOf "y")]
       (newHandler [])
     = HandleConnection someTypeErrorText someMarshalAny exampleConfig accepting
         [clientSends (publishOf "y")] (newHandler []).
Proof.
  split; [ reflexivity | ]. split; [ discriminate | ]. split; [ discriminate | ].
  apply (data_that_is_not_a_string_is_dropped
           someTypeErrorText someMarshalAny exampleConfig accepting
           [("msg_type", Json.Str "publish")] [] "data" reading
           [clientSends (publishOf "y")] (newHandler [])).
  - reflexivity.
  - discriminate.
  - discriminate.
Defined.

(** X7 at a concrete input. *)
Lemma publishes_reach_the_upstream_in_order_example :
  exists st st',
    forallb fireAndForget threePublishes = true
    /\ offered exampleEvents
       = enqueued (HandleConnection someTypeErrorText someMarshalAny exampleConfig
                     accepting (map clientSends threePublishes) (newHandler []))
    /\ startWorker exampleConfig [] = Some startedWorker
    /\ run Go.amd64 exampleConfig accepting startedWorker exampleEvents = Some st
    /\ step Go.amd64 exampleConfig accepting st Done = Some st'
    /\ written (HandleConnection someTypeErrorText someMarshalAny exampleConfig
                  accepting (map clientSends threePublishes) (newHandler []))
       = []
    /\ requests (HandleConnection someTypeErrorText someMarshalAny exampleConfig
                   accepting (map clientSends threePublishes) (newHandler []))
       = []
    /\ exists batches,
        posted st' = [] ++ map (batchRequest exampleConfig) batches
        /\ Forall (fun b => b <> []
                            /\ payloadMessages (batchRequest exampleConfig b) = Some b)
                  batches
        /\ List.concat batches
           = map (fun m => withoutLimit (coerced m)) threePublishes
        /\ (forallb validMessage threePublishes = true ->
            List.concat batches = map withoutLimit threePublishes).
Proof.
  eexists. eexists.
  split; [ reflexivity | ].
  split; [ reflexivity | ].
  split; [ reflexivity | ].
  split; [ vm_compute; reflexivity | ].
  split; [ reflexivity | ].
  eapply (publishes_reach_the_upstream_in_order
            someTypeErrorText someMarshalAny Go.amd64 exampleConfig accepting
            threePublishes [] [] exampleEvents startedWorker).
  - reflexivity.
  - reflexivity.
  - reflexivity.
  - vm_compute; reflexivity.
  - reflexivity.
Defined.

(** X8 at a concrete input. *)
Lemma poll_relays_the_messages_of_the_upstream_example :
  MsgType msgCheck = "msg_check"
  /\ pollLimit msgCheck = Some 1
  /\ holdingOne (requests (newHandler [])) (checkRequest exampleConfig 1)
     = Response 200
         (BodyJson (Json.Object [("messages", Codec.marshalMessages [publishOf "x"])]))
  /\ [publishOf "x"] <> []
  /\ written (ProcessMessage someTypeErrorText someMarshalAny exampleConfig holdingOne
                (newHandler []) msgCheck)
     = written (newHandler [])
         ++ [Json.render (Codec.marshalMessages (map coerced [publishOf "x"]))]
  /\ enqueued (ProcessMessage someTypeErrorText someMarshalAny exampleConfig holdingOne
                 (newHandler []) msgCheck)
     = enqueued (newHandler [])
  /\ (forallb validMessage [publishOf "x"] = true ->
      written (ProcessMessage someTypeErrorText someMarshalAny exampleConfig holdingOne
                 (newHandler []) msgCheck)
      = written (newHandler []) ++ [Json.render (Codec.marshalMessages [publishOf "x"])]).
Proof.
  split; [ reflexivity | ]. split; [ reflexivity | ]. split; [ reflexivity | ].
  split; [ discriminate | ].
  apply (poll_relays_the_messages_of_the_upstream
           someTypeErrorText someMarshalAny exampleConfig holdingOne
           (newHandler []) msgCheck 1 [publishOf "x"]).
  - reflexivity.
  - reflexivity.
  - reflexivity.
  - discriminate.
Defined.

(** X9 at a concrete input. *)
Lemma publish_that_waits_is_posted_alone_example :
  MsgType publishAndWait = "publish"
  /\ WaitResponse (Context publishAndWait) = true
  /\ enqueued (ProcessMessage someTypeErrorText someMarshalAny exampleConfig unreachable
                 (newHandler []) publishAndWait)
     = enqueued (newHandler [])
  /\ requests (ProcessMessage someTypeErrorText someMarshalAny exampleConfig unreachable
                 (newHandler []) publishAndWait)
     = requests (newHandler []) ++ [singleRequest exampleConfig publishAndWait]
  /\ option_map Codec.unmarshalMessage (Payload (singleRequest exampleConfig publishAndWait))
     = Some (Some (withoutLimit (coerced publishAndWait)))
  /\ (validMessage publishAndWait = true ->
      option_map Codec.unmarshalMessage (Payload (singleRequest exampleConfig publishAndWait))
      = Some (Some (withoutLimit publishAndWait)))
  /\ written (ProcessMessage someTypeErrorText someMarshalAny exampleConfig unreachable
                (newHandler []) publishAndWait)
     = written (newHandler [])
         ++ [match unreachable (requests (newHandler []))
                               (singleRequest exampleConfig publishAndWait) with
             | TransportError err =>
                 Json.render (Json.Object [("error", Json.Str err)])
             | Response _ (BodyJson v) => someMarshalAny v
             | Response _ (BodyMalformed _) => "null"
             end].
Proof.
  split; [ reflexivity | ]. split; [ reflexivity | ].
  apply (publish_that_waits_is_posted_alone
           someTypeErrorText someMarshalAny exampleConfig unreachable
           (newHandler []) publishAndWait); reflexivity.
Defined.

(** X10 at a concrete input. *)
Lemma failed_poll_is_reported_to_the_client_example :
  MsgType msgCheck = "msg_check"
  /\ pollLimit msgCheck = Some 1
  /\ unreachable (requests (newHandler [])) (checkRequest exampleConfig 1)
     = TransportError "connection refused"
  /\ ProcessMessage someTypeErrorText someMarshalAny exampleConfig unreachable
                    (newHandler []) msgCheck
     = mkHandler
         (written (newHandler [])
            ++ [Json.render (Codec.marshalResponse
                               (mkResponse "error" "connection refused"))])
         (enqueued (newHandler []))
         (requests (newHandler []) ++ [checkRequest exampleConfig 1])
         (connClosed (newHandler [])).
Proof.
  split; [ reflexivity | ]. split; [ reflexivity | ]. split; [ reflexivity | ].
  apply (failed_poll_is_reported_to_the_client
           someTypeErrorText someMarshalAny exampleConfig unreachable
           (newHandler []) msgCheck 1 "connection refused").
  - reflexivity.
  - reflexivity.
  - left. reflexivity.
Defined.


(** X16 at a concrete input. *)
Lemma batches_hold_at_most_the_maximum_example :
  exists st,
    startWorker exampleConfig [] = Some startedWorker
    /\ run Go.amd64 exampleConfig accepting startedWorker exampleEvents = Some st
    /\ returned st = false
    /\ exists batches,
        posted st = [] ++ map (batchRequest exampleConfig) batches
        /\ Forall (fun b => 1 <= Go.len b
                            <= Z.max 1 (Z.max (MinBatchSize exampleConfig)
                                              (MaxBatchSize exampleConfig)))
                  batches.
Proof.
  eexists.
  split; [ reflexivity | ]. split; [ vm_compute; reflexivity | ].
  split; [ reflexivity | ].
  apply (batches_hold_at_most_the_maximum
           Go.amd64 exampleConfig accepting [] exampleEvents startedWorker).
  - reflexivity.
  - vm_compute; reflexivity.
  - reflexivity.
Defined.

(** X13 at a concrete input. *)
Lemma ticker_period_is_at_least_the_minimum_example :
  exists st,
    startWorker exampleConfig [] = Some startedWorker
    /\ run Go.amd64 exampleConfig accepting startedWorker exampleEvents = Some st
    /\ returned st = false
    /\ exists period,
        ticker st = Some period
        /\ 0 < period
        /\ MinBatchInterval exampleConfig <= period.
Proof.
  eexists.
  split; [ reflexivity | ]. split; [ vm_compute; reflexivity | ].
  split; [ reflexivity | ].
  apply (ticker_period_is_at_least_the_minimum
           Go.amd64 exampleConfig accepting [] exampleEvents startedWorker).
  - reflexivity.
  - vm_compute; reflexivity.
  - reflexivity.
Defined.

(** X14 at a concrete input. *)
Lemma ticker_period_stays_within_bounds_example :
  exists st,
    MinBatchInterval exampleConfig <= MaxBatchInterval exampleConfig
    /\ MaxBatchInterval exampleConfig <= 2 ^ 53
    /\ startWorker exampleConfig [] = Some startedWorker
    /\ run Go.amd64 exampleConfig accepting startedWorker exampleEvents = Some st
    /\ returned st = false
    /\ exists period,
        ticker st = Some period
        /\ MinBatchInterval exampleConfig <= period <= MaxBatchInterval exampleConfig.
Proof.
  eexists.
  split; [ vm_compute; discriminate | ]. split; [ vm_compute; discriminate | ].
  split; [ reflexivity | ]. split; [ vm_compute; reflexivity | ].
  split; [ reflexivity | ].
  apply (ticker_period_stays_within_bounds
           Go.amd64 exampleConfig accepting [] exampleEvents startedWorker).
  - vm_compute; discriminate.
  - vm_compute; discriminate.
  - reflexivity.
  - vm_compute; reflexivity.
  - reflexivity.
Defined.

(** X15 at a concrete input. *)
Lemma worker_keeps_every_message_in_order_example :
  exists st,
    startWorker exampleConfig [] = Some startedWorker
    /\ run Go.amd64 exampleConfig accepting startedWorker exampleEvents = Some st
    /\ exists batches,
        posted st = [] ++ map (batchRequest exampleConfig) batches
        /\ Forall (fun b => b <> []) batches
        /\ List.concat batches ++ (if returned st then [] else batch st ++ queue st)
           = offered exampleEvents.
Proof.
  eexists.
  split; [ reflexivity | ]. split; [ vm_compute; reflexivity | ].
  apply (worker_keeps_every_message_in_order
           Go.amd64 exampleConfig accepting [] exampleEvents startedWorker).
  - reflexivity.
  - vm_compute; reflexivity.
Defined.

(** X18 at a concrete input. *)
Lemma drained_queue_relaxes_the_ticker_example :
  exists st',
    0 < MaxQueueSize exampleConfig
    /\ 0 <= MaxBatchInterval exampleConfig <= 2 ^ 53
    /\ queue workerWithOne = [publishOf "a"]
    /\ during busyProbe = []
    /\ step Go.amd64 exampleConfig accepting workerWithOne (Receive busyProbe) = Some st'
    /\ queue st' = []
    /\ ticker st'
       = Some (Z.max (MinBatchInterval exampleConfig) (MaxBatchInterval exampleConfig)).
Proof.
  eexists.
  split; [ reflexivity | ].
  split; [ split; vm_compute; discriminate | ].
  split; [ reflexivity | ]. split; [ reflexivity | ].
  split; [ vm_compute; reflexivity | ].
  apply (drained_queue_relaxes_the_ticker
           Go.amd64 exampleConfig accepting workerWithOne _ (publishOf "a") busyProbe).
  - reflexivity.
  - split; vm_compute; discriminate.
  - reflexivity.
  - reflexivity.
  - vm_compute; reflexivity.
Defined.

(** X19 at a concrete input. *)
Lemma without_a_buffer_the_controller_stays_at_its_minimum_example :
  MaxQueueSize configNoBuffer = 0
  /\ 1 <= MinBatchSize configNoBuffer
  /\ 0 < MinBatchInterval configNoBuffer
  /\ is_nan (QueueLoad (getSystemMetrics configNoBuffer idleProbe 0)) = true
  /\ calculateDynamicBatchSize Go.arm64 configNoBuffer
       (getSystemMetrics configNoBuffer idleProbe 0)
     = MinBatchSize configNoBuffer
  /\ flushInterval Go.arm64 configNoBuffer (getSystemMetrics configNoBuffer idleProbe 0)
     = MinBatchInterval configNoBuffer.
Proof.
  split; [ reflexivity | ]. split; [ vm_compute; discriminate | ].
  split; [ reflexivity | ].
  apply (without_a_buffer_the_controller_stays_at_its_minimum
           Go.arm64 configNoBuffer idleProbe).
  - reflexivity.
  - vm_compute; discriminate.
  - reflexivity.
Defined.


(** X17 at a concrete input. *)
Lemma Convert_scales_into_the_largest_unit_example :
  0 <= 1536 < 2 ^ 64
  /\ snd (Convert 1536)
     = (if 2 ^ 30 <=? 1536 then "GB"
        else if 2 ^ 20 <=? 1536 then "MB"
        else if 2 ^ 10 <=? 1536 then "KB"
        else "bytes")
  /\ (1536 = 0 -> fst (Convert 1536) = 0%float)
  /\ (1 <= 1536 -> (1 <=? fst (Convert 1536))%float = true)
  /\ (1 <= 1536 < 2 ^ 30 -> (fst (Convert 1536) <? 1024)%float = true).
Proof.
  split; [ split; vm_compute; [ discriminate | reflexivity ] | ].
  apply (Convert_scales_into_the_largest_unit 1536).
  split; vm_compute; [ discriminate | reflexivity ].
Defined.

(** X22 at a concrete input. *)
Lemma batch_size_under_pressure_example :
  (0 <? TargetCPUPercent exampleConfig)%float = true
  /\ (TargetCPUPercent exampleConfig <? infinity)%float = true
  /\ (TargetCPUPercent exampleConfig <=? CPUUsage (mkMetrics 95 80 0))%float = true
  /\ (0 <? TargetMemPercent exampleConfig)%float = true
  /\ (TargetMemPercent exampleConfig <? infinity)%float = true
  /\ (TargetMemPercent exampleConfig <=? MemoryUsage (mkMetrics 95 80 0))%float = true
  /\ (QueueLoad (mkMetrics 95 80 0) =? 0)%float = true
  /\ 0 <= MinBatchSize exampleConfig
  /\ 0 <= MaxBatchSize exampleConfig <= 2 ^ 53
  /\ calculateDynamicBatchSize Go.amd64 exampleConfig (mkMetrics 95 80 0)
     = MinBatchSize exampleConfig.
Proof.
  split; [ reflexivity | ]. split; [ reflexivity | ]. split; [ reflexivity | ].
  split; [ reflexivity | ]. split; [ reflexivity | ]. split; [ reflexivity | ].
  split; [ reflexivity | ]. split; [ vm_compute; discriminate | ].
  split; [ split; vm_compute; discriminate | ].
  apply (batch_size_under_pressure Go.amd64 exampleConfig (mkMetrics 95 80 0)).
  - reflexivity.
  - reflexivity.
  - reflexivity.
  - reflexivity.
  - reflexivity.
  - reflexivity.
  - reflexivity.
  - vm_compute; discriminate.
  - split; vm_compute; discriminate.
Defined.

(** X23 at a concrete input. *)
Lemma batch_size_with_a_filling_queue_example :
  is_zero (TargetCPUPercent exampleConfig) = false
  /\ is_nan (TargetCPUPercent exampleConfig) = false
  /\ is_zero (TargetMemPercent exampleConfig) = false
  /\ is_nan (TargetMemPercent exampleConfig) = false
  /\ (50 <=? 62.5)%float = true
  /\ 0 <= MaxBatchSize exampleConfig <= 2 ^ 53
  /\ calculateDynamicBatchSize Go.amd64 exampleConfig (mkMetrics 0 0 62.5)
     = Z.max (MinBatchSize exampleConfig) (MaxBatchSize exampleConfig).
Proof.
  split; [ reflexivity | ]. split; [ reflexivity | ]. split; [ reflexivity | ].
  split; [ reflexivity | ]. split; [ reflexivity | ].
  split; [ split; vm_compute; discriminate | ].
  apply (batch_size_with_a_filling_queue Go.amd64 exampleConfig 62.5).
  - reflexivity.
  - reflexivity.
  - reflexivity.
  - reflexivity.
  - reflexivity.
  - split; vm_compute; discriminate.
Defined.

(** X24 at a concrete input. *)
Lemma flush_interval_of_a_full_queue_example :
  (100 <=? QueueLoad (mkMetrics 35 90 100))%float = true
  /\ 0 < MinBatchInterval exampleConfig
  /\ 0 <= MaxBatchInterval exampleConfig
  /\ flushInterval Go.amd64 exampleConfig (mkMetrics 35 90 100)
     = MinBatchInterval exampleConfig.
Proof.
  split; [ reflexivity | ]. split; [ reflexivity | ].
  split; [ vm_compute; discriminate | ].
  apply (flush_interval_of_a_full_queue Go.amd64 exampleConfig (mkMetrics 35 90 100)).
  - reflexivity.
  - reflexivity.
  - vm_compute; discriminate.
Defined.
